(** * news_email_app: the fetch / enrich / summarize pipeline

    A shallow embedding of [Slider_Bot_News/backend/bot_news_optimized.py]
    and [Slider_Bot_News/backend/app.py], and the properties of the
    specification proved (or refuted) on it.

    Conventions of the embedding.
    - A Python [str] is a [string]; a character stands for the code point
      of the same number, so the texts covered are those whose code points
      are below 256.
    - A Python [float] is a value of an abstract type with the operations
      the code uses ([+], [int / int], [<], [<=]); see [Float].
    - A [dict] whose iteration order matters is an association list kept
      in insertion order; the article cache is a [gmap].
    - Code that can raise runs in a state-and-exception monad [M].
    - What lives outside the repository ([html.unescape], [hashlib.sha1],
      the VADER analyzer, the network, BeautifulSoup, the time zones, the
      clock, the mail library and SMTP) is a field of [Library], of
      [Network], of [TimeZones] or of [Mail]. *)

From Stdlib Require Import ZArith QArith Ascii String List Sorting.Sorted.
From Stdlib Require Import Structures.OrderedTypeEx.
From stdpp Require Import base option list sorting gmap strings pretty.

#[local] Set Warnings "-clear-no-such-hyp".

Local Open Scope Z_scope.

(** ** Python values and helpers *)

Module Py.

(** Slice [l[:n]] for an [int] bound: a negative bound counts from the end. *)
Definition slice_to {A} (n : Z) (l : list A) : list A :=
  if 0 <=? n then take (Z.to_nat n) l
  else take (length l - Z.to_nat (- n)) l.

(** [sep.join(parts)]. *)
Fixpoint join (sep : string) (parts : list string) : string :=
  match parts with
  | [] => ""
  | [p] => p
  | p :: ps => p +:+ sep +:+ join sep ps
  end.

(** [l.index(x)]: position of the first occurrence; [None] stands for the
    [ValueError] of an absent element. *)
Fixpoint index {A} `{EqDecision A} (x : A) (l : list A) : option nat :=
  match l with
  | [] => None
  | y :: l' => if decide (x = y) then Some 0%nat else S <$> index x l'
  end.

(** A [dict] in insertion order. [dict_set] is [d[k] = v]: an existing key
    keeps its place and takes the new value, a new key goes to the end. *)
Fixpoint dict_set {V} (k : string) (v : V) (d : list (string * V))
  : list (string * V) :=
  match d with
  | [] => [(k, v)]
  | (k', v') :: d' =>
      if decide (k = k') then (k, v) :: d' else (k', v') :: dict_set k v d'
  end.

Fixpoint dict_get {V} (k : string) (d : list (string * V)) : option V :=
  match d with
  | [] => None
  | (k', v') :: d' => if decide (k = k') then Some v' else dict_get k d'
  end.

Definition dict_keys {V} (d : list (string * V)) : list string := d.*1.
Definition dict_values {V} (d : list (string * V)) : list V := d.*2.

(** [sorted(l, key=...)], a stable sort: [lt a b] says that the key of [a]
    is strictly below the key of [b].  An element is put in front of the
    first element that is not strictly below it, so elements that compare
    equal keep their order. *)
Section sorted.
Context {A : Type} (lt : A → A → bool).

Fixpoint insert_stable (x : A) (l : list A) : list A :=
  match l with
  | [] => [x]
  | y :: l' => if lt y x then y :: insert_stable x l' else x :: l
  end.

Definition sorted (l : list A) : list A := foldr insert_stable [] l.
End sorted.

(** [max(l)] of a list of counts ([0] stands for the error on an empty
    list, which the callers exclude). *)
Definition max_of (l : list nat) : nat := foldr Nat.max 0%nat l.

End Py.

(** ** Floating point *)

(** The float operations the code uses.  The laws are those of the order
    of IEEE doubles that are not NaN; no law is asked of the arithmetic,
    so rounding is left open. *)
Class Float := {
  float : Type;
  f_zero : float;                 (* 0.0 *)
  f_pos_005 : float;              (* 0.05 *)
  f_neg_005 : float;              (* -0.05 *)
  f_add : float → float → float;  (* x + y *)
  f_div : nat → nat → float;      (* int / int, true division *)
  f_lt : float → float → bool;    (* x < y *)
  f_le : float → float → bool;    (* x <= y *)
  f_le_refl : ∀ x, f_le x x = true;
  f_le_trans : ∀ x y z, f_le x y = true → f_le y z = true → f_le x z = true;
  f_neg_lt_zero : f_le f_zero f_neg_005 = false;
  f_zero_lt_pos : f_le f_pos_005 f_zero = false;
  f_neg_lt_pos : f_le f_pos_005 f_neg_005 = false;
}.

(** ** Text utilities *)

Module Text.

Definition code (c : ascii) : N := N_of_ascii c.

Definition between (lo hi : N) (c : ascii) : bool :=
  ((lo <=? code c) && (code c <=? hi))%N.

(** White space as [str.isspace], [str.strip], [str.split] and the regex
    class [\s] see it, among the code points below 256. *)
Definition is_space (c : ascii) : bool :=
  between 9 13 c || between 28 32 c || (code c =? 133)%N || (code c =? 160)%N.

(** [[A-Za-z0-9']]. *)
Definition is_word_char (c : ascii) : bool :=
  between 65 90 c || between 97 122 c || between 48 57 c || (code c =? 39)%N.

(** [[.!?]]. *)
Definition is_sentence_end (c : ascii) : bool :=
  (code c =? 46)%N || (code c =? 33)%N || (code c =? 63)%N.

(** [str.lower] on one code point below 256: the letters A-Z and the
    capital letters of Latin-1 (192-222 but for the sign 215). *)
Definition lower_char (c : ascii) : ascii :=
  if between 65 90 c || (between 192 222 c && negb (code c =? 215)%N)
  then ascii_of_N (code c + 32) else c.

Fixpoint lower (s : string) : string :=
  match s with
  | "" => ""
  | String c s' => String (lower_char c) (lower s')
  end.

(** [c in s] for a character, and [s in t] for two strings. *)
Fixpoint has_char (c : ascii) (s : string) : bool :=
  match s with
  | "" => false
  | String x s' => Ascii.eqb x c || has_char c s'
  end.

Fixpoint contains (s t : string) : bool :=
  String.prefix s t ||
  match t with
  | "" => false
  | String _ t' => contains s t'
  end.

Definition starts_with (p : ascii → bool) (s : string) : bool :=
  match s with String c _ => p c | "" => false end.

(** Put a character in front of the first piece of a list of pieces. *)
Definition cons_head (c : ascii) (ps : list string) : list string :=
  match ps with
  | p :: ps' => String c p :: ps'
  | [] => [String c ""]
  end.

(** The maximal non-empty runs of characters that satisfy [p], left to
    right: [re.findall] of a pattern [[class]+], and [str.split()] when
    [p] is "not white space". *)
Fixpoint runs (p : ascii → bool) (s : string) : list string :=
  match s with
  | "" => []
  | String c s' =>
      if p c then
        if starts_with p s' then cons_head c (runs p s')
        else String c "" :: runs p s'
      else runs p s'
  end.

Definition split_ws (s : string) : list string :=
  runs (λ c, negb (is_space c)) s.

Fixpoint lstrip (s : string) : string :=
  match s with
  | String c s' => if is_space c then lstrip s' else s
  | "" => ""
  end.

Fixpoint rstrip (s : string) : string :=
  match s with
  | String c s' =>
      match rstrip s' with
      | "" => if is_space c then "" else String c ""
      | r => String c r
      end
  | "" => ""
  end.

Definition strip (s : string) : string := rstrip (lstrip s).

(** [_TAG_STRIP_RE.sub("", s)] for the pattern [<[^>]+>].  A match starts
    at a [<], runs over at least one character other than [>] and ends at
    the first [>] after them.  [pending] holds the text from a [<] on
    while its [>] has not been seen: it is dropped when the [>] comes, and
    kept when the text ends first or the [>] follows the [<] at once. *)
Fixpoint tag_sub (pending : option string) (s : string) : string :=
  match s with
  | "" => default "" pending
  | String c s' =>
      match pending with
      | None =>
          if Ascii.eqb c "<" then tag_sub (Some (String c "")) s'
          else String c (tag_sub None s')
      | Some buf =>
          if Ascii.eqb c ">" then
            if (String.length buf =? 1)%nat
            then buf +:+ String c (tag_sub None s')
            else tag_sub None s'
          else tag_sub (Some (buf +:+ String c "")) s'
      end
  end.

Definition strip_tags (s : string) : string := tag_sub None s.

(** [_SENT_SPLIT_RE.split(s)] for the pattern [(?<=[.!?])\s+]: the text is
    cut at every maximal run of white space that follows one of [.!?]. *)
Inductive split_mode := AfterEnd | InSeparator | Plain.

Fixpoint sent_split (m : split_mode) (s : string) : list string :=
  match s with
  | "" => [""]
  | String c s' =>
      if is_space c then
        match m with
        | AfterEnd => "" :: sent_split InSeparator s'
        | InSeparator => sent_split InSeparator s'
        | Plain => cons_head c (sent_split Plain s')
        end
      else
        cons_head c
          (sent_split (if is_sentence_end c then AfterEnd else Plain) s')
  end.

Definition split_sentences_re (s : string) : list string := sent_split Plain s.

End Text.

(** ** Libraries outside the repository *)

(** The pure library calls of the module.  [html_unescape] is
    [html.unescape], whose first line returns a text without [&] as it is;
    [sha1_hex s] is [hashlib.sha1(s.encode("utf-8", "ignore")).hexdigest()];
    [_VADER_SIA] is absent when the import of the analyzer has
    failed, and else its [polarity_scores], a dict of floats. *)
Class Library `{Float} := {
  html_unescape : string → string;
  html_unescape_plain :
    ∀ s, Text.has_char "&" s = false → html_unescape s = s;
  sha1_hex : string → string;
  _VADER_SIA : option (string → gmap string float);
}.

(** ** Tokenizer, sentiment and summarizer *)

Definition _STOPWORDS : list string := [
  "a";"an";"and";"the";"to";"of";"in";"on";"for";"at";"by";"from";"with";"as";
  "is";"are";"was";"were";"be";"been";"being";"that";"this";"it";"its";"if";
  "but";"or";"not";"no";"so";"than";"then";"too";"very";"can";"could";"should";
  "would";"may";"might";"will";"shall";"into";"about";"over";"after";"before";
  "up";"down";"out";"off";"only";"just";"also";"more";"most";"other";"some";
  "such";"any";"each";"few";"both";"many";"much";"own";"same" ].

Definition _fast_words (text : string) : list string :=
  filter (λ w, w ∉ _STOPWORDS) (Text.runs Text.is_word_char (Text.lower text)).

(** A value of the dict [analyze_sentiment] returns: a score or the label. *)
Inductive sent_value `{Float} :=
  | SFloat (x : float)
  | SLabel (l : string).

Section pure.
Context `{Library}.

Definition _fast_sentences (text : string) : list string :=
  let text := Text.strip_tags text in
  let text := html_unescape text in
  let sents := Text.split_sentences_re (Text.strip text) in
  Text.strip <$>
    filter (λ s, (3 ≤ length (Text.split_ws (Text.strip s)))%nat) sents.

(** [{"compound": 0.0, "label": "neutral"}] *)
Definition neutral : gmap string sent_value :=
  {[ "compound" := SFloat f_zero; "label" := SLabel "neutral" ]}.

Definition label_of (comp : float) : string :=
  if f_le f_pos_005 comp then "positive"
  else if f_le comp f_neg_005 then "negative"
  else "neutral".

Definition analyze_sentiment (text : option string)
  : gmap string sent_value :=
  match text with
  | None | Some "" => neutral
  | Some t =>
      match _VADER_SIA with
      | None => neutral
      | Some polarity_scores =>
          let scores := polarity_scores (substring 0 5000 t) in
          let comp := default f_zero (scores !! "compound") in
          <["label" := SLabel (label_of comp)]> (SFloat <$> scores)
      end
  end.

(** The loop [for w in words: freq[w] = freq.get(w, 0) + 1]. *)
Definition term_counts (words : list string) : list (string * nat) :=
  foldl (λ freq w,
           Py.dict_set w (default 0 (Py.dict_get w freq) + 1)%nat freq)
        [] words.

(** The loop [for k in list(freq): freq[k] = freq[k] / max_f]. *)
Definition relative (freq : list (string * nat)) : list (string * float) :=
  let max_f := Py.max_of (Py.dict_values freq) in
  (λ kv, (kv.1, f_div kv.2 max_f)) <$> freq.

(** [sum(...)] of floats: the additions start from [0]. *)
Definition f_sum (l : list float) : float := foldl f_add f_zero l.

(** The loop that fills [scores]; a sentence with fewer than three
    content words is passed over. *)
Definition sentence_scores (freq : list (string * float))
    (sentences : list string) : list (string * float) :=
  foldl (λ scores s,
           let sw := _fast_words s in
           if (length sw <? 3)%nat then scores
           else Py.dict_set s
                  (f_sum ((λ w, default f_zero (Py.dict_get w freq)) <$> sw))
                  scores)
        [] sentences.

(** [sorted(scores, key=scores.get, reverse=True)]: the keys by falling
    score, equal scores in the order of the dict. *)
Definition by_score (scores : list (string * float)) : list string :=
  let key s := default f_zero (Py.dict_get s scores) in
  Py.sorted (λ a b, f_lt (key b) (key a)) (Py.dict_keys scores).

(** [sorted(..., key=lambda s: sentences.index(s))]; every sentence sorted
    here is a key of [scores], hence in [sentences], and [index] finds it. *)
Definition by_position (sentences l : list string) : list string :=
  let key s := default 0%nat (Py.index s sentences) in
  Py.sorted (λ a b, (key a <? key b)%nat) l.

(** The list of sentences that [summarizeText] joins; the two
    [return ""] are the join of no sentence. *)
Definition summary_sentences (text : string) (max_sentences : Z)
  : list string :=
  match text with
  | "" => []
  | _ =>
      let sentences := _fast_sentences text in
      match sentences, _fast_words text with
      | [], _ => []
      | _, [] => Py.slice_to max_sentences sentences
      | _, words =>
          let freq := relative (term_counts words) in
          match sentence_scores freq sentences with
          | [] => Py.slice_to max_sentences sentences
          | scores =>
              by_position sentences (Py.slice_to max_sentences (by_score scores))
          end
      end
  end.

Definition summarizeText (text : string) (max_sentences : Z) : string :=
  Py.join " " (summary_sentences text max_sentences).
End pure.

(** ** Exceptions, state and the monad of effectful code *)

(** A raised exception, of a class below [Exception], with its message. *)
Inductive exn :=
  | AttributeError (msg : string)
  | TypeError (msg : string)
  | ValueError (msg : string)
  | KeyError (msg : string)
  | RequestException (msg : string)
  | ParserError (msg : string).

Definition exn_str (e : exn) : string :=
  match e with
  | AttributeError m | TypeError m | ValueError m | KeyError m
  | RequestException m | ParserError m => m
  end.

Inductive outcome (A : Type) :=
  | Ok (a : A)
  | Raise (e : exn).
Arguments Ok {A} a.
Arguments Raise {A} e.

(** [{"text": ..., "image": ...}], the value [fetchArticle] returns. *)
Record fetch_result := FetchResult {
  fr_text : string;
  fr_image : option string;
}.

#[export] Instance fetch_result_eq_dec : EqDecision fetch_result.
Proof. solve_decision. Defined.

(** The state of the process: the module-level dict [_CACHE], and the log
    of the article requests sent so far, kept to count them. *)
Record state := State {
  _CACHE : gmap string fetch_result;
  requests : list string;
}.

Definition M (A : Type) : Type := state → outcome A * state.

#[export] Instance M_ret : MRet M := λ A a st, (Ok a, st).
#[export] Instance M_bind : MBind M := λ A B f c st,
  match c st with
  | (Ok a, st') => f a st'
  | (Raise e, st') => (Raise e, st')
  end.

Definition lift {A} (o : outcome A) : M A := λ st, (o, st).

(** [try: body / except Exception: handler]. *)
Definition try_except {A} (body : M A) (handler : exn → M A) : M A := λ st,
  match body st with
  | (Ok a, st') => (Ok a, st')
  | (Raise e, st') => handler e st'
  end.

Definition get_cache : M (gmap string fetch_result) := λ st, (Ok (_CACHE st), st).

(** [_CACHE[url] = result] *)
Definition cache_put (url : string) (r : fetch_result) : M () := λ st,
  (Ok (), State (<[url := r]> (_CACHE st)) (requests st)).

(** ** The network *)

Record http_response := HttpResponse {
  status_code : Z;
  response_text : string;
}.

(** One item of the headline API, a JSON object.  A field is a string, or
    [None] when the key is missing or null.  The source is an object with a name, or,
    off the documented format, a bare string. *)
Inductive source_field :=
  | SourceObject (name : option string)
  | SourceText (s : string).

Record item := Item {
  i_url : option string;
  i_title : option string;
  i_source : option source_field;
  i_description : option string;
}.

#[export] Instance source_field_eq_dec : EqDecision source_field.
Proof. solve_decision. Defined.
#[export] Instance item_eq_dec : EqDecision item.
Proof. solve_decision. Defined.

(** The body of a reply of the headline API: a JSON object with its
    ["articles"] ([None] when missing or null), or something on which
    [r.json()] or [data.get] raises. *)
Inductive api_body :=
  | BodyInvalid
  | BodyObject (articles : option (list item)).

Record api_response := ApiResponse {
  api_status : Z;
  api_body_of : api_body;
}.

(** What the network answers.  [session_get n url] is the outcome of
    [_SESSION.get(url, timeout=...)] when it is the request number [n] of
    the process: the final response after the retries of the session, or an
    exception.  [gnews_get token topic max country] is the outcome of the
    request to [GNEWS_ENDPOINT].  [_extract_article_text] is the function
    of this name, which is made of BeautifulSoup calls: it gives the text
    and the lead image of a page, or raises. *)
Class Network := {
  session_get : nat → string → outcome http_response;
  gnews_get : string → string → Z → option string → outcome api_response;
  _extract_article_text : string → outcome (string * option string);
}.

(** [x or d] for a field that is a [str] or [None]. *)
Definition or_default (d : string) (x : option string) : string :=
  match x with
  | Some "" | None => d
  | Some s => s
  end.

(** An enriched article, the dict [_work] and the fall-back build; the
    fall-back leaves the key ["text"] out. *)
Record article `{Float} := Article {
  a_title : string;
  a_source : string;
  a_summary : string;
  a_text : option string;
  a_url : string;
  a_sentiment : gmap string sent_value;
}.

#[export] Instance outcome_ret : MRet outcome := λ A a, Ok a.
#[export] Instance outcome_bind : MBind outcome := λ A B f o,
  match o with
  | Ok a => f a
  | Raise e => Raise e
  end.

(** A loop that builds a list and stops at the first exception. *)
Fixpoint map_outcome {A B} (f : A → outcome B) (l : list A)
  : outcome (list B) :=
  match l with
  | [] => Ok []
  | x :: l' => y ← f x; ys ← map_outcome f l'; Ok (y :: ys)
  end.

Section effects.
Context `{Library} `{Network}.

(** *** Article fetch *)

(** [{"text": "", "image": None}] *)
Definition empty_result : fetch_result := FetchResult "" None.

(** [_SESSION.get(url, timeout=timeout)]: the request is logged and
    answered. *)
Definition http_get (url : string) : M http_response := λ st,
  (session_get (length (requests st)) url,
   State (_CACHE st) (requests st ++ [url])).

(** The body of the [try] of [fetchArticle]. *)
Definition download (url : string) : M fetch_result :=
  r ← http_get url;
  if decide (status_code r ≠ 200) then mret empty_result
  else
    ti ← lift (_extract_article_text (response_text r));
    mret (FetchResult ti.1 ti.2).

Definition fetchArticle (url : string) : M fetch_result :=
  c ← get_cache;
  match c !! url with
  | Some r => mret r
  | None =>
      result ← try_except (download url) (λ _, mret empty_result);
      _ ← cache_put url result;
      mret result
  end.

(** *** Headlines *)

(** [_gnews_request]; the parameter [country] is sent when it is not
    empty. *)
Definition _gnews_request (api_key category : string) (max_items : Z)
    (country : option string) : outcome (list item) :=
  let country := match country with Some "" => None | c => c end in
  r ← gnews_get api_key category max_items country;
  if decide (api_status r ≠ 200) then Ok []
  else
    match api_body_of r with
    | BodyInvalid => Raise (ValueError "Expecting value")
    | BodyObject articles => Ok (default [] articles)
    end.

Definition url_of (it : item) : string := or_default "" (i_url it).

(** The body of [for it in items]: [seen_urls] and [headlines]. *)
Definition collect_item (acc : gset string * list item) (it : item)
  : gset string * list item :=
  let url := url_of it in
  if decide (url = "" ∨ url ∈ acc.1) then acc
  else ({[url]} ∪ acc.1, acc.2 ++ [it]).

(** The body of [for cat in categories], under its [try]: a category
    whose request raises adds nothing. *)
Definition collect_category (api_key : string) (per_category : Z)
    (country : option string) (acc : gset string * list item)
    (cat : string) : gset string * list item :=
  match _gnews_request api_key cat per_category country with
  | Ok items => foldl collect_item acc items
  | Raise _ => acc
  end.

(** Step 1 of [getNews]. *)
Definition collect_headlines (api_key : string) (categories : list string)
    (per_category : Z) (country : option string) : list item :=
  (foldl (collect_category api_key per_category country) (∅, [])
         categories).2.

(** *** One task of the pool *)

(** [(item.get("source") or {}).get("name") or "Unknown"] *)
Definition source_name (it : item) : outcome string :=
  match i_source it with
  | None | Some (SourceText "") => Ok "Unknown"
  | Some (SourceObject name) => Ok (or_default "Unknown" name)
  | Some (SourceText _) =>
      Raise (AttributeError "'str' object has no attribute 'get'")
  end.

(** What [_work] builds once the article is there. *)
Definition enriched (it : item) (source : string) (art : fetch_result)
  : article :=
  let title := or_default "No Title" (i_title it) in
  let desc := or_default "" (i_description it) in
  let text := or_default (or_default title (Some desc)) (Some (fr_text art)) in
  {| a_title := title;
     a_source := source;
     a_summary := summarizeText text 3;
     a_text := Some text;
     a_url := url_of it;
     a_sentiment := analyze_sentiment (Some text) |}.

Definition _work (it : item) : M (option article) :=
  source ← lift (source_name it);
  art ← fetchArticle (url_of it);
  mret (Some (enriched it source art)).

(** *** The pool *)

(** What [fetchArticle] makes of the outcome of the request. *)
Definition decode (o : outcome http_response) : fetch_result :=
  match o with
  | Ok r =>
      if decide (status_code r ≠ 200) then empty_result
      else match _extract_article_text (response_text r) with
           | Ok ti => FetchResult ti.1 ti.2
           | Raise _ => empty_result
           end
  | Raise _ => empty_result
  end.

(** Where a task is.  The steps at which a task meets the other threads
    are the look-up in the cache, the answer of the network and the
    write to the cache. *)
Inductive task :=
  | Queued
  | Requesting (source : string) (n : nat)
  | Storing (source : string) (result : fetch_result)
  | Finished (r : outcome (option article)).

Definition task_step (it : item) (t : task) (st : state) : task * state :=
  match t with
  | Queued =>
      match source_name it with
      | Raise e => (Finished (Raise e), st)
      | Ok source =>
          match _CACHE st !! url_of it with
          | Some r => (Finished (Ok (Some (enriched it source r))), st)
          | None =>
              (Requesting source (length (requests st)),
               State (_CACHE st) (requests st ++ [url_of it]))
          end
      end
  | Requesting source n =>
      (Storing source (decode (session_get n (url_of it))), st)
  | Storing source result =>
      (Finished (Ok (Some (enriched it source result))),
       State (<[url_of it := result]> (_CACHE st)) (requests st))
  | Finished r => (Finished r, st)
  end.

Definition pool : Type := list task * state.

(** Task [i] takes one step. *)
Definition pool_step (items : list item) (p : pool) (i : nat) : pool :=
  match items !! i, p.1 !! i with
  | Some it, Some t =>
      let '(t', st') := task_step it t p.2 in (<[i := t']> p.1, st')
  | _, _ => p
  end.

(** Task [i] runs to its end. *)
Definition complete (items : list item) (p : pool) (i : nat) : pool :=
  pool_step items (pool_step items (pool_step items p i) i) i.

Definition in_flight (t : task) : bool :=
  match t with Requesting _ _ | Storing _ _ => true | _ => false end.

(** Leaving the [with] block waits for the tasks that have started. *)
Definition shutdown (items : list item) (p : pool) : pool :=
  foldl (λ p i, if from_option in_flight false (p.1 !! i)
                then complete items p i else p)
        p (seq 0 (length items)).

(** [for res in ex.map(_work, chosen): if res: out.append(res)]: the
    results are taken in the order of the items, each one awaited; the
    first exception met leaves the loop and the block. *)
Fixpoint gather (items : list item) (todo : list nat) (out : list article)
    (p : pool) : outcome (list article) * pool :=
  match todo with
  | [] => (Ok out, p)
  | i :: todo' =>
      let p := complete items p i in
      match p.1 !! i with
      | Some (Finished (Raise e)) => (Raise e, shutdown items p)
      | Some (Finished (Ok (Some a))) => gather items todo' (out ++ [a]) p
      | _ => gather items todo' out p
      end
  end.

(** The [with ThreadPoolExecutor(...)] block.  [sched] is the order in
    which the threads take their steps before the results are gathered:
    one task index per step, any list. *)
Definition pool_map (sched : list nat) (max_workers : Z)
    (items : list item) : M (list article) := λ st,
  if decide (max_workers ≤ 0)
  then (Raise (ValueError "max_workers must be greater than 0"), st)
  else
    let p := foldl (pool_step items) (replicate (length items) Queued, st) sched in
    let '(r, p') := gather items (seq 0 (length items)) [] p in
    (r, p'.2).

(** *** The end of [getNews] *)

(** The record of step 4, made from the headline alone. *)
Definition headline_only (it : item) : outcome article :=
  source ← source_name it;
  Ok {| a_title := or_default "No Title" (i_title it);
        a_source := source;
        a_summary := or_default "" (i_description it);
        a_text := None;
        a_url := url_of it;
        a_sentiment := neutral |}.

(** Step 4: [if not out and headlines: ...]. *)
Definition fall_back (out : list article) (headlines : list item)
    (fetch_full : Z) : outcome (list article) :=
  match out, headlines with
  | [], _ :: _ =>
      map_outcome headline_only (Py.slice_to (Z.max 5 fetch_full) headlines)
  | _, _ => Ok out
  end.

Definition _hash (s : string) : string := sha1_hex s.

(** The key [(d["source"], _hash(d["title"]))] and its order, that of
    tuples of strings. *)
Definition sort_key (a : article) : string * string :=
  (a_source a, _hash (a_title a)).

Definition key_lt (k1 k2 : string * string) : bool :=
  String.ltb k1.1 k2.1 || (bool_decide (k1.1 = k2.1) && String.ltb k1.2 k2.2).

Definition sort_articles (out : list article) : list article :=
  Py.sorted (λ a b, key_lt (sort_key a) (sort_key b)) out.

(** Steps 4 and 5. *)
Definition finish (out : list article) (headlines : list item)
    (fetch_full : Z) : outcome (list article) :=
  out ← fall_back out headlines fetch_full;
  Ok (sort_articles out).

Definition getNews (sched : list nat) (api_key : string)
    (categories : list string) (per_category fetch_full parallel_workers : Z)
    (country : option string) : M (list article) :=
  let headlines := collect_headlines api_key categories per_category country in
  let chosen := headlines in
  out ← pool_map sched parallel_workers chosen;
  lift (finish out headlines fetch_full).
End effects.

(** ** The endpoint of [app.py] *)

Module App.

(** The parameters of a [def]: those that can be given by position or by
    name and have no default, and the keyword-only ones with and without a
    default. *)
Record signature := Signature {
  fn_name : string;
  fn_params : list string;
  fn_kwonly_required : list string;
  fn_kwonly_optional : list string;
}.

(** [def fetch_and_email_news(recipient, name, params, *, api_key,
    per_category=8, fetch_full=12, parallel_workers=12, timezone_pref=None)] *)
Definition fetch_and_email_news_sig : signature :=
  {| fn_name := "fetch_and_email_news";
     fn_params := ["recipient"; "name"; "params"];
     fn_kwonly_required := ["api_key"];
     fn_kwonly_optional :=
       ["per_category"; "fetch_full"; "parallel_workers"; "timezone_pref"] |}.

(** A call [f(k1=v1, k2=v2, ...)]: a keyword that is no parameter is a
    [TypeError], and so is a parameter without default that is not given. *)
Definition bind_keywords {V} (sg : signature) (kwargs : list (string * V))
  : outcome (list (string * V)) :=
  let names := fn_params sg ++ fn_kwonly_required sg ++ fn_kwonly_optional sg in
  match List.find (λ kv : string * V, bool_decide (kv.1 ∉ names)) kwargs with
  | Some kv =>
      Raise (TypeError (fn_name sg +:+ "() got an unexpected keyword argument '"
                          +:+ kv.1 +:+ "'"))
  | None =>
      match filter (λ k, k ∉ kwargs.*1)
                   (fn_params sg ++ fn_kwonly_required sg) with
      | [] => Ok kwargs
      | k :: _ =>
          Raise (TypeError (fn_name sg +:+ "() missing required argument: '"
                              +:+ k +:+ "'"))
      end
  end.

Definition call {V R} (sg : signature) (body : list (string * V) → outcome R)
    (kwargs : list (string * V)) : outcome R :=
  args ← bind_keywords sg kwargs; body args.

(** [data[k]] *)
Definition subscript {V} (data : gmap string V) (k : string) : outcome V :=
  match data !! k with
  | Some v => Ok v
  | None => Raise (KeyError k)
  end.

Definition required_keys : list string :=
  ["email"; "name"; "preferences"; "api_key"; "gmail_user"; "gmail_pass"].

(** What the view returns: [jsonify({"error": msg}), status], or a text
    with status 200. *)
Inductive response :=
  | JsonError (status : Z) (error : string)
  | PlainText (status : Z) (text : string).

(** [send_news] on a request whose body is the JSON object [data].
    [body] is the body of [fetch_and_email_news], run on the arguments once
    they are bound. *)
Definition send_news {V} (body : list (string * V) → outcome bool)
    (data : gmap string V) : response :=
  if negb (forallb (λ k, bool_decide (is_Some (data !! k))) required_keys)
  then JsonError 400 "Missing required fields"
  else
    match
      kwargs ← map_outcome (λ k, v ← subscript data k; Ok (k, v)) required_keys;
      call fetch_and_email_news_sig body kwargs
    with
    | Ok _ => PlainText 200 "Email sent successfully!"
    | Raise e => JsonError 500 (exn_str e)
    end.

End App.

(** * The rest of the two files *)

(** ** The default of the categories *)

(** [DEFAULT_CATEGORIES = ("general")]: the parentheses make no tuple, the
    value is a text. *)
Definition DEFAULT_CATEGORIES : string := "general".

(** [for c in s] over a text: its characters, each a text of length
    one. *)
Definition iter_str (s : string) : list string :=
  (λ c, String c "") <$> list_ascii_of_string s.

(** ** Time zones *)

(** A [tzinfo]: a zone of the IANA data base, as [ZoneInfo(key)] builds
    it, or a fixed offset from UTC, in minutes, as [timezone(timedelta)]
    builds it; [timezone.utc] is the offset [0]. *)
Inductive tzinfo :=
  | Zone (key : string)
  | FixedOffset (minutes : Z).

(** The time zone library.  [ZoneInfo] is absent when the import of
    [zoneinfo] has failed; else it gives the zone of a key or raises.
    [timezone_error minutes] is the message of the [ValueError] that
    [timezone] raises for an offset that is not strictly between -24 and
    24 hours. *)
Class TimeZones := {
  ZoneInfo : option (string → outcome tzinfo);
  timezone_error : Z → string;
}.

Definition _ALIAS : list (string * string) := [
  ("usa", "America/New_York");
  ("us", "America/New_York");
  ("new york", "America/New_York"); ("nyc", "America/New_York");
  ("est", "America/New_York"); ("edt", "America/New_York");
  ("pst", "America/Los_Angeles"); ("pdt", "America/Los_Angeles");
  ("los angeles", "America/Los_Angeles"); ("la", "America/Los_Angeles");
  ("chicago", "America/Chicago"); ("cst", "America/Chicago");
  ("cdt", "America/Chicago");
  ("denver", "America/Denver"); ("mst", "America/Denver");
  ("mdt", "America/Denver");
  ("london", "Europe/London"); ("uk", "Europe/London");
  ("gmt", "Europe/London"); ("bst", "Europe/London");
  ("paris", "Europe/Paris"); ("france", "Europe/Paris");
  ("cet", "Europe/Paris"); ("cest", "Europe/Paris");
  ("berlin", "Europe/Berlin");
  ("singapore", "Asia/Singapore"); ("sg", "Asia/Singapore");
  ("sgt", "Asia/Singapore");
  ("india", "Asia/Kolkata"); ("ist", "Asia/Kolkata");
  ("dubai", "Asia/Dubai"); ("uae", "Asia/Dubai");
  ("tokyo", "Asia/Tokyo"); ("japan", "Asia/Tokyo"); ("jst", "Asia/Tokyo");
  ("sydney", "Australia/Sydney"); ("aest", "Australia/Sydney");
  ("aedt", "Australia/Sydney");
  ("utc", "UTC") ].

Module Re.
(** [\d] among the code points below 256. *)
Definition is_digit (c : ascii) : bool := Text.between 48 57 c.

Definition digit (c : ascii) : Z := Z.of_N (Text.code c) - 48.

(** [int(s)] for a text [s] of two digits. *)
Definition int2 (a b : ascii) : Z := 10 * digit a + digit b.

Definition newline : string := String (ascii_of_N 10) "".

(** [re.match(r"^([+-])(\d{2}):(\d{2})$", s)]: the three groups, the
    last two read by [int].  [$] is the end of the text, or the place of
    a line feed that ends it. *)
Definition match_offset (s : string) : option (ascii * Z * Z) :=
  match s with
  | String sg (String h1 (String h2 (String c (String m1 (String m2 rest))))) =>
      if (Ascii.eqb sg "+" || Ascii.eqb sg "-")
         && is_digit h1 && is_digit h2 && Ascii.eqb c ":"
         && is_digit m1 && is_digit m2
         && (String.eqb rest "" || String.eqb rest newline)
      then Some (sg, int2 h1 h2, int2 m1 m2)
      else None
  | _ => None
  end.
End Re.

Section zones.
Context `{TimeZones}.

(** [timezone(timedelta(minutes=minutes))] *)
Definition timezone (minutes : Z) : outcome tzinfo :=
  if decide (-1440 < minutes < 1440) then Ok (FixedOffset minutes)
  else Raise (ValueError (timezone_error minutes)).

Definition resolve_timezone (tz_pref : option string) : outcome tzinfo :=
  match tz_pref with
  | None | Some "" =>
      match ZoneInfo with
      | Some zone_info => zone_info "Asia/Singapore"
      | None => timezone (8 * 60)
      end
  | Some tz_pref =>
      let s := Text.lower (Text.strip tz_pref) in
      let s := default tz_pref (Py.dict_get s _ALIAS) in
      let by_offset :=
        match Re.match_offset s with
        | Some (sg, hh, mm) =>
            let sign := if Ascii.eqb sg "+" then 1 else -1 in
            timezone (sign * (60 * hh + mm))
        | None =>
            match ZoneInfo with
            | Some zone_info => zone_info "UTC"
            | None => Ok (FixedOffset 0)
            end
        end in
      match ZoneInfo with
      | Some zone_info =>
          match zone_info s with
          | Ok tz => Ok tz
          | Raise _ => by_offset
          end
      | None => by_offset
      end
  end.
End zones.

(** ** Writing a mail *)

Module Fmt.
(** A line feed and a double quote. *)
Definition nl : string := String (ascii_of_N 10) "".
Definition dq : string := String (ascii_of_N 34) "".

(** An f-string: its literal parts and its values, one after the
    other. *)
Definition fstring (parts : list string) : string := foldr String.append "" parts.

(** [s.replace(old, new)] for a pattern [old] of one character. *)
Fixpoint replace_char (old : ascii) (new : string) (s : string) : string :=
  match s with
  | "" => ""
  | String c s' =>
      if Ascii.eqb c old then new +:+ replace_char old new s'
      else String c (replace_char old new s')
  end.

(** [enumerate(l, 1)] *)
Definition enumerate1 {A} (l : list A) : list (nat * A) :=
  zip (seq 1 (length l)) l.
End Fmt.

(** A message as it is handed to the mail library: the headers set, the
    text of [set_content], and the text of [add_alternative] when there
    is one. *)
Record message := Message {
  m_from : string;
  m_to : string;
  m_subject : string;
  m_text : string;
  m_html : option string;
}.

(** What is outside the process when a mail is made and sent.
    [str_upper] is [str.upper].  [strftime_now n tz] is
    [datetime.now(tz).strftime('%Y-%m-%d %H:%M %Z')] when the clock is
    read for the [n]-th time.  [set_header name value] is the assignment
    [msg[name] = value] of [EmailMessage], which raises for a value it
    refuses.  The four others are the steps of the [n]-th SMTP session of
    the process: [smtp_connect n] is [smtplib.SMTP_SSL("smtp.gmail.com",
    465, timeout=15)], [smtp_login n] is [server.login(GMAIL_USER,
    GMAIL_PASS)], [smtp_send_message n msg] is [server.send_message(msg)]
    and [smtp_quit n] is the end of the [with] block, which sends [QUIT]
    and raises when the server answers it with a code other than 221. *)
Class Mail := {
  str_upper : string → string;
  strftime_now : nat → tzinfo → string;
  set_header : string → string → outcome ();
  smtp_connect : nat → outcome ();
  smtp_login : nat → outcome ();
  smtp_send_message : nat → message → outcome ();
  smtp_quit : nat → outcome ();
}.

(** The state of the process and what it has done to the world: the
    messages [server.send_message] has been called with, the lines
    printed, the readings of the clock, the SMTP sessions begun. *)
Record world := World {
  process : state;
  smtp_log : list message;
  stdout : list string;
  clock_reads : nat;
  smtp_sessions : nat;
}.

Definition HELPER_USER : string := "sliderhelper@gmail.com".

(** [email.utils.formataddr((name, address))] for a name without special
    characters. *)
Definition formataddr (name address : string) : string :=
  name +:+ " <" +:+ address +:+ ">".

Section mail.
Context `{Library} `{Network} `{TimeZones} `{Mail}.
Import Fmt.

(** The block [with smtplib.SMTP_SSL(...) as server:] of the [n]-th
    session: whether [server.send_message] is called, and the outcome of
    the block.  When the connection is refused nothing else happens.  Else
    the login and [send_message] follow, the second only after the first
    has returned, and the block ends the session however it is left; an
    exception of the end takes the place of one of the body. *)
Definition smtp_session (n : nat) (msg : message) : bool * outcome () :=
  match smtp_connect n with
  | Raise e => (false, Raise e)
  | Ok _ =>
      let '(called, body) :=
        match smtp_login n with
        | Raise e => (false, Raise e)
        | Ok _ => (true, smtp_send_message n msg)
        end in
      (called,
       match smtp_quit n with
       | Raise e => Raise e
       | Ok _ => body
       end)
  end.

Definition sendMailSingle (recipient name subject body : string)
    (html : option string) (w : world) : outcome bool * world :=
  let footer := fstring [nl; nl; "This email was sent by Slider Bot."] in
  let body := Text.rstrip body +:+ footer in
  match
    _ ← set_header "To" recipient;
    set_header "Subject" subject
  with
  | Raise e => (Raise e, w)
  | Ok _ =>
      let msg :=
        {| m_from := formataddr "Slider Bot" HELPER_USER;
           m_to := recipient;
           m_subject := subject;
           m_text := fstring ["Hello "; name; ","; nl; nl; body];
           m_html :=
             match html with
             | None | Some "" => None
             | Some html =>
                 Some (fstring ["                <!doctype html>"; nl;
                   "                <html><body>"; nl;
                   "                <p>Hello "; name; ",</p>"; nl;
                   "                "; html; nl;
                   "                <p style="; dq;
                   "margin-top:16px;color:#666;font-size:12px"; dq;
                   ">This email was sent by Slider Bot.</p>"; nl;
                   "                </body></html>"; nl;
                   "                "])
             end |} in
      let '(called, r) := smtp_session (smtp_sessions w) msg in
      let w' := World (process w)
                      (if called then smtp_log w ++ [msg] else smtp_log w)
                      (stdout w) (clock_reads w) (S (smtp_sessions w)) in
      match r with
      | Ok _ => (Ok true, w')
      | Raise e =>
          (Ok false,
           World (process w') (smtp_log w')
                 (stdout w' ++ [fstring ["Failed to send email to "; recipient;
                                         ": "; exn_str e]])
                 (clock_reads w') (smtp_sessions w'))
      end
  end.

(** The first lines of [fetch_and_email_news]: the country and the
    categories of [params]. *)
Definition parse_params (params : option (list string))
  : option string * list string :=
  let cats := default [] params in
  let '(country, cats) :=
    match cats with
    | c :: rest =>
        if decide (String.length c = 2%nat) then (Some (Text.lower c), rest)
        else (None, cats)
    | [] => (None, cats)
    end in
  (country,
   match cats with
   | [] => ["general"; "technology"; "business"]
   | _ => cats
   end).

(** [if s: [f(s)] else []] for a text. *)
Definition when_text (s : string) (l : list string) : list string :=
  match s with "" => [] | _ => l end.

(** The plain body for a list of articles that is not empty. *)
Definition plain_body (country : option string) (categories : list string)
    (items : list article) : string :=
  let header_bits :=
    match country with
    | Some c => when_text c [fstring ["country="; str_upper c]]
    | None => []
    end ++
    match categories with
    | [] => []
    | _ => ["topics=" +:+ Py.join ", " categories]
    end in
  let lines :=
    match header_bits with
    | [] => []
    | _ => ["Filters: " +:+ Py.join " | " header_bits; ""]
    end ++
    ('(i, a) ← enumerate1 items;
     let title := a_title a in
     let source := a_source a in
     let url := a_url a in
     let summary := Text.strip (a_summary a) in
     [fstring [pretty i; ". ["; source; "] "; title]] ++
     when_text summary [fstring ["   - "; summary]] ++
     when_text url [fstring ["   "; url]] ++
     [""]) in
  Text.strip (Py.join nl lines).

Definition esc (s : string) : string :=
  replace_char ">" "&gt;" (replace_char "<" "&lt;" (replace_char "&" "&amp;" s)).

(** The HTML body for a list of articles that is not empty. *)
Definition html_body (country : option string) (categories : list string)
    (items : list article) : string :=
  let items_html :=
    (λ '(i, a),
       let title := esc (a_title a) in
       let source := esc (a_source a) in
       let url := or_default "#" (Some (a_url a)) in
       let summary := esc (Text.strip (a_summary a)) in
       fstring ["<li style="; dq; "margin-bottom:12px"; dq; ">"; nl;
         "                        <div><strong>["; source;
         "]</strong> <a href="; dq; url; dq; " target="; dq; "_blank"; dq;
         " rel="; dq; "noopener noreferrer"; dq; ">"; title; "</a></div>"; nl;
         "                        <div style="; dq;
         "color:#444;margin-top:4px;line-height:1.4"; dq; ">"; summary;
         "</div>"; nl; "                    </li>"])
    <$> enumerate1 items in
  let filters_html :=
    match country with
    | Some c => when_text c [fstring ["<span>country=<b>"; str_upper c; "</b></span>"]]
    | None => []
    end ++
    match categories with
    | [] => []
    | _ => [fstring ["<span>topics=<b>"; Py.join ", " categories; "</b></span>"]]
    end in
  let filters :=
    match filters_html with
    | [] => ""
    | _ => fstring ["<p>"; Py.join " | " filters_html; "</p>"]
    end in
  fstring ["<!doctype html>"; nl; "<html>"; nl; "  <body style="; dq;
    "font-family:system-ui,-apple-system,Segoe UI,Roboto,Arial,sans-serif;";
    "font-size:14px;color:#111;line-height:1.5";
    dq; ">"; nl; "    "; filters; nl; "    <ol style="; dq;
    "padding-left:18px;margin:0"; dq; ">"; nl; "      "; Py.join "" items_html;
    nl; "    </ol>"; nl; "  </body>"; nl; "</html>"; nl].

Definition fetch_and_email_news (sched : list nat) (recipient name : string)
    (params : option (list string)) (api_key : string)
    (per_category fetch_full parallel_workers : Z)
    (timezone_pref : option string) (w : world) : outcome bool * world :=
  let '(country, categories) := parse_params params in
  match getNews sched api_key categories per_category fetch_full
          parallel_workers country (process w) with
  | (Raise e, st) =>
      (Raise e, World st (smtp_log w) (stdout w) (clock_reads w)
                      (smtp_sessions w))
  | (Ok items, st) =>
      let w := World st (smtp_log w) (stdout w) (clock_reads w)
                     (smtp_sessions w) in
      match resolve_timezone timezone_pref with
      | Raise e => (Raise e, w)
      | Ok tz =>
          let now := strftime_now (clock_reads w) tz in
          let w := World (process w) (smtp_log w) (stdout w)
                         (S (clock_reads w)) (smtp_sessions w) in
          let subject := fstring ["News Summary by Slider Bot at: "; now] in
          let '(plain, html) :=
            match items with
            | [] =>
                ("No news items were returned for your request.",
                 "<p>No news items were returned for your request.</p>")
            | _ =>
                (plain_body country categories items,
                 html_body country categories items)
            end in
          sendMailSingle recipient name subject plain (Some html) w
      end
  end.
End mail.

(** ** Reading a mail *)

(** What [part.get(name)] gives for a header that is there: a text, or,
    under the policy [compat32] that [email.message.Message] has by
    default, an [email.header.Header] when the header holds bytes that are
    not ASCII.  A [Header] is true and has no method [lower]. *)
Inductive header_value :=
  | HeaderText (s : string)
  | HeaderObject.

#[export] Instance header_value_eq_dec : EqDecision header_value.
Proof. solve_decision. Defined.

(** A part of a message, as [_extract_body] reads it: the results of
    [get_content_maintype()], [get_content_type()] and
    [get("Content-Disposition")], and the outcome of the three lines under
    [try], which decode the payload with the charset of the part. *)
Record mime_part := MimePart {
  content_maintype : string;
  content_type : string;
  content_disposition : option header_value;
  decoded : outcome string;
}.

(** A message: whether it is multipart, the parts [walk()] yields, the
    message itself first, and the message itself as a part. *)
Record email_message := EmailMessage {
  is_multipart : bool;
  walk : list mime_part;
  root_part : mime_part;
}.

(** The text of a part; a payload that cannot be decoded counts as
    empty. *)
Definition content_of (part : mime_part) : string :=
  match decoded part with
  | Ok content => content
  | Raise _ => ""
  end.

(** [(part.get("Content-Disposition") or "").lower()], which is not
    under the [try]. *)
Definition disposition (part : mime_part) : outcome string :=
  match content_disposition part with
  | None => Ok (Text.lower "")
  | Some (HeaderText s) => Ok (Text.lower s)
  | Some HeaderObject =>
      Raise (AttributeError "'Header' object has no attribute 'lower'")
  end.

(** The body of the loop over [msg.walk()]. *)
Definition extract_part (acc : string * string) (part : mime_part)
  : outcome (string * string) :=
  let '(text_body, html_body) := acc in
  if decide (content_maintype part = "multipart") then Ok acc
  else
    disp ← disposition part;
    if Text.contains "attachment" disp then Ok acc
    else
      let content := content_of part in
      if decide (content_type part = "text/plain" ∧ text_body = "")
      then Ok (content, html_body)
      else if decide (content_type part = "text/html" ∧ html_body = "")
      then Ok (text_body, content)
      else Ok acc.

(** A loop that an exception of its body leaves. *)
Fixpoint for_each {A B} (f : B → A → outcome B) (acc : B) (l : list A)
  : outcome B :=
  match l with
  | [] => Ok acc
  | x :: l' =>
      match f acc x with
      | Ok acc' => for_each f acc' l'
      | Raise e => Raise e
      end
  end.

Definition _extract_body (msg : email_message) : outcome (string * string) :=
  if is_multipart msg then for_each extract_part ("", "") (walk msg)
  else Ok (content_of (root_part msg), "").

Module Html.

(** Whether [s] begins with the text [p], of lower-case letters and
    signs, whatever the case of the letters of [s]; and what follows. *)
Fixpoint ci_prefix (p s : string) : option string :=
  match p with
  | "" => Some s
  | String a p' =>
      match s with
      | String c s' =>
          if Ascii.eqb (Text.lower_char c) a then ci_prefix p' s' else None
      | "" => None
      end
  end.

(** What follows the first [>] of [s]. *)
Fixpoint after_gt (s : string) : option string :=
  match s with
  | "" => None
  | String c s' => if Ascii.eqb c ">" then Some s' else after_gt s'
  end.

(** What follows the first closing tag [</name>] of [s]. *)
Fixpoint after_close (name : string) (s : string) : option string :=
  match ci_prefix ("</" +:+ name +:+ ">") s with
  | Some rest => Some rest
  | None =>
      match s with
      | "" => None
      | String _ s' => after_close name s'
      end
  end.

(** A match of [(?is)<(script|style).*?>.*?</\1>] at the start of [s]:
    the opening tag runs to the first [>], the match to the first closing
    tag of the same name behind it.  The result is what follows the
    match. *)
Definition block_at (s : string) : option string :=
  match s with
  | String c s1 =>
      if Ascii.eqb c "<" then
        match ci_prefix "script" s1 with
        | Some s2 => s3 ← after_gt s2; after_close "script" s3
        | None =>
            match ci_prefix "style" s1 with
            | Some s2 => s3 ← after_gt s2; after_close "style" s3
            | None => None
            end
        end
      else None
  | "" => None
  end.

(** [re.sub(r"(?is)<(script|style).*?>.*?</\1>", "", s)]; [skip] counts
    the characters of a match still to pass over. *)
Fixpoint block_sub (skip : nat) (s : string) : string :=
  match s with
  | "" => ""
  | String c s' =>
      match skip with
      | S k => block_sub k s'
      | O =>
          match block_at s with
          | Some rest => block_sub (String.length s' - String.length rest) s'
          | None => String c (block_sub 0 s')
          end
      end
  end.

(** [_HTML_TAG_RE.sub(rep, s)] for the pattern [<[^>]+>]; see
    [Text.tag_sub]. *)
Fixpoint tag_replace (rep : string) (pending : option string) (s : string)
  : string :=
  match s with
  | "" => default "" pending
  | String c s' =>
      match pending with
      | None =>
          if Ascii.eqb c "<" then tag_replace rep (Some (String c "")) s'
          else String c (tag_replace rep None s')
      | Some buf =>
          if Ascii.eqb c ">" then
            if (String.length buf =? 1)%nat
            then buf +:+ String c (tag_replace rep None s')
            else rep +:+ tag_replace rep None s'
          else tag_replace rep (Some (buf +:+ String c "")) s'
      end
  end.

(** [re.sub(r"\s+", " ", s)]; [in_space] says that the character before
    was white space. *)
Fixpoint squeeze (in_space : bool) (s : string) : string :=
  match s with
  | "" => ""
  | String c s' =>
      if Text.is_space c then
        if in_space then squeeze true s' else String " " (squeeze true s')
      else String c (squeeze false s')
  end.

End Html.

Definition _html_to_text (html : string) : string :=
  let html := Html.block_sub 0 html in
  let html := Html.tag_replace " " None html in
  let html := Html.squeeze false html in
  Text.strip html.

(** * The vocabulary of the properties *)

(** ** The environment of the examples *)

(** Exact rationals are one instance of the floats; it is the one the
    examples run on. *)
#[export] Instance Q_float : Float := {|
  float := Q;
  f_zero := 0%Q;
  f_pos_005 := (5 # 100)%Q;
  f_neg_005 := (- 5 # 100)%Q;
  f_add := Qplus;
  f_div := λ a b, (inject_Z (Z.of_nat a) / inject_Z (Z.of_nat b))%Q;
  f_lt := λ x y, negb (Qle_bool y x);
  f_le := Qle_bool;
  f_le_refl := λ x, proj2 (Qle_bool_iff x x) (Qle_refl x);
  f_le_trans := λ x y z Hxy Hyz,
    proj2 (Qle_bool_iff x z)
      (Qle_trans x y z (proj1 (Qle_bool_iff x y) Hxy)
                       (proj1 (Qle_bool_iff y z) Hyz));
  f_neg_lt_zero := eq_refl;
  f_zero_lt_pos := eq_refl;
  f_neg_lt_pos := eq_refl;
|}.

(** The library the examples run on: exact rationals for the floats, no
    analyzer, and a [html_unescape] that is right on the texts without
    [&], the only ones it is used on. *)
Definition unescape_plain (s : string) : string := s.

#[export] Instance example_library : @Library Q_float := {|
  html_unescape := unescape_plain;
  html_unescape_plain := λ s _, eq_refl;
  sha1_hex := λ s, s;
  _VADER_SIA := None;
|}.

Definition example_item (url title : string) (src : source_field) : item :=
  Item (Some url) (Some title) (Some src) None.

(** A network on which one page is there and the others are not. *)
#[export] Instance example_network : Network := {|
  session_get := λ n url,
    if decide (url = "http://a") then Ok (HttpResponse 200 "Red cat ran home.")
    else if decide (url = "http://b") then Ok (HttpResponse 404 "")
    else Raise (RequestException "timed out");
  gnews_get := λ token topic max country,
    if decide (topic = "general")
    then Ok (ApiResponse 200 (BodyObject (Some
           [example_item "http://a" "Cats" (SourceObject (Some "Zoo"));
            example_item "http://b" "Dogs" (SourceObject (Some "Ark"))])))
    else if decide (topic = "business")
    then Ok (ApiResponse 200 (BodyObject (Some
           [example_item "http://b" "Dogs again" (SourceObject None);
            example_item "" "No link" (SourceObject None);
            example_item "http://c" "Birds" (SourceObject (Some "Ark"))])))
    else Ok (ApiResponse 500 BodyInvalid);
  _extract_article_text := λ html, Ok (html, None);
|}.

(** A library with an analyzer, whose compound score is the length of
    the text in hundredths, minus a tenth. *)
Definition example_scores (t : string) : gmap string Q :=
  {[ "compound" := ((Z.of_nat (String.length t) # 100) - (10 # 100))%Q ]}.

Definition example_library_vader : @Library Q_float := {|
  html_unescape := unescape_plain;
  html_unescape_plain := λ s _, eq_refl;
  sha1_hex := λ s, s;
  _VADER_SIA := Some example_scores;
|}.

(** A network whose headline API gives the source of the second of three
    items as a bare string. *)
Definition bare_source_network : Network := {|
  session_get := λ n url, Ok (HttpResponse 200 "Red cat ran home.");
  gnews_get := λ token topic max country,
    Ok (ApiResponse 200 (BodyObject (Some
      [example_item "http://a" "Cats" (SourceObject (Some "Zoo"));
       example_item "http://b" "Dogs" (SourceText "BBC");
       example_item "http://c" "Birds" (SourceObject (Some "Ark"))])));
  _extract_article_text := λ html, Ok (html, None);
|}.

(** A network whose headline API gives one item, with a bare string as
    its source. *)
Definition lone_bare_source_network : Network := {|
  session_get := λ n url, Ok (HttpResponse 200 "Red cat ran home.");
  gnews_get := λ token topic max country,
    Ok (ApiResponse 200 (BodyObject (Some
      [example_item "http://b" "Dogs" (SourceText "BBC")])));
  _extract_article_text := λ html, Ok (html, None);
|}.

(** A request that has all the fields. *)
Definition complete_request : gmap string string :=
  list_to_map [("email", "ann@example.com"); ("name", "Ann");
               ("preferences", "us,general"); ("api_key", "key");
               ("gmail_user", "bot@example.com"); ("gmail_pass", "secret")].

(** ** Calls, results and orders *)

(** The state after a series of calls of [fetchArticle], one after the
    other. *)
Definition fetch_each `{Network} (urls : list string) (st : state) : state :=
  foldl (λ st u, (fetchArticle u st).2) st urls.

(** What the loop over [ex.map] makes of the results of the tasks, taken
    in the order of the items. *)
Fixpoint collect `{Float} (rs : list (outcome (option article)))
    (out : list article) : outcome (list article) :=
  match rs with
  | [] => Ok out
  | Raise e :: _ => Raise e
  | Ok (Some a) :: rs' => collect rs' (out ++ [a])
  | Ok None :: rs' => collect rs' out
  end.

(** The items the headline API gives, category after category, in the
    order of the responses; a category whose request raises gives none. *)
Definition offered `{Network} (api_key : string) (categories : list string)
    (per_category : Z) (country : option string) : list item :=
  cat ← categories;
  match _gnews_request api_key cat per_category country with
  | Ok items => items
  | Raise _ => []
  end.

(** The items that the loop over [items] appends when [seen] is the set
    of the addresses seen. *)
Fixpoint fresh (seen : gset string) (items : list item) : list item :=
  match items with
  | [] => []
  | it :: items' =>
      if decide (url_of it = "" ∨ url_of it ∈ seen) then fresh seen items'
      else it :: fresh ({[url_of it]} ∪ seen) items'
  end.


(** A sentence is scored when it has three content words or more. *)
Definition scored (s : string) : Prop := (3 ≤ length (_fast_words s))%nat.

(** The dict [scores] that [summarizeText] builds for a text. *)
Definition text_scores `{Library} (text : string) : list (string * float) :=
  sentence_scores (relative (term_counts (_fast_words text)))
                  (_fast_sentences text).

(** What holds of the keys of [scores] when the sentences [pre] have been
    gone through: they are the scored sentences of [pre], each once, in the
    order of their first places. *)
Definition keys_inv `{Library} (d : list (string * float))
    (pre : list string) : Prop :=
  NoDup (Py.dict_keys d) ∧
  (∀ k, k ∈ Py.dict_keys d ↔ k ∈ pre ∧ scored k) ∧
  (∀ a b, [a; b] `sublist_of` Py.dict_keys d →
     ∃ i j, Py.index a pre = Some i ∧ Py.index b pre = Some j ∧ (i < j)%nat).

(** [s] is a stretch of [t]. *)
Definition infix_of (s t : string) : Prop := ∃ a b, t = a +:+ s +:+ b.

(** The claim that the summary is made of at most [n] sentences of the
    text, in their order, each of them in the text as it is. *)
Definition verbatim_summary `{Library} (text : string) (n : Z) : Prop :=
  ∃ sel, summarizeText text n = Py.join " " sel ∧
         (length sel ≤ Z.to_nat n)%nat ∧
         sel `sublist_of` _fast_sentences text ∧
         Forall (λ s, Text.contains s text = true) sel.

(** ** Pools *)

Section pool_vocabulary.
Context `{Library} `{Network}.

(** The steps a task has left. *)
Definition steps_left (t : task) : nat :=
  match t with
  | Queued => 3
  | Requesting _ _ => 2
  | Storing _ _ => 1
  | Finished _ => 0
  end.

(** An invariant of the pool: [I] holds of the state of the process and
    [T] of every task. *)
Definition pool_ok (I : state → Prop) (T : item → task → Prop)
    (items : list item) (p : pool) : Prop :=
  I p.2 ∧ Forall2 T items p.1.

(** What holds of a task whatever the network does: it ends in the
    exception of its source field if there is one, and in an article if
    not. *)
Definition task_sound (it : item) (t : task) : Prop :=
  match t with
  | Queued => True
  | Requesting _ _ | Storing _ _ => ∃ s, source_name it = Ok s
  | Finished r =>
      match source_name it with
      | Raise e => r = Raise e
      | Ok _ => ∃ a, r = Ok (Some a)
      end
  end.






(** The cache has kept the entries it had, and the address of a task
    whose request is under way is not in it. *)
Definition cache_grows (items : list item) (st0 : state) (p : pool)
  : Prop :=
  _CACHE st0 ⊆ _CACHE p.2 ∧
  ∀ i it t, items !! i = Some it → p.1 !! i = Some t →
            in_flight t = true → _CACHE p.2 !! url_of it = None.

End pool_vocabulary.

(** ** Texts *)

(** [[a-z0-9']] *)
Definition is_lower_word_char (c : ascii) : bool :=
  Text.between 97 122 c || Text.between 48 57 c || (Text.code c =? 39)%N.

(** The characters of a text. *)
Definition chars (s : string) : list ascii := list_ascii_of_string s.

(** An end of a sentence, one of [.!?] with white space behind it, is
    in the text. *)
Fixpoint has_break (s : string) : bool :=
  match s with
  | String e s' =>
      match s' with
      | String w _ => (Text.is_sentence_end e && Text.is_space w) || has_break s'
      | "" => false
      end
  | "" => false
  end.

(** A tag is in the text: a [<], one character or more other than [>],
    and a [>]. *)
Definition tagged (t : string) : Prop :=
  ∃ a b c, b ≠ "" ∧ Text.has_char ">" b = false ∧
           t = a +:+ "<" +:+ b +:+ ">" +:+ c.

(** Every [<] of the text has its [>] right behind it, or none at all. *)
Fixpoint loose (t : string) : Prop :=
  match t with
  | "" => True
  | String c t' =>
      (c = "<"%char →
       Text.starts_with (Ascii.eqb ">") t' = true ∨ Text.has_char ">" t' = false) ∧
      loose t'
  end.

(** The room a list of texts takes when a separator of one character
    follows each. *)
Definition room (l : list string) : nat :=
  foldr (λ s n, S (String.length s + n)) 0%nat l.

(** A text of white space only. *)
Definition blank (s : string) : Prop := Forall (λ c, Text.is_space c = true) (chars s).

(** What [esc] makes of one character. *)
Definition esc_char (c : ascii) : string :=
  if Ascii.eqb c "&" then "&amp;"
  else if Ascii.eqb c "<" then "&lt;"
  else if Ascii.eqb c ">" then "&gt;"
  else String c "".

(** The text [±hh:mm] of a sign and four digits. *)
Definition offset_text (sg h1 h2 m1 m2 : ascii) : string :=
  String sg (String h1 (String h2 (String ":" (String m1 (String m2 ""))))).

(** The list a call has returned; the empty list when it has raised. *)
Definition returned_list {A} (r : outcome (list A)) : list A :=
  match r with Ok l => l | Raise _ => [] end.

(** Whether a call has returned. *)
Definition returned {A} (o : outcome A) : bool :=
  match o with Ok _ => true | Raise _ => false end.

Section sessions.
Context `{Mail}.

(** Whether the [n]-th session comes to [send_message]: the connection
    is made and the login is taken. *)
Definition session_reaches_send (n : nat) : bool :=
  returned (smtp_connect n) && returned (smtp_login n).

(** Whether the [n]-th session, with the message [msg], ends without an
    exception: connection, login, [send_message] and [QUIT]. *)
Definition session_succeeds (n : nat) (msg : message) : bool :=
  session_reaches_send n && returned (smtp_send_message n msg)
  && returned (smtp_quit n).
End sessions.

(** ** Runs of the pool *)

Section run_vocabulary.
Context `{Library} `{Network}.

(** The article a task has ended with, if any. *)
Definition article_of (t : task) : option article :=
  match t with
  | Finished (Ok (Some a)) => Some a
  | _ => None
  end.

(** What holds of a task of item [it] in the state [st]: a task that has
    ended has raised the exception of the source field, or made its
    article of the entry the cache holds for the address. *)
Definition task_cached (it : item) (t : task) (st : state) : Prop :=
  match t with
  | Queued => True
  | Requesting s _ | Storing s _ => source_name it = Ok s
  | Finished r =>
      match source_name it with
      | Raise e => r = Raise e
      | Ok s => ∃ art, _CACHE st !! url_of it = Some art ∧
                       r = Ok (Some (enriched it s art))
      end
  end.

Definition pool_cached (items : list item) (p : pool) : Prop :=
  ∀ i it t, items !! i = Some it → p.1 !! i = Some t → task_cached it t p.2.

(** The requests of a run: those sent since the state [st0] are for
    addresses, pairwise different, that the cache of [st0] did not hold,
    each the address of a task that has started. *)
Definition requests_fresh (items : list item) (st0 : state) (p : pool) : Prop :=
  ∃ new, requests p.2 = requests st0 ++ new ∧ NoDup new ∧
    ∀ u, u ∈ new →
      _CACHE st0 !! u = None ∧
      ∃ i it t, items !! i = Some it ∧ url_of it = u ∧
                p.1 !! i = Some t ∧ t ≠ Queued.

(** No task is under way and the state is [st0]. *)
Definition pool_idle (st0 : state) (p : pool) : Prop :=
  p.2 = st0 ∧ Forall (λ t, in_flight t = false) p.1.
End run_vocabulary.

(** ** Parts of a mail *)

(** The text of the disposition of a part, in lower case; empty when
    the part has none or has one that is no text. *)
Definition disposition_text (part : mime_part) : string :=
  match content_disposition part with
  | Some (HeaderText s) => Text.lower s
  | _ => ""
  end.

(** The parts whose text may become the body of type [ctype]: those that
    are not containers and not attachments. *)
Definition body_part (ctype : string) (part : mime_part) : Prop :=
  content_maintype part ≠ "multipart" ∧
  Text.contains "attachment" (disposition_text part) = false ∧
  content_type part = ctype.

#[export] Instance body_part_dec ctype part : Decision (body_part ctype part).
Proof. unfold body_part. apply _. Defined.

(** The parts on which the loop of [_extract_body] fails: those that are
    not containers and whose disposition is a [Header]. *)
Definition header_disposition (part : mime_part) : Prop :=
  content_maintype part ≠ "multipart" ∧
  content_disposition part = Some HeaderObject.

#[export] Instance header_disposition_dec part :
  Decision (header_disposition part).
Proof. unfold header_disposition. apply _. Defined.

(** The first text that is not empty among the parts of type [ctype], or
    the empty text. *)
Definition first_body (ctype : string) (parts : list mime_part) : string :=
  default "" (head (filter (λ c, c ≠ "")
                      (content_of <$> filter (body_part ctype) parts))).

(** ** The time zones and the mail of the examples *)

(** A time zone library that knows four zones. *)
Definition example_zones : TimeZones := {|
  ZoneInfo := Some (λ key,
    if bool_decide (key ∈ ["UTC"; "Asia/Singapore"; "Europe/London";
                           "America/New_York"])
    then Ok (Zone key)
    else Raise (KeyError ("No time zone found with key " +:+ key)));
  timezone_error := λ minutes,
    "offset must be a timedelta strictly between -timedelta(hours=24) and timedelta(hours=24)";
|}.

(** A mail library that takes every header, and a server that takes the
    first message, refuses the connection of the second session and the
    login of the third, and answers the [QUIT] of the fourth session with
    an error. *)
Fixpoint example_upper (s : string) : string :=
  match s with
  | "" => ""
  | String c s' =>
      String (if Text.between 97 122 c then ascii_of_N (Text.code c - 32) else c)
             (example_upper s')
  end.

Definition example_mail : Mail := {|
  str_upper := example_upper;
  strftime_now := λ n tz, "2025-01-01 08:00 +08";
  set_header := λ name value, Ok ();
  smtp_connect := λ n,
    if decide (n = 1%nat) then Raise (RequestException "Connection refused")
    else Ok ();
  smtp_login := λ n,
    if decide (n = 2%nat)
    then Raise (RequestException "Username and Password not accepted")
    else Ok ();
  smtp_send_message := λ n msg, Ok ();
  smtp_quit := λ n,
    if decide (n = 3%nat) then Raise (RequestException "(421, b'Try again later')")
    else Ok ();
|}.

(** * Lemmas *)

(** ** Sentiment *)

Section sentiment.
Context `{Library}.

Lemma label_of_positive comp :
  label_of comp = "positive" ↔ f_le f_pos_005 comp = true.
Proof.
  unfold label_of.
  destruct (f_le f_pos_005 comp), (f_le comp f_neg_005); intuition congruence.
Qed.

Lemma label_of_negative comp :
  label_of comp = "negative" ↔ f_le comp f_neg_005 = true.
Proof.
  unfold label_of.
  destruct (f_le f_pos_005 comp) eqn:Hp, (f_le comp f_neg_005) eqn:Hn;
    try (intuition congruence).
  pose proof (f_le_trans _ _ _ Hp Hn) as Hc.
  by rewrite f_neg_lt_pos in Hc.
Qed.

Lemma label_of_neutral comp :
  label_of comp = "neutral" ↔
  f_le f_pos_005 comp = false ∧ f_le comp f_neg_005 = false.
Proof.
  unfold label_of.
  destruct (f_le f_pos_005 comp), (f_le comp f_neg_005); intuition congruence.
Qed.

Lemma analyze_sentiment_scored t polarity_scores :
  t ≠ "" → _VADER_SIA = Some polarity_scores →
  analyze_sentiment (Some t) =
    <["label" :=
        SLabel (label_of
          (default f_zero (polarity_scores (substring 0 5000 t) !! "compound")))]>
      (SFloat <$> polarity_scores (substring 0 5000 t)).
Proof. intros Ht Hv. unfold analyze_sentiment. rewrite Hv. by destruct t. Qed.
End sentiment.

(** ** Article fetch and cache *)

Section fetch.
Context `{Network}.

Lemma download_decode url st :
  try_except (download url) (λ _, mret empty_result) st =
    (Ok (decode (session_get (length (requests st)) url)),
     State (_CACHE st) (requests st ++ [url])).
Proof.
  unfold try_except, download, http_get, decode, mbind, M_bind, lift, mret, M_ret.
  destruct (session_get _ url) as [r|e]; [|done].
  destruct (decide (status_code r ≠ 200)); [done|].
  by destruct (_extract_article_text _).
Qed.

Lemma fetchArticle_hit url st r :
  _CACHE st !! url = Some r → fetchArticle url st = (Ok r, st).
Proof.
  intros Hc. unfold fetchArticle, get_cache, mbind, M_bind. by rewrite Hc.
Qed.

Lemma fetchArticle_miss url st :
  _CACHE st !! url = None →
  fetchArticle url st =
    let r := decode (session_get (length (requests st)) url) in
    (Ok r, State (<[url := r]> (_CACHE st)) (requests st ++ [url])).
Proof.
  intros Hc. unfold fetchArticle, get_cache. unfold mbind at 1, M_bind at 1.
  rewrite Hc. unfold mbind at 1, M_bind at 1. by rewrite download_decode.
Qed.

(** Whatever the call, its result is in the cache when it returns. *)
Lemma fetchArticle_stores url st :
  ∃ r, fetchArticle url st = (Ok r, (fetchArticle url st).2) ∧
       _CACHE (fetchArticle url st).2 !! url = Some r.
Proof.
  destruct (_CACHE st !! url) as [r|] eqn:Hc.
  - exists r. by rewrite (fetchArticle_hit _ _ _ Hc).
  - rewrite (fetchArticle_miss _ _ Hc). eexists. split; [done|].
    cbn. apply lookup_insert_eq.
Qed.

(** The three steps of a task, taken with no other thread in between, do
    what [_work] does. *)
Lemma task_steps_work `{Library} (it : item) (st : state) :
  let s1 := task_step it Queued st in
  let s2 := task_step it s1.1 s1.2 in
  let s3 := task_step it s2.1 s2.2 in
  s3 = (Finished (_work it st).1, (_work it st).2).
Proof.
  cbn zeta. unfold _work, mbind, M_bind, lift. cbn [task_step].
  destruct (source_name it) as [source|e]; [|done].
  destruct (_CACHE st !! url_of it) as [r|] eqn:Hc.
  - by rewrite (fetchArticle_hit _ _ _ Hc).
  - by rewrite (fetchArticle_miss _ _ Hc).
Qed.

(** A call leaves the entries of the cache as they are. *)
Lemma fetchArticle_keeps url st u v :
  _CACHE st !! u = Some v → _CACHE (fetchArticle url st).2 !! u = Some v.
Proof.
  intros Hu. destruct (_CACHE st !! url) as [r|] eqn:Hc.
  - by rewrite (fetchArticle_hit _ _ _ Hc).
  - rewrite (fetchArticle_miss _ _ Hc). cbn.
    rewrite lookup_insert_ne; [done|]. congruence.
Qed.

Lemma fetch_each_keeps urls st u v :
  _CACHE st !! u = Some v → _CACHE (fetch_each urls st) !! u = Some v.
Proof.
  revert st. induction urls as [|x urls IH]; intros st Hu; [done|].
  cbn. apply IH. by apply fetchArticle_keeps.
Qed.

(** A request is sent for an address not in the cache only, and the
    address is in the cache when the call returns. *)
Lemma fetchArticle_requests url st :
  (∀ u, u ∈ requests st → is_Some (_CACHE st !! u)) →
  NoDup (requests st) →
  (∀ u, u ∈ requests (fetchArticle url st).2 →
        is_Some (_CACHE (fetchArticle url st).2 !! u)) ∧
  NoDup (requests (fetchArticle url st).2).
Proof.
  intros Hin Hnd. destruct (_CACHE st !! url) as [r|] eqn:Hc.
  - by rewrite (fetchArticle_hit _ _ _ Hc).
  - rewrite (fetchArticle_miss _ _ Hc). cbn. split.
    + intros u [Hu| ->%list_elem_of_singleton]%elem_of_app.
      * destruct (Hin u Hu) as [v Hv]. exists v.
        rewrite lookup_insert_ne; [done|]. congruence.
      * rewrite lookup_insert_eq. eauto.
    + apply NoDup_app. split_and!; [done| |apply NoDup_singleton].
      intros u Hu ->%list_elem_of_singleton.
      destruct (Hin _ Hu) as [v Hv]. congruence.
Qed.

Lemma fetch_each_requests urls st :
  (∀ u, u ∈ requests st → is_Some (_CACHE st !! u)) →
  NoDup (requests st) →
  NoDup (requests (fetch_each urls st)).
Proof.
  revert st. induction urls as [|x urls IH]; intros st Hin Hnd; [done|].
  cbn. destruct (fetchArticle_requests x st Hin Hnd). by apply IH.
Qed.
End fetch.

(** ** The stable sort *)

Section sorted_facts.
Context {A : Type} (lt : A → A → bool).

Lemma insert_stable_perm x l : Py.insert_stable lt x l ≡ₚ x :: l.
Proof.
  induction l as [|y l IH]; cbn; [done|].
  destruct (lt y x); [|done]. rewrite IH. apply Permutation_swap.
Qed.

Lemma sorted_perm l : Py.sorted lt l ≡ₚ l.
Proof.
  induction l as [|x l IH]; cbn; [done|].
  by rewrite insert_stable_perm, IH.
Qed.

Lemma sorted_length l : length (Py.sorted lt l) = length l.
Proof. by rewrite sorted_perm. Qed.

Lemma sorted_elem_of x l : x ∈ Py.sorted lt l ↔ x ∈ l.
Proof. by rewrite sorted_perm. Qed.

Lemma sorted_NoDup l : NoDup l → NoDup (Py.sorted lt l).
Proof. by rewrite sorted_perm. Qed.

Lemma insert_stable_sublist x l : l `sublist_of` Py.insert_stable lt x l.
Proof.
  induction l as [|y l IH]; cbn.
  - apply sublist_nil_l.
  - destruct (lt y x); [by apply sublist_skip | by apply sublist_cons].
Qed.

(** The element put in comes before all those it is not strictly
    above. *)
Lemma insert_stable_front x z l :
  z ∈ l → lt z x = false → [x; z] `sublist_of` Py.insert_stable lt x l.
Proof.
  intros Hz Hlt. induction l as [|y l IH]; cbn.
  - by apply elem_of_nil in Hz.
  - destruct (lt y x) eqn:Hy.
    + apply sublist_cons, IH.
      apply elem_of_cons in Hz as [->|Hz]; [congruence|done].
    + apply sublist_skip. by apply singleton_sublist_l.
Qed.

(** Stability: two elements stay in their order unless the second is
    strictly below the first. *)
Lemma sorted_stable a b l :
  [a; b] `sublist_of` l → lt b a = false →
  [a; b] `sublist_of` Py.sorted lt l.
Proof.
  intros Hab Hlt. induction l as [|x l IH]; cbn.
  - by apply sublist_nil_r in Hab.
  - inversion Hab as [|? ? ? Hb|? ? ? Hab']; simplify_eq.
    + apply insert_stable_front; [|done].
      apply sorted_elem_of. by apply singleton_sublist_l.
    + etrans; [by apply IH|]. apply insert_stable_sublist.
Qed.

(** The result is sorted: no element is strictly below the one before
    it. *)
Lemma insert_stable_Sorted x l :
  (∀ a b, lt a b = true → lt b a = false) →
  Sorted (λ a b, lt b a = false) l →
  Sorted (λ a b, lt b a = false) (Py.insert_stable lt x l).
Proof.
  intros Hasym. induction 1 as [|y l Hs IH Hhd]; cbn.
  - by repeat constructor.
  - destruct (lt y x) eqn:Hy.
    + constructor; [done|].
      destruct Hhd as [|z l Hz]; cbn.
      * constructor. by apply Hasym.
      * destruct (lt z x); constructor; [done|by apply Hasym].
    + by repeat constructor.
Qed.

Lemma sorted_Sorted l :
  (∀ a b, lt a b = true → lt b a = false) →
  Sorted (λ a b, lt b a = false) (Py.sorted lt l).
Proof.
  intros Hasym. induction l as [|x l IH]; cbn; [constructor|].
  by apply insert_stable_Sorted.
Qed.
End sorted_facts.

Lemma Sorted_weaken {A} (R1 R2 : relation A) (l : list A) :
  (∀ a b, R1 a b → R2 a b) → Sorted R1 l → Sorted R2 l.
Proof.
  intros HR. induction 1 as [|x l _ IH Hhd]; constructor; [done|].
  destruct Hhd; constructor. by apply HR.
Qed.

(** In a list without repetition, what comes before an element of a
    prefix is in the prefix. *)
Lemma sublist_take_closed {A} (a b : A) (l : list A) (n : nat) :
  NoDup l → [a; b] `sublist_of` l → b ∈ take n l → a ∈ take n l.
Proof.
  intros Hnd Hab Hb. rewrite <-(take_drop n l) in Hab, Hnd.
  apply sublist_app_r in Hab as (k1 & k2 & Hk & H1 & H2).
  apply NoDup_app in Hnd as (_ & Hdis & _).
  destruct k1 as [|a' k1]; simplify_eq/=.
  - exfalso. apply (Hdis b Hb).
    eapply elem_of_sublist; [|done]. set_solver.
  - eapply elem_of_sublist; [|done]. set_solver.
Qed.

(** ** The pool *)

Section pool_facts.
Context `{Library} `{Network}.

Lemma task_step_left it t st :
  (steps_left (task_step it t st).1 ≤ pred (steps_left t))%nat.
Proof.
  destruct t; cbn; try lia.
  destruct (source_name it); cbn; [|lia].
  destruct (_CACHE st !! url_of it); cbn; lia.
Qed.

(** [I] and [T] make an invariant of the pool when each step of a task
    keeps both. *)
Context (I : state → Prop) (T : item → task → Prop).
Context (step_ok : ∀ it t st, I st → T it t →
           I (task_step it t st).2 ∧ T it (task_step it t st).1).

Lemma pool_step_eq items (p : pool) i it t :
  items !! i = Some it → p.1 !! i = Some t →
  pool_step items p i =
    (<[i := (task_step it t p.2).1]> p.1, (task_step it t p.2).2).
Proof.
  intros Hi Ht. unfold pool_step. rewrite Hi, Ht.
  by destruct (task_step it t p.2).
Qed.

Lemma pool_step_ok items p i :
  pool_ok I T items p → pool_ok I T items (pool_step items p i).
Proof.
  intros [HI HT].
  destruct (items !! i) as [it|] eqn:Hi; [|by unfold pool_step; rewrite Hi].
  destruct (Forall2_lookup_l _ _ _ _ _ HT Hi) as (t & Ht & HTt).
  rewrite (pool_step_eq _ _ _ _ _ Hi Ht).
  destruct (step_ok it t p.2 HI HTt) as [HI' HT'].
  split; [done|]. cbn.
  rewrite <-(list_insert_id items i it Hi). by apply Forall2_insert.
Qed.

Lemma pool_steps_ok items p sched :
  pool_ok I T items p → pool_ok I T items (foldl (pool_step items) p sched).
Proof.
  revert p. induction sched as [|i sched IH]; intros p Hp; [done|].
  cbn. by apply IH, pool_step_ok.
Qed.

Lemma pool_step_left items (p : pool) i it t :
  items !! i = Some it → p.1 !! i = Some t →
  ∃ t', (pool_step items p i).1 !! i = Some t' ∧
        (steps_left t' ≤ pred (steps_left t))%nat.
Proof.
  intros Hi Ht. rewrite (pool_step_eq _ _ _ _ _ Hi Ht). cbn.
  eexists. split; [|apply task_step_left].
  apply list_lookup_insert_eq. by eapply lookup_lt_Some.
Qed.

Lemma complete_ok items p i :
  pool_ok I T items p → pool_ok I T items (complete items p i).
Proof. intros Hp. unfold complete. by do 3 apply pool_step_ok. Qed.

(** A task that has been awaited has finished. *)
Lemma complete_finished items p i it :
  pool_ok I T items p → items !! i = Some it →
  ∃ r, (complete items p i).1 !! i = Some (Finished r) ∧ T it (Finished r).
Proof.
  intros Hp Hi.
  destruct (Forall2_lookup_l _ _ _ _ _ (proj2 Hp) Hi) as (t0 & Ht0 & _).
  destruct (pool_step_left _ _ _ _ _ Hi Ht0) as (t1 & Ht1 & Hl1).
  destruct (pool_step_left _ _ _ _ _ Hi Ht1) as (t2 & Ht2 & Hl2).
  destruct (pool_step_left _ _ _ _ _ Hi Ht2) as (t3 & Ht3 & Hl3).
  fold (complete items p i) in Ht3.
  assert (steps_left t3 = 0%nat) as H3.
  { destruct t0, t1, t2; cbn in *; lia. }
  destruct t3 as [| | |r]; try done. exists r. split; [done|].
  destruct (complete_ok items p i Hp) as [_ HT].
  destruct (Forall2_lookup_l _ _ _ _ _ HT Hi) as (t & Ht & HTt).
  by simplify_eq.
Qed.

Lemma shutdown_ok items p :
  pool_ok I T items p → pool_ok I T items (shutdown items p).
Proof.
  unfold shutdown. generalize (seq 0 (length items)). intros todo.
  revert p. induction todo as [|i todo IH]; intros p Hp; [done|].
  cbn. apply IH. destruct (from_option in_flight false (p.1 !! i)); [|done].
  by apply complete_ok.
Qed.

Lemma gather_collect items k out p :
  pool_ok I T items p →
  ∃ rs, Forall2 (λ it r, T it (Finished r)) (drop k items) rs ∧
        (gather items (seq k (length items - k)) out p).1 = collect rs out ∧
        pool_ok I T items (gather items (seq k (length items - k)) out p).2.
Proof.
  remember (length items - k)%nat as n eqn:Hn.
  revert k out p Hn. induction n as [|n IH]; intros k out p Hn Hp.
  - exists []. split; [|done]. rewrite drop_ge by lia. constructor.
  - destruct (lookup_lt_is_Some_2 items k ltac:(lia)) as [it Hi].
    destruct (complete_finished items p k it Hp Hi) as (r & Hr & HT).
    pose proof (complete_ok items p k Hp) as Hp'.
    rewrite (drop_S _ _ _ Hi). cbn [seq gather]. rewrite Hr.
    destruct r as [[a|]|e].
    + destruct (IH (S k) (out ++ [a]) (complete items p k) ltac:(lia) Hp')
        as (rs & Hrs & Hg & Hok).
      exists (Ok (Some a) :: rs). split; [by constructor|done].
    + destruct (IH (S k) out (complete items p k) ltac:(lia) Hp')
        as (rs & Hrs & Hg & Hok).
      exists (Ok None :: rs). split; [by constructor|done].
    + destruct (IH (S k) out (complete items p k) ltac:(lia) Hp')
        as (rs & Hrs & _).
      exists (Raise e :: rs). split; [by constructor|].
      split; [done|]. by apply shutdown_ok.
Qed.

(** From a state and tasks that satisfy the invariant, the pool returns
    what [collect] makes of results that satisfy it, and leaves a state
    that satisfies it. *)
Lemma pool_map_collect sched max_workers items st :
  0 < max_workers → I st → (∀ it, T it Queued) →
  ∃ rs, Forall2 (λ it r, T it (Finished r)) items rs ∧
        (pool_map sched max_workers items st).1 = collect rs [] ∧
        I (pool_map sched max_workers items st).2.
Proof.
  intros Hw HI HT. unfold pool_map. rewrite decide_False by lia.
  set (p := foldl _ _ sched).
  assert (pool_ok I T items p) as Hp.
  { apply pool_steps_ok. split; [done|]. cbn.
    apply Forall2_replicate_r; [done|]. apply Forall_forall. intros it _. apply HT. }
  destruct (gather_collect items 0 [] p Hp) as (rs & Hrs & Hg & Hok).
  rewrite drop_0, Nat.sub_0_r in *.
  exists rs. split; [done|]. rewrite <-Hg.
  destruct (gather _ _ _ _) as [r p']. split; [done|]. apply Hok.
Qed.
End pool_facts.

(** ** A task that raises *)

Section raising.
Context `{Library} `{Network}.

Lemma task_step_sound it t st :
  True → task_sound it t →
  True ∧ task_sound it (task_step it t st).1.
Proof.
  intros _ Ht. split; [done|]. destruct t as [|s n|s r|r]; cbn in *.
  - destruct (source_name it) as [s|e] eqn:Hs; cbn; [|by rewrite Hs].
    destruct (_CACHE st !! url_of it); cbn; rewrite ?Hs; eauto.
  - done.
  - destruct Ht as [s' ->]. eauto.
  - done.
Qed.

Lemma collect_raise rs1 e rs2 out :
  Forall (λ r, ∃ a, r = Ok (Some a)) rs1 →
  collect (rs1 ++ Raise e :: rs2) out = Raise e.
Proof.
  intros Hrs. revert out. induction Hrs as [|r rs1 [a ->] _ IH]; intros out.
  - done.
  - cbn. apply IH.
Qed.

(** The first task, in the order of the items, whose source field
    raises makes the pool raise, whatever the schedule. *)
Lemma pool_map_raises sched max_workers l1 it l2 e st :
  0 < max_workers →
  Forall (λ x, ∃ s, source_name x = Ok s) l1 →
  source_name it = Raise e →
  (pool_map sched max_workers (l1 ++ it :: l2) st).1 = Raise e.
Proof.
  intros Hw Hl1 He.
  destruct (pool_map_collect (λ _, True) task_sound task_step_sound
              sched max_workers (l1 ++ it :: l2) st Hw Logic.I (λ _, Logic.I))
    as (rs & Hrs & -> & _).
  apply Forall2_app_inv_l in Hrs as (rs1 & rs' & Hrs1 & Hrs' & ->).
  apply Forall2_cons_inv_l in Hrs' as (r & rs2 & Hr & _ & ->).
  cbn in Hr. rewrite He in Hr. subst r. apply collect_raise.
  clear -Hl1 Hrs1. induction Hrs1 as [|x r l1 rs1 Hr _ IH]; [constructor|].
  apply Forall_cons in Hl1 as [[s Hs] Hl1]. constructor; [|by apply IH].
  cbn in Hr. by rewrite Hs in Hr.
Qed.

(** When the pool returns a list, it holds one article for each item:
    the list is empty only when there is no item. *)
Lemma pool_map_length sched max_workers items st out :
  0 < max_workers →
  (pool_map sched max_workers items st).1 = Ok out →
  length out = length items.
Proof.
  intros Hw.
  destruct (pool_map_collect (λ _, True) task_sound task_step_sound
              sched max_workers items st Hw Logic.I (λ _, Logic.I))
    as (rs & Hrs & -> & _).
  assert (∀ out0, collect rs out0 = Ok out →
            length out = (length out0 + length items)%nat) as Hgen.
  { clear Hw. revert out. induction Hrs as [|it r items rs Hr _ IH];
      intros out out0; cbn.
    - intros [= <-]. lia.
    - cbn in Hr. destruct (source_name it) as [s|e].
      + destruct Hr as [a ->]. intros Hc%IH. rewrite Hc, length_app. cbn. lia.
      + by rewrite Hr. }
  intros Hc. by rewrite (Hgen [] Hc).
Qed.

Lemma getNews_raises sched api_key categories per_category fetch_full
    parallel_workers country l1 it l2 e st :
  0 < parallel_workers →
  collect_headlines api_key categories per_category country = l1 ++ it :: l2 →
  Forall (λ x, ∃ s, source_name x = Ok s) l1 →
  source_name it = Raise e →
  (getNews sched api_key categories per_category fetch_full parallel_workers
     country st).1 = Raise e.
Proof.
  intros Hw Hh Hl1 He. unfold getNews. rewrite Hh.
  pose proof (pool_map_raises sched parallel_workers l1 it l2 e st Hw Hl1 He) as Hp.
  unfold mbind, M_bind. by destruct (pool_map _ _ _ st) as [[out|e'] st'];
    cbn in Hp; simplify_eq.
Qed.
End raising.

(** ** The endpoint *)

Section endpoint.
Context {V : Type} (body : list (string * V) → outcome bool).

Lemma send_news_missing (data : gmap string V) k :
  k ∈ App.required_keys → data !! k = None →
  App.send_news body data = App.JsonError 400 "Missing required fields".
Proof.
  intros Hk Hd. unfold App.send_news.
  destruct (forallb _ _) eqn:Hall; [|done].
  rewrite forallb_forall in Hall.
  specialize (Hall k (proj1 (list_elem_of_In _ _) Hk)).
  apply bool_decide_eq_true in Hall as [v Hv]. congruence.
Qed.

(** The call names [email], which is no parameter of
    [fetch_and_email_news]: the arguments are never bound and the body
    never runs. *)
Lemma send_news_all_fields (data : gmap string V) :
  (∀ k, k ∈ App.required_keys → is_Some (data !! k)) →
  App.send_news body data =
    App.JsonError 500
      "fetch_and_email_news() got an unexpected keyword argument 'email'".
Proof.
  intros Hall. unfold App.send_news.
  assert (forallb (λ k, bool_decide (is_Some (data !! k))) App.required_keys
          = true) as ->.
  { apply forallb_forall. intros k Hk%list_elem_of_In.
    by apply bool_decide_eq_true, Hall. }
  cbn [negb]. unfold App.required_keys in *. cbn [map_outcome].
  unfold App.subscript.
  destruct (Hall "email" ltac:(set_solver)) as [v1 ->].
  destruct (Hall "name" ltac:(set_solver)) as [v2 ->].
  destruct (Hall "preferences" ltac:(set_solver)) as [v3 ->].
  destruct (Hall "api_key" ltac:(set_solver)) as [v4 ->].
  destruct (Hall "gmail_user" ltac:(set_solver)) as [v5 ->].
  destruct (Hall "gmail_pass" ltac:(set_solver)) as [v6 ->].
  reflexivity.
Qed.
End endpoint.


(** ** Headlines *)

Section headlines.
Context `{Network}.

Lemma collect_item_fresh acc items :
  (foldl collect_item acc items).2 = acc.2 ++ fresh acc.1 items.
Proof.
  revert acc. induction items as [|it items IH]; intros [seen hs]; cbn.
  - by rewrite app_nil_r.
  - rewrite IH. unfold collect_item. cbn.
    destruct (decide _); cbn; [done|]. by rewrite <-app_assoc.
Qed.

Lemma collect_item_seen acc items :
  acc.1 = list_to_set (url_of <$> acc.2) →
  (foldl collect_item acc items).1 =
    list_to_set (url_of <$> (foldl collect_item acc items).2).
Proof.
  revert acc. induction items as [|it items IH]; intros [seen hs] Hacc; [done|].
  cbn. apply IH. unfold collect_item. cbn in *.
  destruct (decide _); cbn; [done|].
  rewrite fmap_app, list_to_set_app_L, Hacc. cbn. set_solver.
Qed.

Lemma fresh_app seen l1 l2 :
  fresh seen (l1 ++ l2) =
    fresh seen l1 ++ fresh (list_to_set (url_of <$> fresh seen l1) ∪ seen) l2.
Proof.
  revert seen. induction l1 as [|it l1 IH]; intros seen; cbn [fresh app].
  - by rewrite fmap_nil, list_to_set_nil, (left_id_L ∅ (∪)).
  - destruct (decide _); [apply IH|].
    rewrite IH, fmap_cons, list_to_set_cons. cbn [app]. do 3 f_equal.
    set_solver.
Qed.

(** Step 1 of [getNews] is one pass over the items offered. *)
Lemma collect_headlines_fresh api_key categories per_category country :
  collect_headlines api_key categories per_category country =
    fresh ∅ (offered api_key categories per_category country).
Proof.
  unfold collect_headlines, offered.
  enough (∀ acc, acc.1 = list_to_set (url_of <$> acc.2) →
    (foldl (collect_category api_key per_category country) acc categories).2 =
      acc.2 ++ fresh acc.1
        (cat ← categories;
         match _gnews_request api_key cat per_category country with
         | Ok items => items
         | Raise _ => []
         end)) as Hgen.
  { by rewrite (Hgen (∅, [])). }
  induction categories as [|cat cats IH]; intros acc Hacc; cbn.
  - by rewrite app_nil_r.
  - unfold collect_category at 2.
    destruct (_gnews_request api_key cat per_category country) as [items|e];
      cbn; [|by apply IH].
    rewrite IH by by apply collect_item_seen.
    rewrite fresh_app, collect_item_fresh, <-app_assoc. do 2 f_equal.
    rewrite (collect_item_seen acc items Hacc), collect_item_fresh.
    rewrite fmap_app, list_to_set_app_L, Hacc. f_equal. set_solver.
Qed.


Lemma fresh_url seen items h :
  h ∈ fresh seen items → url_of h ≠ "" ∧ url_of h ∉ seen.
Proof.
  revert seen. induction items as [|it items IH]; intros seen; cbn.
  - by intros ?%elem_of_nil.
  - destruct (decide _) as [|Hn]; [apply IH|].
    intros [->|Hh]%elem_of_cons; [tauto|].
    apply IH in Hh. set_solver.
Qed.

Lemma fresh_NoDup seen items : NoDup (url_of <$> fresh seen items).
Proof.
  revert seen. induction items as [|it items IH]; intros seen; cbn.
  - constructor.
  - destruct (decide _); [apply IH|]. cbn. constructor; [|apply IH].
    intros (h & Hu & Hh)%list_elem_of_fmap. apply fresh_url in Hh. set_solver.
Qed.


End headlines.

(** ** The fall-back *)

Section fall_back_facts.
Context `{Library}.

Lemma map_outcome_ok {A B} (f : A → outcome B) (l : list A) :
  Forall (λ x, ∃ y, f x = Ok y) l →
  ∃ ys, map_outcome f l = Ok ys ∧ Forall2 (λ x y, f x = Ok y) l ys.
Proof.
  induction 1 as [|x l [y Hy] _ (ys & Hys & IH)]; cbn.
  - exists []. by split; [|constructor].
  - exists (y :: ys). rewrite Hy. cbn. rewrite Hys. cbn.
    by split; [|constructor].
Qed.

Lemma map_outcome_length {A B} (f : A → outcome B) (l : list A) ys :
  map_outcome f l = Ok ys → length ys = length l.
Proof.
  revert ys. induction l as [|x l IH]; intros ys; cbn.
  - by intros [= <-].
  - destruct (f x) as [y|e]; cbn; [|done].
    destruct (map_outcome f l) as [ys'|e]; cbn; [|done].
    intros [= <-]. cbn. f_equal. by apply IH.
Qed.

Lemma sort_articles_perm out : sort_articles out ≡ₚ out.
Proof. apply sorted_perm. Qed.

Lemma slice_to_nonneg {A} (n : Z) (l : list A) :
  0 ≤ n → Py.slice_to n l = take (Z.to_nat n) l.
Proof. intros Hn. unfold Py.slice_to. by rewrite (proj2 (Z.leb_le 0 n) Hn). Qed.

Lemma fall_back_nonempty out0 headlines fetch_full out :
  headlines ≠ [] → fall_back out0 headlines fetch_full = Ok out → out ≠ [].
Proof.
  intros Hh. unfold fall_back.
  destruct out0 as [|a out0], headlines as [|it hs]; try done.
  - intros Hm%map_outcome_length. rewrite slice_to_nonneg in Hm by lia.
    rewrite length_take in Hm. cbn [length] in Hm.
    destruct out; [cbn [length] in Hm; lia|done].
  - by intros [= <-].
Qed.

(** Steps 4 and 5 give a non-empty list when there are headlines. *)
Lemma finish_nonempty out0 headlines fetch_full out :
  headlines ≠ [] → finish out0 headlines fetch_full = Ok out → out ≠ [].
Proof.
  intros Hh. unfold finish.
  destruct (fall_back out0 headlines fetch_full) as [l|e] eqn:Hf; [|done].
  apply fall_back_nonempty in Hf; [|done]. cbn. intros [= <-] Hnil.
  apply (f_equal length) in Hnil. rewrite sort_articles_perm in Hnil.
  by destruct l.
Qed.
End fall_back_facts.

(** ** The order of the result *)

Section key_order.







End key_order.

(** ** Schedules *)

Section determinism.
Context `{Library} `{Network}.

(** The network gives one answer for an address, whenever it is asked. *)
Context (Hstable : ∀ n m url, session_get n url = session_get m url).

Context (base : gmap string fetch_result).



Lemma getNews_eq sched api_key categories per_category fetch_full
    parallel_workers country st :
  getNews sched api_key categories per_category fetch_full parallel_workers
    country st =
  let headlines := collect_headlines api_key categories per_category country in
  match pool_map sched parallel_workers headlines st with
  | (Ok out, st') => (finish out headlines fetch_full, st')
  | (Raise e, st') => (Raise e, st')
  end.
Proof. reflexivity. Qed.

End determinism.


(** ** Dicts and positions *)

Section dict_facts.
Context {V : Type}.
Implicit Types (d : list (string * V)) (k : string) (v : V).

Lemma dict_keys_set k v d :
  Py.dict_keys (Py.dict_set k v d) =
    if decide (k ∈ Py.dict_keys d) then Py.dict_keys d else Py.dict_keys d ++ [k].
Proof.
  unfold Py.dict_keys. induction d as [|[k' v'] d IH]; cbn; [done|].
  destruct (decide (k = k')) as [->|Hne]; cbn.
  - rewrite decide_True; [done|left].
  - rewrite IH. destruct (decide (k ∈ d.*1)) as [Hin|Hnin].
    + rewrite decide_True; [done|by right].
    + rewrite decide_False; [done|]. by intros [?|?]%elem_of_cons.
Qed.

Lemma dict_get_keys k d : is_Some (Py.dict_get k d) ↔ k ∈ Py.dict_keys d.
Proof.
  unfold Py.dict_keys. induction d as [|[k' v'] d IH]; cbn.
  - split; [by intros [? ?]|by intros ?%elem_of_nil].
  - destruct (decide (k = k')) as [->|Hne].
    + split; [left|eauto].
    + rewrite IH. split; [by right|]. by intros [?|?]%elem_of_cons.
Qed.
End dict_facts.

Section index_facts.
Context {A : Type} `{EqDecision A}.
Implicit Types (x y : A) (l : list A).

Lemma index_lookup x l i : Py.index x l = Some i → l !! i = Some x.
Proof.
  revert i. induction l as [|y l IH]; intros i; cbn; [done|].
  destruct (decide (x = y)) as [->|Hne]; [by intros [= <-]|].
  destruct (Py.index x l) as [j|]; cbn; [|done].
  intros [= <-]. by apply IH.
Qed.

(** The position found is the first one. *)
Lemma index_first x l i j : Py.index x l = Some i → l !! j = Some x → (i ≤ j)%nat.
Proof.
  revert i j. induction l as [|y l IH]; intros i j; cbn; [done|].
  destruct (decide (x = y)) as [->|Hne]; [intros [= <-]; lia|].
  destruct (Py.index x l) as [i'|]; cbn; [|done].
  intros [= <-]. destruct j as [|j]; cbn; [congruence|].
  intros Hj. specialize (IH i' j eq_refl Hj). lia.
Qed.

Lemma index_elem_of x l : x ∈ l → is_Some (Py.index x l).
Proof.
  induction 1 as [|x y l _ IH]; cbn.
  - rewrite decide_True by done. eauto.
  - destruct (decide (x = y)); [eauto|]. destruct IH as [i ->]. cbn. eauto.
Qed.

Lemma index_cons_ne x y l : x ≠ y → Py.index x (y :: l) = S <$> Py.index x l.
Proof. intros Hne. cbn. by rewrite decide_False. Qed.

Lemma index_cons_eq x l : Py.index x (x :: l) = Some 0%nat.
Proof. cbn. by rewrite decide_True. Qed.

Lemma index_app_l x l1 l2 : x ∈ l1 → Py.index x (l1 ++ l2) = Py.index x l1.
Proof.
  induction l1 as [|y l1 IH]; cbn; [by intros ?%elem_of_nil|].
  destruct (decide (x = y)); [done|].
  intros [?|Hin]%elem_of_cons; [done|]. by rewrite IH.
Qed.

Lemma index_app_r x l1 l2 :
  x ∉ l1 → Py.index x (l1 ++ l2) = (λ i, length l1 + i)%nat <$> Py.index x l2.
Proof.
  induction l1 as [|y l1 IH]; cbn.
  - intros _. by destruct (Py.index x l2).
  - intros [Hne Hnin]%not_elem_of_cons. rewrite decide_False by done.
    rewrite IH by done. by destruct (Py.index x l2).
Qed.

(** What comes before an element of a prefix is in the prefix. *)
Lemma take_index_closed l n x y i j :
  Py.index x l = Some i → Py.index y l = Some j → (i < j)%nat →
  y ∈ take n l → x ∈ take n l.
Proof.
  intros Hx Hy Hij [k Hk]%list_elem_of_lookup_1.
  apply lookup_take_Some in Hk as [Hk Hkn].
  pose proof (index_first _ _ _ _ Hy Hk).
  apply (list_elem_of_lookup_2 _ i), lookup_take_Some.
  split; [by apply index_lookup|lia].
Qed.

Lemma pair_sublist x y l :
  x ∈ l → y ∈ l → x ≠ y → [x; y] `sublist_of` l ∨ [y; x] `sublist_of` l.
Proof.
  intros (l1 & l2 & ->)%list_elem_of_split Hy Hne.
  apply elem_of_app in Hy as [Hy|Hy].
  - right. apply (sublist_app [y] l1 [x] (x :: l2)).
    + by apply singleton_sublist_l.
    + apply sublist_skip, sublist_nil_l.
  - left. apply sublist_inserts_l, sublist_skip, singleton_sublist_l.
    by apply elem_of_cons in Hy as [?|?].
Qed.

Lemma StronglySorted_weaken_elem (R1 R2 : relation A) l :
  (∀ a b, a ∈ l → b ∈ l → R1 a b → R2 a b) →
  StronglySorted R1 l → StronglySorted R2 l.
Proof.
  intros HR Hs. induction Hs as [|x l Hs IH Hall]; constructor.
  - apply IH. intros a b Ha Hb. apply HR; by right.
  - apply Forall_forall. intros b Hb.
    apply HR; [left|by right|]. by eapply Forall_forall in Hall.
Qed.

(** A list without repetition of elements of [l], sorted by their first
    position in [l], is a sublist of [l]. *)
Lemma index_sorted_sublist (k l : list A) :
  NoDup k → (∀ x, x ∈ k → x ∈ l) →
  StronglySorted (λ a b, default 0%nat (Py.index a l)
                         ≤ default 0%nat (Py.index b l))%nat k →
  k `sublist_of` l.
Proof.
  revert k. induction l as [|y l IH]; intros k Hnd Hin Hs.
  - destruct k as [|x k]; [done|].
    specialize (Hin x ltac:(left)). by apply elem_of_nil in Hin.
  - assert (∀ k', NoDup k' → (∀ x, x ∈ k' → x ∈ y :: l) → y ∉ k' →
              StronglySorted (λ a b, default 0%nat (Py.index a (y :: l))
                                     ≤ default 0%nat (Py.index b (y :: l)))%nat k' →
              k' `sublist_of` l) as Hrest.
    { intros k' Hnd' Hin' Hy Hs'. apply IH; [done| |].
      - intros x Hx. specialize (Hin' x Hx).
        apply elem_of_cons in Hin' as [->|?]; done.
      - eapply StronglySorted_weaken_elem; [|done]. cbn beta.
        intros a b Ha Hb. rewrite !index_cons_ne by (intros ->; done).
        assert (a ∈ l) as [i ->]%index_elem_of.
        { specialize (Hin' a Ha). apply elem_of_cons in Hin' as [->|?]; done. }
        assert (b ∈ l) as [j ->]%index_elem_of.
        { specialize (Hin' b Hb). apply elem_of_cons in Hin' as [->|?]; done. }
        cbn. lia. }
    destruct k as [|x k]; [apply sublist_nil_l|].
    apply NoDup_cons in Hnd as [Hx Hnd].
    apply StronglySorted_inv in Hs as [Hs Hall].
    destruct (decide (x = y)) as [->|Hne].
    + apply sublist_skip, Hrest; [done| |done|done].
      intros z Hz. apply Hin. by right.
    + apply sublist_cons, Hrest; [by constructor|done| |by constructor].
      intros [?|Hy]%elem_of_cons; [done|].
      eapply Forall_forall in Hall; [|done]. cbn beta in Hall.
      rewrite index_cons_ne, index_cons_eq in Hall by done.
      assert (x ∈ l) as [i Hi]%index_elem_of.
      { specialize (Hin x ltac:(left)). apply elem_of_cons in Hin as [?|?]; done. }
      rewrite Hi in Hall. cbn in Hall. lia.
Qed.
End index_facts.

(** ** The summarizer *)

Section summarizer.
Context `{Library}.

Lemma keys_inv_step (d : list (string * float)) pre s (v : float) :
  keys_inv d pre →
  keys_inv (if (length (_fast_words s) <? 3)%nat then d else Py.dict_set s v d)
           (pre ++ [s]).
Proof.
  intros (Hnd & Hmem & Hord).
  assert (∀ a b, [a; b] `sublist_of` Py.dict_keys d →
     ∃ i j, Py.index a (pre ++ [s]) = Some i ∧
            Py.index b (pre ++ [s]) = Some j ∧ (i < j)%nat) as Hord'.
  { intros a b Hab. destruct (Hord a b Hab) as (i & j & Hi & Hj & Hij).
    exists i, j. rewrite !index_app_l; [done| |].
    - apply Hmem. eapply elem_of_sublist; [|done]. set_solver.
    - apply Hmem. eapply elem_of_sublist; [|done]. set_solver. }
  unfold keys_inv. destruct (length (_fast_words s) <? 3)%nat eqn:Hlen.
  - apply Nat.ltb_lt in Hlen. split_and!; [done| |done].
    intros k. rewrite Hmem, elem_of_app, list_elem_of_singleton.
    split; [tauto|]. intros [[?| ->] Hsc]; [done|]. unfold scored in Hsc. lia.
  - apply Nat.ltb_ge in Hlen. rewrite dict_keys_set.
    destruct (decide (s ∈ Py.dict_keys d)) as [Hs|Hs].
    + split_and!; [done| |done].
      intros k. rewrite elem_of_app, list_elem_of_singleton. split.
      * intros Hk. apply Hmem in Hk. tauto.
      * intros [[?| ->] Hsc]; [|done]. by apply Hmem.
    + assert (s ∉ pre) as Hpre by (intros ?; apply Hs, Hmem; done).
      split_and!.
      * apply NoDup_app. split_and!; [done| |apply NoDup_singleton].
        by intros k Hk ->%list_elem_of_singleton.
      * intros k. rewrite !elem_of_app, !list_elem_of_singleton, Hmem.
        split; [|tauto]. intros [?| ->]; [tauto|]. by split; [right|].
      * intros a b (k1 & k2 & Hk & H1 & H2)%sublist_app_r.
        apply sublist_cons_r in H2 as [->%sublist_nil_r|(k2' & -> & ->%sublist_nil_r)].
        { rewrite app_nil_r in Hk. subst k1. by apply Hord'. }
        destruct k1 as [|a' [|b' k1]]; cbn in Hk; [done| |].
        2: { injection Hk as _ _ Hk. by destruct k1. }
        injection Hk as <- ->.
        assert (a ∈ pre) as Ha.
        { apply Hmem. by apply singleton_sublist_l. }
        destruct (index_elem_of a pre Ha) as [i Hi].
        exists i, (length pre + 0)%nat. rewrite index_app_l, Hi by done.
        rewrite index_app_r, index_cons_eq by done.
        split_and!; [done..|].
        apply index_lookup, lookup_lt_Some in Hi. lia.
Qed.

Lemma sentence_scores_keys freq sentences :
  keys_inv (sentence_scores freq sentences) sentences.
Proof.
  unfold sentence_scores.
  enough (∀ post pre d, keys_inv d pre →
    keys_inv (foldl (λ scores s,
                let sw := _fast_words s in
                if (length sw <? 3)%nat then scores
                else Py.dict_set s
                       (f_sum ((λ w, default f_zero (Py.dict_get w freq)) <$> sw))
                       scores) d post) (pre ++ post)) as Hgen.
  { apply (Hgen sentences [] []). split_and!; [constructor| |].
    - intros k. split; [by intros ?%elem_of_nil|by intros [?%elem_of_nil _]].
    - by intros a b ?%sublist_nil_r. }
  induction post as [|s post IH]; intros pre d Hinv.
  - by rewrite app_nil_r.
  - cbn [foldl]. rewrite (cons_middle s pre post), app_assoc.
    apply IH. cbn zeta. by apply keys_inv_step.
Qed.

(** Two scored sentences are keys of [scores] in the order of their first
    places. *)
Lemma keys_in_order freq sentences a b i j :
  a ∈ Py.dict_keys (sentence_scores freq sentences) →
  b ∈ Py.dict_keys (sentence_scores freq sentences) →
  Py.index a sentences = Some i → Py.index b sentences = Some j → (i < j)%nat →
  [a; b] `sublist_of` Py.dict_keys (sentence_scores freq sentences).
Proof.
  intros Ha Hb Hi Hj Hij.
  destruct (sentence_scores_keys freq sentences) as (_ & _ & Hord).
  destruct (pair_sublist a b _ Ha Hb) as [?|Hba]; [|done|].
  - intros ->. rewrite Hi in Hj. injection Hj. lia.
  - destruct (Hord b a Hba) as (j' & i' & Hj' & Hi' & Hlt). simplify_eq. lia.
Qed.

Lemma by_score_perm scores : by_score scores ≡ₚ Py.dict_keys scores.
Proof. apply sorted_perm. Qed.

Lemma by_position_perm sentences l : by_position sentences l ≡ₚ l.
Proof. apply sorted_perm. Qed.

Lemma by_position_sublist sentences l :
  NoDup l → (∀ x, x ∈ l → x ∈ sentences) →
  by_position sentences l `sublist_of` sentences.
Proof.
  intros Hnd Hin. apply index_sorted_sublist.
  - by rewrite by_position_perm.
  - intros x. rewrite by_position_perm. apply Hin.
  - apply Sorted_StronglySorted; [intros a b c; cbn; lia|].
    eapply Sorted_weaken; [|apply sorted_Sorted].
    + intros a b Hlt. cbn beta in Hlt. apply Nat.ltb_ge in Hlt. exact Hlt.
    + intros a b Hlt%Nat.ltb_lt. apply Nat.ltb_ge. lia.
Qed.

Lemma slice_to_take {A} (n : Z) (l : list A) : ∃ m, Py.slice_to n l = take m l.
Proof. unfold Py.slice_to. destruct (0 <=? n); eauto. Qed.

(** The three ways [summarizeText] ends. *)
Lemma summary_cases text n :
  let sentences := _fast_sentences text in
  summary_sentences text n = [] ∨
  summary_sentences text n = Py.slice_to n sentences ∨
  (_fast_words text ≠ [] ∧ text_scores text ≠ [] ∧
   summary_sentences text n =
     by_position sentences (Py.slice_to n (by_score (text_scores text)))).
Proof.
  cbn zeta. unfold summary_sentences, text_scores.
  destruct text as [|c text]; [by left|].
  destruct (_fast_sentences _) as [|s sentences]; [by left|].
  destruct (_fast_words _) as [|w words]; [by right; left|].
  destruct (sentence_scores _ _) as [|kv scores]; [by right; left|].
  right; right. done.
Qed.

Lemma sentence_scores_nil freq : sentence_scores freq [] = [].
Proof. done. Qed.

(** With a content word in the text and a scored sentence, the summary is
    made of the best sentences. *)
Lemma summary_main text n :
  _fast_words text ≠ [] → text_scores text ≠ [] →
  summary_sentences text n =
    by_position (_fast_sentences text)
      (Py.slice_to n (by_score (text_scores text))).
Proof.
  unfold summary_sentences, text_scores. intros Hw Hs.
  destruct text as [|c text]; [done|].
  destruct (_fast_sentences _) as [|s sentences]; [done|].
  destruct (_fast_words _) as [|w words]; [done|].
  by destruct (sentence_scores _ _) as [|kv scores].
Qed.

Lemma by_score_NoDup text : NoDup (by_score (text_scores text)).
Proof.
  rewrite by_score_perm. apply (sentence_scores_keys _ (_fast_sentences text)).
Qed.

Lemma by_score_elem_of text s :
  s ∈ by_score (text_scores text) → s ∈ _fast_sentences text.
Proof.
  rewrite by_score_perm. intros Hs.
  by apply (sentence_scores_keys _ (_fast_sentences text)) in Hs as [? _].
Qed.

Lemma summary_sublist text n :
  summary_sentences text n `sublist_of` _fast_sentences text.
Proof.
  destruct (summary_cases text n) as [->|[->|(_ & _ & ->)]].
  - apply sublist_nil_l.
  - destruct (slice_to_take n (_fast_sentences text)) as [m ->]. apply sublist_take.
  - destruct (slice_to_take n (by_score (text_scores text))) as [m ->].
    apply by_position_sublist.
    + eapply sublist_NoDup; [apply by_score_NoDup|apply sublist_take].
    + intros x Hx. apply by_score_elem_of.
      eapply elem_of_sublist; [done|apply sublist_take].
Qed.

Lemma summary_length text n :
  0 ≤ n → (length (summary_sentences text n) ≤ Z.to_nat n)%nat.
Proof.
  intros Hn. destruct (summary_cases text n) as [->|[->|(_ & _ & ->)]].
  - cbn. lia.
  - rewrite slice_to_nonneg, length_take by done. lia.
  - rewrite by_position_perm, slice_to_nonneg, length_take by done. lia.
Qed.

Lemma summary_NoDup text n :
  _fast_words text ≠ [] → text_scores text ≠ [] →
  NoDup (summary_sentences text n).
Proof.
  intros Hw Hs. rewrite (summary_main text n Hw Hs), by_position_perm.
  destruct (slice_to_take n (by_score (text_scores text))) as [m ->].
  eapply sublist_NoDup; [apply by_score_NoDup|apply sublist_take].
Qed.

(** Of two scored sentences, the one that comes first in the text and has
    no lower score is in the summary when the other is. *)
Lemma summary_ties text n s1 s2 x1 x2 i j :
  Py.dict_get s1 (text_scores text) = Some x1 →
  Py.dict_get s2 (text_scores text) = Some x2 →
  Py.index s1 (_fast_sentences text) = Some i →
  Py.index s2 (_fast_sentences text) = Some j →
  (i < j)%nat → f_lt x1 x2 = false →
  s2 ∈ summary_sentences text n → s1 ∈ summary_sentences text n.
Proof.
  intros H1 H2 Hi Hj Hij Hlt.
  destruct (summary_cases text n) as [->|[->|(_ & _ & ->)]].
  - by intros ?%elem_of_nil.
  - destruct (slice_to_take n (_fast_sentences text)) as [m ->].
    by eapply take_index_closed.
  - rewrite !by_position_perm.
    destruct (slice_to_take n (by_score (text_scores text))) as [m ->].
    apply sublist_take_closed; [apply by_score_NoDup|].
    assert (s1 ∈ Py.dict_keys (text_scores text)) as Hk1
      by (apply dict_get_keys; by rewrite H1).
    assert (s2 ∈ Py.dict_keys (text_scores text)) as Hk2
      by (apply dict_get_keys; by rewrite H2).
    unfold by_score. apply sorted_stable.
    + by apply keys_in_order with i j.
    + cbn beta zeta. by rewrite H1, H2.
Qed.
End summarizer.

(** ** Sentences as parts of the text *)

Section verbatim.

Lemma string_app_nil_r (s : string) : s +:+ "" = s.
Proof.
  induction s as [|c s IH]; cbn; [done|]. unfold String.app in *. by rewrite IH.
Qed.

Lemma string_app_assoc (a b c : string) : (a +:+ b) +:+ c = a +:+ b +:+ c.
Proof.
  induction a as [|x a IH]; [done|].
  unfold String.app in *. cbn. by rewrite IH.
Qed.

Lemma string_app_cons (x : ascii) (a b : string) :
  String x a +:+ b = String x (a +:+ b).
Proof. done. Qed.

Lemma prefix_spec (s t : string) :
  String.prefix s t = true ↔ ∃ b, t = s +:+ b.
Proof.
  revert t. induction s as [|c s IH]; intros t.
  - destruct t; cbn; split; eauto.
  - destruct t as [|c' t]; cbn.
    + split; [done|]. by intros [b ?].
    + destruct (ascii_dec c c') as [->|Hne].
      * rewrite IH. split; intros [b Hb]; exists b.
        -- by rewrite string_app_cons, <-Hb.
        -- rewrite string_app_cons in Hb. by injection Hb.
      * split; [done|]. intros [b Hb]. rewrite string_app_cons in Hb. congruence.
Qed.

Lemma infix_refl (s : string) : infix_of s s.
Proof. exists "", "". by rewrite string_app_nil_r. Qed.

Lemma infix_nil (t : string) : infix_of "" t.
Proof. by exists "", t. Qed.

Lemma infix_trans (s t u : string) : infix_of s t → infix_of t u → infix_of s u.
Proof.
  intros (a & b & ->) (a' & b' & ->). exists (a' +:+ a), (b +:+ b').
  by rewrite !string_app_assoc.
Qed.

Lemma infix_cons (c : ascii) (s t : string) : infix_of s t → infix_of s (String c t).
Proof. intros (a & b & ->). by exists (String c a), b. Qed.

Lemma contains_spec (s t : string) : Text.contains s t = true ↔ infix_of s t.
Proof.
  split.
  - induction t as [|c t IH]; cbn [Text.contains].
    + rewrite orb_false_r. intros [b Hb]%prefix_spec. by exists "", b.
    + intros [[b Hb]%prefix_spec|Ht]%orb_true_iff.
      * by exists "", b.
      * by apply infix_cons, IH.
  - intros (a & b & ->). induction a as [|c a IH].
    + assert (String.prefix s (s +:+ b) = true) as Hp by (apply prefix_spec; eauto).
      change ("" +:+ s +:+ b) with (s +:+ b).
      destruct (s +:+ b); cbn [Text.contains]; by rewrite Hp.
    + rewrite string_app_cons. cbn [Text.contains]. rewrite IH. apply orb_true_r.
Qed.

Lemma lstrip_suffix (s : string) : ∃ a, s = a +:+ Text.lstrip s.
Proof.
  induction s as [|c s [a IH]]; cbn; [by exists ""|].
  destruct (Text.is_space c); [|by exists ""].
  exists (String c a). by rewrite string_app_cons, <-IH.
Qed.

Lemma rstrip_prefix (s : string) : ∃ b, s = Text.rstrip s +:+ b.
Proof.
  induction s as [|c s [b IH]]; cbn; [by exists ""|].
  destruct (Text.rstrip s) as [|c' r] eqn:Hr.
  - destruct (Text.is_space c); [by exists (String c s)|].
    exists s. reflexivity.
  - exists b. by rewrite string_app_cons, <-IH.
Qed.

Lemma strip_infix (s : string) : infix_of (Text.strip s) s.
Proof.
  unfold Text.strip. destruct (lstrip_suffix s) as [a Ha].
  destruct (rstrip_prefix (Text.lstrip s)) as [b Hb].
  exists a, b. by rewrite <-Hb.
Qed.

(** The pieces of the split are stretches of the text, and the first
    piece starts the text unless a separator is being passed. *)
Lemma sent_split_pieces (m : Text.split_mode) (s : string) :
  ∃ p ps, Text.sent_split m s = p :: ps ∧
          (m ≠ Text.InSeparator → ∃ b, s = p +:+ b) ∧
          Forall (λ q, infix_of q s) (p :: ps).
Proof.
  revert m. induction s as [|c s IH]; intros m.
  - exists "", []. split_and!; [done|by exists ""|]. repeat constructor. apply infix_nil.
  - assert (∀ m', m' ≠ Text.InSeparator →
        ∃ p ps, Text.cons_head c (Text.sent_split m' s) = p :: ps ∧
                (∃ b, String c s = p +:+ b) ∧
                Forall (λ q, infix_of q (String c s)) (p :: ps)) as Hcons.
    { intros m' Hm'. destruct (IH m') as (p & ps & -> & Hpre & Hall).
      destruct (Hpre Hm') as [b Hb].
      exists (String c p), ps. split_and!; [done| |].
      - exists b. by rewrite string_app_cons, <-Hb.
      - apply Forall_cons in Hall as [_ Hall]. constructor.
        + exists "", b. by rewrite Hb.
        + eapply Forall_impl; [done|]. intros q. apply infix_cons. }
    cbn [Text.sent_split]. destruct (Text.is_space c).
    + destruct m.
      * destruct (IH Text.InSeparator) as (p & ps & -> & _ & Hall).
        exists "", (p :: ps). split_and!; [done|by exists (String c s)|].
        constructor; [apply infix_nil|].
        eapply Forall_impl; [done|]. intros q. apply infix_cons.
      * destruct (IH Text.InSeparator) as (p & ps & -> & _ & Hall).
        exists p, ps. split_and!; [done..|].
        eapply Forall_impl; [done|]. intros q. apply infix_cons.
      * destruct (Hcons Text.Plain ltac:(done)) as (p & ps & -> & Hb & Hall).
        by exists p, ps.
    + destruct (Hcons (if Text.is_sentence_end c then Text.AfterEnd else Text.Plain))
        as (p & ps & -> & Hb & Hall); [by destruct (Text.is_sentence_end c)|].
      by exists p, ps.
Qed.

Lemma tag_sub_plain (s : string) :
  Text.has_char "<" s = false → Text.strip_tags s = s.
Proof.
  unfold Text.strip_tags. induction s as [|c s IH]; cbn; [done|].
  intros [Hc Hs]%orb_false_iff. rewrite Hc. f_equal. by apply IH.
Qed.

Lemma fast_sentences_infix `{Library} (text : string) :
  Forall (λ s, infix_of s (html_unescape (Text.strip_tags text)))
         (_fast_sentences text).
Proof.
  unfold _fast_sentences, Text.split_sentences_re. cbn zeta.
  set (clean := html_unescape (Text.strip_tags text)).
  destruct (sent_split_pieces Text.Plain (Text.strip clean)) as (p & ps & -> & _ & Hall).
  apply Forall_fmap, Forall_forall. intros q [_ Hq]%list_elem_of_filter. cbn.
  eapply Forall_forall in Hall; [|done].
  eapply infix_trans; [apply strip_infix|].
  eapply infix_trans; [done|]. apply strip_infix.
Qed.

(** In a text without [<] and [&] every sentence is in the text as it
    is. *)
Lemma fast_sentences_plain `{Library} (text : string) :
  Text.has_char "<" text = false → Text.has_char "&" text = false →
  Forall (λ s, Text.contains s text = true) (_fast_sentences text).
Proof.
  intros Hlt Hamp. pose proof (fast_sentences_infix text) as Hall.
  rewrite (tag_sub_plain text Hlt), (html_unescape_plain text Hamp) in Hall.
  eapply Forall_impl; [done|]. intros s. apply contains_spec.
Qed.
End verbatim.

(** ** The cache under the pool *)

Section pool_runs.
Context `{Library} `{Network}.
Context (items : list item) (P : pool → Prop).
Context (P_step : ∀ p i, P p → P (pool_step items p i)).

Lemma pool_steps_keep p sched : P p → P (foldl (pool_step items) p sched).
Proof.
  revert p. induction sched as [|i sched IH]; intros p Hp; [done|].
  cbn. by apply IH, P_step.
Qed.

Lemma complete_keeps p i : P p → P (complete items p i).
Proof. intros Hp. unfold complete. by do 3 apply P_step. Qed.

Lemma shutdown_keeps p : P p → P (shutdown items p).
Proof.
  unfold shutdown. generalize (seq 0 (length items)). intros todo.
  revert p. induction todo as [|i todo IH]; intros p Hp; [done|].
  cbn. apply IH. destruct (from_option in_flight false (p.1 !! i)); [|done].
  by apply complete_keeps.
Qed.

Lemma gather_keeps todo out p : P p → P (gather items todo out p).2.
Proof.
  revert out p. induction todo as [|i todo IH]; intros out p Hp; [done|].
  cbn [gather]. pose proof (complete_keeps p i Hp) as Hp'.
  destruct ((complete items p i).1 !! i) as [[| | |[[a|]|e]]|]; try by apply IH.
  by apply shutdown_keeps.
Qed.

(** What every step of a task keeps holds of the pool when the block is
    left. *)
Lemma pool_map_keeps sched max_workers st :
  P (replicate (length items) Queued, st) →
  ∃ ts, P (ts, (pool_map sched max_workers items st).2).
Proof.
  intros Hp. unfold pool_map. destruct (decide (max_workers ≤ 0)); [eauto|].
  pose proof (gather_keeps (seq 0 (length items)) []
                _ (pool_steps_keep _ sched Hp)) as Hg.
  destruct (gather _ _ _ _) as [r [ts st']]. by exists ts.
Qed.
End pool_runs.

Section pool_cache.
Context `{Library} `{Network}.
Context (items : list item) (Hitems : NoDup (url_of <$> items)).
Context (st0 : state).

Lemma cache_grows_step p i :
  cache_grows items st0 p → cache_grows items st0 (pool_step items p i).
Proof.
  intros [Hsub Hfl]. unfold pool_step.
  destruct (items !! i) as [it|] eqn:Hi; [|done].
  destruct (p.1 !! i) as [t|] eqn:Ht; [|done].
  pose proof (lookup_lt_Some _ _ _ Ht) as Hlen.
  destruct t as [|s n|s r|r]; cbn [task_step].
  - destruct (source_name it) as [s|e].
    + destruct (_CACHE p.2 !! url_of it) as [r|] eqn:Hc.
      * split; [done|]. cbn. intros j it' t' Hj Ht' Hin.
        destruct (decide (j = i)) as [->|Hne].
        -- rewrite list_lookup_insert_eq in Ht' by done. by simplify_eq.
        -- rewrite list_lookup_insert_ne in Ht' by done. by eapply Hfl.
      * split; [done|]. cbn. intros j it' t' Hj Ht' Hin.
        destruct (decide (j = i)) as [->|Hne].
        -- by simplify_eq.
        -- rewrite list_lookup_insert_ne in Ht' by done. by eapply Hfl.
    + split; [done|]. cbn. intros j it' t' Hj Ht' Hin.
      destruct (decide (j = i)) as [->|Hne].
      * rewrite list_lookup_insert_eq in Ht' by done. by simplify_eq.
      * rewrite list_lookup_insert_ne in Ht' by done. by eapply Hfl.
  - split; [done|]. cbn. intros j it' t' Hj Ht' Hin.
    destruct (decide (j = i)) as [->|Hne].
    + simplify_eq. by eapply Hfl.
    + rewrite list_lookup_insert_ne in Ht' by done. by eapply Hfl.
  - pose proof (Hfl i it _ Hi Ht eq_refl) as Hnone. split; cbn.
    + etrans; [done|]. by apply insert_subseteq.
    + intros j it' t' Hj Ht' Hin. destruct (decide (j = i)) as [->|Hne].
      * rewrite list_lookup_insert_eq in Ht' by done. by simplify_eq.
      * rewrite list_lookup_insert_ne in Ht' by done.
        rewrite lookup_insert_ne; [by eapply Hfl|].
        intros Heq. apply Hne. symmetry.
        eapply (NoDup_lookup _ _ _ _ Hitems);
          rewrite list_lookup_fmap; [by rewrite Hi|by rewrite Hj, Heq].
  - split; [done|]. cbn. rewrite list_insert_id by done. apply Hfl.
Qed.

Lemma pool_map_cache_grows sched max_workers :
  _CACHE st0 ⊆ _CACHE (pool_map sched max_workers items st0).2.
Proof.
  destruct (pool_map_keeps items (cache_grows items st0) cache_grows_step
              sched max_workers st0) as [ts [Hsub _]]; [|done].
  split; [done|]. cbn. intros i it t _ Ht.
  apply lookup_replicate in Ht as [-> _]. done.
Qed.
End pool_cache.

(** A run of [getNews] leaves the entries of the cache as they were. *)
Lemma getNews_cache_grows `{Library} `{Network} sched api_key categories
    per_category fetch_full parallel_workers country st :
  _CACHE st ⊆ _CACHE (getNews sched api_key categories per_category fetch_full
                      parallel_workers country st).2.
Proof.
  rewrite getNews_eq. cbn zeta.
  pose proof (pool_map_cache_grows
                (collect_headlines api_key categories per_category country)
                ltac:(rewrite collect_headlines_fresh; apply fresh_NoDup)
                st sched parallel_workers) as Hsub.
  by destruct (pool_map _ _ _ st) as [[out|e] st'].
Qed.

(** ** Words and sentences *)

Section words.

Lemma runs_chars (p : ascii → bool) (Q : ascii → Prop) (s : string) :
  (∀ c, c ∈ chars s → p c = true → Q c) →
  Forall (λ w, w ≠ "" ∧ Forall Q (chars w)) (Text.runs p s).
Proof.
  induction s as [|c s IH]; intros HQ; cbn [Text.runs]; [constructor|].
  assert (Forall (λ w, w ≠ "" ∧ Forall Q (chars w)) (Text.runs p s)) as IH'.
  { apply IH. intros x Hx. apply HQ. by right. }
  destruct (p c) eqn:Hc; [|done].
  assert (Q c) as Hqc by (apply HQ; [left|done]).
  destruct (Text.starts_with p s).
  - destruct (Text.runs p s) as [|w ws]; cbn.
    + repeat constructor; [done|]. cbn. by repeat constructor.
    + apply Forall_cons in IH' as [[_ Hw] Hws].
      constructor; [|done]. split; [done|]. cbn. by constructor.
  - constructor; [|done]. split; [done|]. cbn. by repeat constructor.
Qed.

Lemma lower_word_char (c : ascii) :
  Text.is_word_char (Text.lower_char c) = true →
  is_lower_word_char (Text.lower_char c) = true.
Proof. destruct c as [[] [] [] [] [] [] [] []]; vm_compute; done. Qed.

Lemma chars_lower (s : string) (c : ascii) :
  c ∈ chars (Text.lower s) → ∃ x, c = Text.lower_char x.
Proof.
  induction s as [|x s IH]; cbn.
  - by intros ?%elem_of_nil.
  - intros [->|Hc]%elem_of_cons; eauto.
Qed.

Lemma fast_words_chars (text : string) :
  Forall (λ w, w ≠ "" ∧ (w ∉ _STOPWORDS) ∧
               Forall (λ c, is_lower_word_char c = true) (chars w))
         (_fast_words text).
Proof.
  unfold _fast_words. apply Forall_forall. intros w Hw.
  apply list_elem_of_filter in Hw as [Hstop Hw].
  assert (Forall (λ w, w ≠ "" ∧ Forall (λ c, is_lower_word_char c = true) (chars w))
            (Text.runs Text.is_word_char (Text.lower text))) as Hr.
  { apply runs_chars. intros c Hc. apply chars_lower in Hc as [x ->].
    apply lower_word_char. }
  eapply Forall_forall in Hr; [|done]. tauto.
Qed.
End words.

Section sentences.

Lemma lstrip_fixed (s : string) :
  Text.starts_with Text.is_space s = false → Text.lstrip s = s.
Proof. destruct s as [|c s]; cbn; [done|]. by intros ->. Qed.

Lemma lstrip_start (s : string) :
  Text.starts_with Text.is_space (Text.lstrip s) = false.
Proof.
  induction s as [|c s IH]; cbn; [done|].
  destruct (Text.is_space c) eqn:Hc; [done|]. cbn. by rewrite Hc.
Qed.

Lemma rstrip_start (s : string) :
  Text.starts_with Text.is_space s = false →
  Text.starts_with Text.is_space (Text.rstrip s) = false.
Proof.
  destruct s as [|c s]; cbn; [done|]. intros Hc.
  destruct (Text.rstrip s); cbn; [|done]. rewrite Hc. cbn. done.
Qed.

Lemma rstrip_cons (c : ascii) (s : string) :
  Text.rstrip (String c s) =
    match Text.rstrip s with
    | "" => if Text.is_space c then "" else String c ""
    | r => String c r
    end.
Proof. done. Qed.

Lemma rstrip_idemp (s : string) : Text.rstrip (Text.rstrip s) = Text.rstrip s.
Proof.
  induction s as [|c s IH]; [done|]. rewrite rstrip_cons.
  destruct (Text.rstrip s) as [|c' r] eqn:Hr.
  - destruct (Text.is_space c) eqn:Hc; cbn; [done|]. by rewrite Hc.
  - by rewrite rstrip_cons, IH.
Qed.

Lemma strip_idemp (s : string) : Text.strip (Text.strip s) = Text.strip s.
Proof.
  unfold Text.strip.
  rewrite (lstrip_fixed (Text.rstrip _)) by apply rstrip_start, lstrip_start.
  apply rstrip_idemp.
Qed.

Lemma space_not_end (c : ascii) :
  Text.is_space c = true → Text.is_sentence_end c = false.
Proof. destruct c as [[] [] [] [] [] [] [] []]; vm_compute; done. Qed.

Lemma has_break_cons (c : ascii) (s : string) :
  has_break (String c s) =
    (Text.is_sentence_end c && Text.starts_with Text.is_space s) || has_break s.
Proof. destruct s; cbn; [by rewrite andb_false_r|done]. Qed.

Lemma has_break_app_r (a s : string) :
  has_break (a +:+ s) = false → has_break s = false.
Proof.
  induction a as [|x a IH]; [done|].
  rewrite string_app_cons, has_break_cons. intros [_ ?]%orb_false_iff. by apply IH.
Qed.

Lemma starts_with_app (p : ascii → bool) (s b : string) :
  Text.starts_with p s = true → Text.starts_with p (s +:+ b) = true.
Proof. by destruct s. Qed.

Lemma has_break_app_l (s b : string) :
  has_break (s +:+ b) = false → has_break s = false.
Proof.
  induction s as [|x s IH]; [done|].
  rewrite string_app_cons, !has_break_cons.
  intros [H1 H2]%orb_false_iff. apply orb_false_iff. split; [|by apply IH].
  destruct (Text.is_sentence_end x); [|done]. cbn in *.
  destruct (Text.starts_with Text.is_space s) eqn:Hs; [|done].
  by rewrite (starts_with_app _ _ _ Hs) in H1.
Qed.

Lemma has_break_infix (s t : string) :
  infix_of s t → has_break t = false → has_break s = false.
Proof.
  intros (a & b & ->) Ht. by apply has_break_app_r, has_break_app_l in Ht.
Qed.

(** No piece of the split holds a sentence end followed by white space;
    after a sentence end the first piece does not begin with white
    space. *)
Lemma sent_split_unbroken (m : Text.split_mode) (s : string) :
  Forall (λ p, has_break p = false) (Text.sent_split m s) ∧
  (m = Text.AfterEnd →
   ∃ p ps, Text.sent_split m s = p :: ps ∧
           Text.starts_with Text.is_space p = false).
Proof.
  revert m. induction s as [|c s IH]; intros m.
  - split; [by repeat constructor|]. intros _. by exists "", [].
  - cbn [Text.sent_split]. destruct (Text.is_space c) eqn:Hc.
    + destruct m.
      * destruct (IH Text.InSeparator) as [Hall _].
        split; [by constructor|]. intros _. by eexists "", _.
      * destruct (IH Text.InSeparator) as [Hall _]. by split.
      * destruct (IH Text.Plain) as [Hall _]. split; [|done].
        destruct (Text.sent_split Text.Plain s) as [|p ps]; cbn.
        -- by repeat constructor.
        -- apply Forall_cons in Hall as [Hp Hps]. constructor; [|done].
           rewrite has_break_cons, Hp, (space_not_end c Hc). done.
    + destruct (IH (if Text.is_sentence_end c then Text.AfterEnd else Text.Plain))
        as [Hall Hfirst].
      destruct (Text.sent_split _ s) as [|p ps] eqn:Hsp; cbn.
      * split; [by repeat constructor|]. intros _. eexists _, _. split; [done|].
        cbn. done.
      * apply Forall_cons in Hall as [Hp Hps]. split.
        -- constructor; [|done]. rewrite has_break_cons, Hp, orb_false_r.
           destruct (Text.is_sentence_end c); [|done]. cbn.
           destruct (Hfirst eq_refl) as (p' & ps' & [= <- <-] & Hst). done.
        -- intros _. eexists _, _. split; [done|]. cbn. done.
Qed.

Lemma fast_sentences_clean `{Library} (text : string) :
  Forall (λ s, Text.strip s = s ∧ (3 ≤ length (Text.split_ws s))%nat ∧
               has_break s = false)
         (_fast_sentences text).
Proof.
  unfold _fast_sentences, Text.split_sentences_re. cbn zeta.
  set (clean := html_unescape (Text.strip_tags text)).
  destruct (sent_split_unbroken Text.Plain (Text.strip clean)) as [Hall _].
  apply Forall_fmap, Forall_forall. intros q [Hlen Hq]%list_elem_of_filter. cbn.
  split_and!.
  - apply strip_idemp.
  - done.
  - eapply has_break_infix; [apply strip_infix|].
    by eapply Forall_forall in Hall.
Qed.

Lemma split_ws_nil : Text.split_ws "" = [].
Proof. done. Qed.
End sentences.

(** ** Tags *)

Section tags.

Lemma has_char_app (x : ascii) (a b : string) :
  Text.has_char x (a +:+ b) = Text.has_char x a || Text.has_char x b.
Proof.
  induction a as [|c a IH]; [done|].
  rewrite string_app_cons. cbn. by rewrite IH, orb_assoc.
Qed.

Lemma loose_plain (t : string) : Text.has_char ">" t = false → loose t.
Proof.
  induction t as [|c t IH]; [done|]. cbn.
  intros [_ Ht]%orb_false_iff. split; [by right|by apply IH].
Qed.

Lemma tag_sub_loose (s : string) (pending : option string) :
  (∀ buf, pending = Some buf →
          ∃ rest, buf = String "<" rest ∧ Text.has_char ">" rest = false) →
  loose (Text.tag_sub pending s).
Proof.
  revert pending. induction s as [|c s IH]; intros pending Hp.
  - destruct pending as [buf|]; cbn; [|done].
    destruct (Hp buf eq_refl) as (rest & -> & Hrest). cbn.
    split; [by right|by apply loose_plain].
  - cbn [Text.tag_sub]. destruct pending as [buf|].
    + destruct (Hp buf eq_refl) as (rest & -> & Hrest).
      destruct (Ascii.eqb c ">") eqn:Hc.
      * apply Ascii.eqb_eq in Hc as ->.
        destruct rest as [|y rest]; cbn [String.length Nat.eqb].
        -- cbn. split; [intros _; by left|].
           split; [intros [=]|by apply IH].
        -- by apply IH.
      * apply IH. intros buf [= <-]. exists (rest +:+ String c "").
        split; [done|]. rewrite has_char_app, Hrest. cbn.
        by rewrite Hc.
    + destruct (Ascii.eqb c "<") eqn:Hc.
      * apply Ascii.eqb_eq in Hc as ->.
        apply IH. intros buf [= <-]. by exists "".
      * cbn. split; [|by apply IH]. intros ->. by rewrite Ascii.eqb_refl in Hc.
Qed.

Lemma tagged_not_loose (t : string) : tagged t → ¬ loose t.
Proof.
  intros (a & b & c & Hb & Hgt & ->).
  induction a as [|x a IH].
  - change ("" +:+ ?s) with s. change ("<" +:+ ?s) with (String "<" s).
    intros [Hl _]. destruct (Hl eq_refl) as [Hs|Hn].
    + destruct b as [|y b]; [done|]. cbn in Hs, Hgt.
      apply orb_false_iff in Hgt as [Hy _]. rewrite string_app_cons in Hs.
      cbn [Text.starts_with] in Hs. rewrite Ascii.eqb_sym in Hy. congruence.
    + rewrite has_char_app in Hn. apply orb_false_iff in Hn as [_ Hn].
      cbn in Hn. done.
  - rewrite string_app_cons. intros [_ Hl]. by apply IH.
Qed.

Lemma tag_sub_pending_plain (t buf : string) :
  Text.has_char ">" t = false → Text.tag_sub (Some buf) t = buf +:+ t.
Proof.
  revert buf. induction t as [|c t IH]; intros buf; cbn.
  - by rewrite string_app_nil_r.
  - intros [Hc Ht]%orb_false_iff. rewrite Hc, IH by done.
    by rewrite string_app_assoc.
Qed.

Lemma tag_sub_fixed (t : string) : loose t → Text.tag_sub None t = t.
Proof.
  induction t as [|c t IH]; [done|]. intros [Hc Hl]. cbn [Text.tag_sub].
  destruct (Ascii.eqb c "<") eqn:Hlt.
  - apply Ascii.eqb_eq in Hlt as ->. destruct (Hc eq_refl) as [Hs|Hn].
    + destruct t as [|y t]; [done|]. cbn [Text.starts_with] in Hs.
      apply Ascii.eqb_eq in Hs as <-.
      cbn. specialize (IH Hl). cbn in IH. by injection IH as ->.
    + by rewrite tag_sub_pending_plain.
  - f_equal. by apply IH.
Qed.

Lemma tag_sub_chars (x : ascii) (s : string) (pending : option string) :
  Text.has_char x (Text.tag_sub pending s) = true →
  Text.has_char x s = true ∨ Text.has_char x (default "" pending) = true.
Proof.
  revert pending. induction s as [|c s IH]; intros pending H;
    cbn [Text.tag_sub] in H; [by right|].
  cbn [Text.has_char]. rewrite orb_true_iff.
  destruct pending as [buf|].
  - destruct (Ascii.eqb c ">").
    + destruct (String.length buf =? 1)%nat.
      * rewrite has_char_app in H. cbn [Text.has_char] in H.
        rewrite !orb_true_iff in H. destruct H as [Hb|[Hc|HX]]; [by right|auto|].
        apply IH in HX as [?|?]; [auto|done].
      * apply IH in H as [?|?]; [auto|done].
    + apply IH in H as [?|Hb]; [auto|]. cbn in Hb.
      rewrite has_char_app in Hb. cbn in Hb.
      rewrite orb_false_r in Hb. apply orb_true_iff in Hb as [?|?]; auto.
  - destruct (Ascii.eqb c "<") eqn:Hc.
    + apply Ascii.eqb_eq in Hc as ->. apply IH in H as [?|Hb]; [auto|].
      cbn in Hb. rewrite orb_false_r in Hb. auto.
    + cbn [Text.has_char] in H. apply orb_true_iff in H as [?|HX]; [auto|].
      apply IH in HX as [?|?]; [auto|done].
Qed.

Lemma strip_tags_chars (x : ascii) (s : string) :
  Text.has_char x s = false → Text.has_char x (Text.strip_tags s) = false.
Proof.
  intros Hs. destruct (Text.has_char x (Text.strip_tags s)) eqn:Ht; [|done].
  apply tag_sub_chars in Ht as [?|?]; [congruence|done].
Qed.

Lemma tagged_infix (s t : string) : infix_of s t → tagged s → tagged t.
Proof.
  intros (a' & b' & ->) (a & b & c & Hb & Hgt & ->).
  exists (a' +:+ a), b, (c +:+ b'). split_and!; [done..|].
  by rewrite !string_app_assoc.
Qed.

Lemma strip_tags_untagged (s : string) : ¬ tagged (Text.strip_tags s).
Proof.
  intros Ht. apply tagged_not_loose in Ht. apply Ht, tag_sub_loose. by intros buf.
Qed.

Lemma strip_tags_idemp (s : string) :
  Text.strip_tags (Text.strip_tags s) = Text.strip_tags s.
Proof. apply tag_sub_fixed, tag_sub_loose. by intros buf. Qed.

Lemma fast_sentences_untagged `{Library} (text : string) :
  Text.has_char "&" text = false →
  Forall (λ s, ¬ tagged s) (_fast_sentences text).
Proof.
  intros Hamp. pose proof (fast_sentences_infix text) as Hall.
  rewrite (html_unescape_plain _ (strip_tags_chars _ _ Hamp)) in Hall.
  eapply Forall_impl; [done|]. intros s Hs Ht.
  apply (strip_tags_untagged text). by apply (tagged_infix s).
Qed.
End tags.

(** ** The best sentences *)

Section sorted_more.
Context {A : Type} (lt : A → A → bool).

Lemma sorted_StronglySorted l :
  (∀ a b, lt a b = true → lt b a = false) →
  (∀ a b c, lt a b = false → lt b c = false → lt a c = false) →
  StronglySorted (λ a b, lt b a = false) (Py.sorted lt l).
Proof.
  intros Hasym Hneg. apply Sorted.Sorted_StronglySorted; [|by apply sorted_Sorted].
  intros a b c Hab Hbc. by apply (Hneg c b a).
Qed.
End sorted_more.

(** In a sorted list, what is not behind an element of a prefix is in the
    prefix. *)
Lemma take_sorted_closed {A} (R : relation A) (l : list A) (m : nat) (a b : A) :
  StronglySorted R l → b ∈ take m l → a ∈ l → ¬ R b a → a ∈ take m l.
Proof.
  intros Hs Hb Ha HR. rewrite <-(take_drop m l) in Hs, Ha.
  apply elem_of_app in Ha as [Ha|Ha]; [done|]. destruct HR.
  by eapply StronglySorted_app_1_elem_of.
Qed.

Lemma sublist_full {A} (l1 l2 : list A) :
  l1 `sublist_of` l2 → (length l2 ≤ length l1)%nat → l1 = l2.
Proof.
  induction 1 as [|x l1 l2 _ IH|x l1 l2 Hsub _]; cbn; intros Hlen.
  - done.
  - f_equal. apply IH. lia.
  - apply sublist_length in Hsub. lia.
Qed.

Section summarizer_more.
Context `{Library}.

(** A sentence of a strictly higher score goes before: it is in the
    summary when a sentence of a lower score is. *)
Lemma summary_top text n s1 s2 x1 x2 :
  (∀ x y, f_lt x y = true → f_lt y x = false) →
  (∀ x y z, f_lt x y = false → f_lt y z = false → f_lt x z = false) →
  _fast_words text ≠ [] →
  Py.dict_get s1 (text_scores text) = Some x1 →
  Py.dict_get s2 (text_scores text) = Some x2 →
  f_lt x2 x1 = true →
  s2 ∈ summary_sentences text n → s1 ∈ summary_sentences text n.
Proof.
  intros Hasym Hneg Hw H1 H2 Hlt.
  assert (text_scores text ≠ []) as Hs by (intros E; by rewrite E in H1).
  rewrite (summary_main text n Hw Hs), !by_position_perm.
  destruct (slice_to_take n (by_score (text_scores text))) as [m ->].
  intros Hin. unfold by_score in *.
  eapply take_sorted_closed; [apply sorted_StronglySorted|done|..].
  - intros a b. apply Hasym.
  - intros a b c Hab Hbc. by apply (Hneg _ _ _ Hbc Hab).
  - apply sorted_elem_of, dict_get_keys. by rewrite H1.
  - cbn beta zeta. rewrite H1, H2. cbn. by rewrite Hlt.
Qed.

Lemma fast_sentences_empty : _fast_sentences "" = [].
Proof.
  unfold _fast_sentences. cbn zeta.
  change (Text.strip_tags "") with "". by rewrite html_unescape_plain.
Qed.

Lemma by_position_whole freq sentences n :
  0 ≤ n → (length sentences ≤ Z.to_nat n)%nat →
  NoDup sentences → Forall scored sentences →
  by_position sentences
    (Py.slice_to n (by_score (sentence_scores freq sentences))) = sentences.
Proof.
  intros Hn Hlen Hnd Hsc.
  destruct (sentence_scores_keys freq sentences) as (Hknd & Hmem & _).
  assert (Py.dict_keys (sentence_scores freq sentences) ≡ₚ sentences) as Hperm.
  { apply NoDup_Permutation; [done..|]. intros k. rewrite Hmem.
    split; [tauto|]. intros Hk. split; [done|]. by eapply Forall_forall in Hsc. }
  assert (Py.slice_to n (by_score (sentence_scores freq sentences))
          ≡ₚ sentences) as Hall.
  { rewrite slice_to_nonneg by done.
    rewrite take_ge by (rewrite by_score_perm, Hperm; done).
    by rewrite by_score_perm. }
  apply sublist_full.
  - apply by_position_sublist.
    + by rewrite Hall.
    + intros x. by rewrite Hall.
  - by rewrite by_position_perm, Hall.
Qed.

(** A text of at most [n] sentences, all different and all scored, is
    its own summary. *)
Lemma summary_whole text n :
  0 ≤ n → (length (_fast_sentences text) ≤ Z.to_nat n)%nat →
  NoDup (_fast_sentences text) → Forall scored (_fast_sentences text) →
  summary_sentences text n = _fast_sentences text.
Proof.
  intros Hn Hlen Hnd Hsc.
  assert (Py.slice_to n (_fast_sentences text) = _fast_sentences text) as Hslice.
  { rewrite slice_to_nonneg by done. by apply take_ge. }
  unfold summary_sentences.
  destruct text as [|c text]; [by rewrite fast_sentences_empty|].
  destruct (_fast_sentences _) as [|s sentences]; [done|].
  destruct (_fast_words _) as [|w words]; [done|].
  destruct (sentence_scores _ _) as [|kv scores] eqn:Hsco; [done|].
  rewrite <-Hsco. by apply by_position_whole.
Qed.
End summarizer_more.

Lemma Q_lt_asym (x y : Q) :
  negb (Qle_bool y x) = true → negb (Qle_bool x y) = false.
Proof.
  intros Hxy%negb_true_iff. apply negb_false_iff, Qle_bool_iff.
  destruct (Qlt_le_dec x y) as [Hlt|Hle]; [by apply Qlt_le_weak|].
  apply Qle_bool_iff in Hle. congruence.
Qed.

Lemma Q_lt_negtrans (x y z : Q) :
  negb (Qle_bool y x) = false → negb (Qle_bool z y) = false →
  negb (Qle_bool z x) = false.
Proof.
  intros Hxy%negb_false_iff%Qle_bool_iff Hyz%negb_false_iff%Qle_bool_iff.
  apply negb_false_iff, Qle_bool_iff. by eapply Qle_trans.
Qed.

(** ** The length of the summary *)

Section length_facts.

Lemma string_length_app (a b : string) :
  String.length (a +:+ b) = (String.length a + String.length b)%nat.
Proof. induction a as [|c a IH]; [done|]. rewrite string_app_cons. cbn. by rewrite IH. Qed.

Lemma infix_length (s t : string) :
  infix_of s t → (String.length s ≤ String.length t)%nat.
Proof. intros (a & b & ->). rewrite !string_length_app. lia. Qed.

Lemma room_cons s l : room (s :: l) = S (String.length s + room l).
Proof. done. Qed.

Lemma join_room (l : list string) :
  (S (String.length (Py.join " " l)) ≤ room l)%nat ∨ l = [].
Proof.
  induction l as [|s l IH]; [by right|]. left.
  destruct l as [|s' l]; [cbn; lia|].
  change (Py.join " " (s :: s' :: l)) with (s +:+ " " +:+ Py.join " " (s' :: l)).
  destruct IH as [IH|?]; [|done].
  rewrite !string_length_app, (room_cons s). cbn [String.length]. lia.
Qed.

Lemma room_cons_head c l :
  l ≠ [] → (room (Text.cons_head c l) ≤ S (room l))%nat.
Proof. destruct l as [|p ps]; [done|]. intros _. cbn [Text.cons_head]. rewrite !room_cons. cbn. lia. Qed.

Lemma sent_split_nonempty m s : Text.sent_split m s ≠ [].
Proof. by destruct (sent_split_pieces m s) as (p & ps & -> & _). Qed.

Lemma room_sublist l1 l2 : l1 `sublist_of` l2 → (room l1 ≤ room l2)%nat.
Proof. induction 1; rewrite ?room_cons; [done|lia..]. Qed.

Lemma room_strip_filter (P : string → Prop) `{∀ s, Decision (P s)} l :
  (room (Text.strip <$> filter P l) ≤ room l)%nat.
Proof.
  induction l as [|s l IH]; [done|]. rewrite filter_cons.
  destruct (decide (P s)); rewrite ?fmap_cons, !room_cons; [|lia].
  pose proof (infix_length _ _ (strip_infix s)). lia.
Qed.

(** The pieces of the split and one character between two of them fit
    in the text. *)
Lemma sent_split_room (m : Text.split_mode) (s : string) :
  (room (Text.sent_split m s) ≤ S (String.length s))%nat.
Proof.
  revert m. induction s as [|c s IH]; intros m; [cbn; lia|].
  cbn [Text.sent_split String.length]. destruct (Text.is_space c).
  - destruct m.
    + specialize (IH Text.InSeparator). rewrite room_cons. cbn. lia.
    + specialize (IH Text.InSeparator). lia.
    + pose proof (room_cons_head c (Text.sent_split Text.Plain s)
                    (sent_split_nonempty _ _)).
      specialize (IH Text.Plain). lia.
  - pose proof (room_cons_head c (Text.sent_split
        (if Text.is_sentence_end c then Text.AfterEnd else Text.Plain) s)
        (sent_split_nonempty _ _)).
    specialize (IH (if Text.is_sentence_end c then Text.AfterEnd else Text.Plain)).
    lia.
Qed.

Lemma tag_sub_length (pending : option string) (s : string) :
  (String.length (Text.tag_sub pending s)
   ≤ String.length (default "" pending) + String.length s)%nat.
Proof.
  revert pending. induction s as [|c s IH]; intros pending.
  - cbn. lia.
  - cbn [Text.tag_sub String.length]. destruct pending as [buf|].
    + destruct (Ascii.eqb c ">").
      * destruct (String.length buf =? 1)%nat.
        -- rewrite string_length_app. cbn [String.length].
           specialize (IH None). cbn in *. lia.
        -- specialize (IH None). cbn in *. lia.
      * specialize (IH (Some (buf +:+ String c ""))). cbn in *.
        rewrite string_length_app in IH. cbn in IH. lia.
    + destruct (Ascii.eqb c "<").
      * specialize (IH (Some (String c ""))). cbn in *. lia.
      * specialize (IH None). cbn in *. lia.
Qed.

Lemma fast_sentences_room `{Library} (text : string) :
  (room (_fast_sentences text)
   ≤ S (String.length (html_unescape (Text.strip_tags text))))%nat.
Proof.
  unfold _fast_sentences, Text.split_sentences_re. cbn zeta.
  set (clean := html_unescape (Text.strip_tags text)).
  etrans; [apply room_strip_filter|].
  etrans; [apply sent_split_room|].
  pose proof (infix_length _ _ (strip_infix clean)). lia.
Qed.

(** The summary is not longer than the text without its tags and with
    its entities unescaped. *)
Lemma summary_short `{Library} (text : string) (n : Z) :
  (String.length (summarizeText text n)
   ≤ String.length (html_unescape (Text.strip_tags text)))%nat.
Proof.
  unfold summarizeText.
  destruct (join_room (summary_sentences text n)) as [Hj| ->]; [|cbn; lia].
  pose proof (room_sublist _ _ (summary_sublist text n)).
  pose proof (fast_sentences_room text). lia.
Qed.
End length_facts.

(** ** The label and the cap *)

Section sentiment_more.
Context `{Library}.

Lemma substring_empty (n : nat) (t : string) :
  substring 0 (S n) t = "" → t = "".
Proof. by destruct t. Qed.

(** The result carries a label, one of the three. *)
Lemma analyze_sentiment_label text :
  ∃ l, analyze_sentiment text !! "label" = Some (SLabel l) ∧
       l ∈ ["positive"; "negative"; "neutral"].
Proof.
  assert (neutral !! "label" = Some (SLabel "neutral")) as Hn by done.
  unfold analyze_sentiment. destruct text as [ [|c t]|].
  - exists "neutral". split; [done|set_solver].
  - destruct _VADER_SIA as [ps|].
    + rewrite lookup_insert_eq. eexists. split; [done|]. unfold label_of.
      destruct (f_le _ _); [set_solver|]. destruct (f_le _ _); set_solver.
    + exists "neutral". split; [done|set_solver].
  - exists "neutral". split; [done|set_solver].
Qed.

(** Only the first 5000 characters of the text count. *)
Lemma analyze_sentiment_cap t t' :
  substring 0 5000 t = substring 0 5000 t' →
  analyze_sentiment (Some t) = analyze_sentiment (Some t').
Proof.
  intros Hsub. unfold analyze_sentiment.
  destruct t as [|c t], t' as [|c' t']; [done|..].
  - symmetry in Hsub. by apply substring_empty in Hsub.
  - by apply substring_empty in Hsub.
  - destruct _VADER_SIA as [ps|]; [|done]. by rewrite Hsub.
Qed.
End sentiment_more.

(** ** The results of the pool *)

Section pool_final.
Context `{Library} `{Network}.
Context (items : list item).

Lemma pool_step_length p i : length (pool_step items p i).1 = length p.1.
Proof.
  unfold pool_step. destruct (items !! i), (p.1 !! i); try done.
  destruct (task_step _ _ _). cbn. by rewrite length_insert.
Qed.

Lemma pool_step_finished j r p i :
  p.1 !! j = Some (Finished r) →
  (pool_step items p i).1 !! j = Some (Finished r).
Proof.
  intros Hj. unfold pool_step. destruct (items !! i) as [it|]; [|done].
  destruct (p.1 !! i) as [t|] eqn:Ht; [|done].
  destruct (task_step it t p.2) as [t' st'] eqn:Hstep. cbn.
  destruct (decide (j = i)) as [->|Hne].
  - rewrite Ht in Hj. injection Hj as ->. cbn in Hstep. injection Hstep as <- <-.
    apply list_lookup_insert_eq. by eapply lookup_lt_Some.
  - by rewrite list_lookup_insert_ne.
Qed.

Lemma complete_ends p i :
  length p.1 = length items → (i < length items)%nat →
  ∃ r, (complete items p i).1 !! i = Some (Finished r).
Proof.
  intros Hlen Hi. destruct (lookup_lt_is_Some_2 items i Hi) as [it Hit].
  destruct (complete_finished (λ _, True) (λ _ _, True)
              (λ _ _ _ _ _, conj Logic.I Logic.I) items p i it) as (r & Hr & _);
    [|done|by exists r].
  split; [done|]. by apply Forall2_true.
Qed.

(** When the loop over the results ends well, every task awaited has
    ended well, and the list holds the articles of the tasks. *)
Lemma gather_Ok todo out p out' :
  length p.1 = length items → Forall (λ i, i < length items)%nat todo →
  (gather items todo out p).1 = Ok out' →
  Forall (λ i, ∃ r, (gather items todo out p).2.1 !! i = Some (Finished (Ok r)))
         todo ∧
  out' = out ++ omap (λ i, (gather items todo out p).2.1 !! i ≫= article_of) todo.
Proof.
  revert out p out'. induction todo as [|i todo IH]; intros out p out' Hlen Htodo.
  - cbn. intros [= <-]. split; [constructor|]. by rewrite app_nil_r.
  - apply Forall_cons in Htodo as [Hi Htodo]. cbn [gather].
    destruct (complete_ends p i Hlen Hi) as [r Hr].
    assert (length (complete items p i).1 = length items) as Hlen'.
    { by apply (complete_keeps items (λ p, length p.1 = length items));
        [intros p' j; rewrite pool_step_length|]. }
    rewrite Hr.
    assert (∀ out1,
      (gather items todo out1 (complete items p i)).2.1 !! i = Some (Finished r))
      as Hkeep.
    { intros out1.
      apply (gather_keeps items (λ p, p.1 !! i = Some (Finished r)));
        [intros p' j; apply pool_step_finished|done]. }
    destruct r as [[a|]|e]; cbv beta iota zeta; [| |done].
    + intros Hg. destruct (IH _ _ _ Hlen' Htodo Hg) as [Hall ->].
      split; [constructor; [|done]|].
      * eexists. apply Hkeep.
      * cbn [omap list_omap]. rewrite (Hkeep (out ++ [a])). cbn.
        by rewrite <-app_assoc.
    + intros Hg. destruct (IH _ _ _ Hlen' Htodo Hg) as [Hall ->].
      split; [constructor; [|done]|].
      * eexists. apply Hkeep.
      * cbn [omap list_omap]. rewrite (Hkeep out). done.
Qed.

Lemma omap_lookup_seq {A B} (g : option A → option B) (l : list A) (k : nat) :
  omap (λ i, g (l !! i)) (seq k (length l - k)) = omap (λ x, g (Some x)) (drop k l).
Proof.
  remember (length l - k)%nat as n eqn:Hn. revert k Hn.
  induction n as [|n IH]; intros k Hn.
  - by rewrite drop_ge by lia.
  - destruct (lookup_lt_is_Some_2 l k ltac:(lia)) as [x Hx].
    rewrite (drop_S _ _ _ Hx). cbn [seq omap list_omap]. rewrite Hx.
    by rewrite IH by lia.
Qed.

Context (P : pool → Prop).
Context (P_step : ∀ p i, P p → P (pool_step items p i)).

(** When the block ends well, what every step keeps holds of the tasks
    at the end; they have all ended well, and their articles are the
    result. *)
Lemma pool_map_final sched max_workers st out :
  P (replicate (length items) Queued, st) →
  (pool_map sched max_workers items st).1 = Ok out →
  ∃ ts, P (ts, (pool_map sched max_workers items st).2) ∧
        Forall2 (λ (_ : item) t, ∃ r, t = Finished (Ok r)) items ts ∧
        out = omap article_of ts.
Proof.
  intros Hp. unfold pool_map. destruct (decide (max_workers ≤ 0)); [done|].
  set (p0 := foldl _ _ sched).
  assert (P p0 ∧ length p0.1 = length items) as [Hp0 Hlen0].
  { apply (pool_steps_keep items (λ p, P p ∧ length p.1 = length items)).
    - intros p i [? ?]. split; [by apply P_step|by rewrite pool_step_length].
    - split; [done|]. cbn. by rewrite length_replicate. }
  pose proof (gather_keeps items (λ p, P p ∧ length p.1 = length items)) as Hk.
  specialize (Hk ltac:(intros p i [? ?]; split;
                         [by apply P_step|by rewrite pool_step_length])
                 (seq 0 (length items)) [] p0 (conj Hp0 Hlen0)).
  pose proof (gather_Ok (seq 0 (length items)) [] p0 out Hlen0) as Hg.
  destruct (gather items (seq 0 (length items)) [] p0) as [r [ts st']].
  cbn in *. intros ->. destruct Hk as [HP Hlen].
  destruct Hg as [Hall Hout]; [|done|].
  { apply Forall_forall. intros i Hi%elem_of_seq. lia. }
  exists ts. split_and!; [done| |].
  - apply Forall2_same_length_lookup_2; [done|]. intros i it t Hit Ht.
    eapply Forall_forall in Hall as [r Hr].
    + rewrite Ht in Hr. injection Hr as ->. eauto.
    + apply elem_of_seq. apply lookup_lt_Some in Hit. lia.
  - rewrite Hout. cbn [app].
    pose proof (omap_lookup_seq (λ o, o ≫= article_of) ts 0) as Hom.
    rewrite Nat.sub_0_r, drop_0, Hlen in Hom. rewrite Hom.
    done.
Qed.
End pool_final.

Section pool_invariants.
Context `{Library} `{Network}.
Context (items : list item) (Hitems : NoDup (url_of <$> items)).

Lemma items_url_inj i j it it' :
  items !! i = Some it → items !! j = Some it' → url_of it = url_of it' → i = j.
Proof.
  intros Hi Hj Heq. eapply (NoDup_lookup _ _ _ _ Hitems);
    rewrite list_lookup_fmap; [by rewrite Hi|by rewrite Hj, Heq].
Qed.

(** A step of a task leaves the cache as it is, or writes the entry of
    the address of its item. *)
Lemma task_step_cache it t st :
  _CACHE (task_step it t st).2 = _CACHE st ∨
  ∃ r, _CACHE (task_step it t st).2 = <[url_of it := r]> (_CACHE st).
Proof.
  destruct t as [|s n|s r|r]; cbn; eauto.
  destruct (source_name it); [|by left].
  destruct (_CACHE st !! url_of it); by left.
Qed.

Lemma task_step_cached it t st :
  task_cached it t st →
  task_cached it (task_step it t st).1 (task_step it t st).2.
Proof.
  destruct t as [|s n|s r|r]; cbn [task_step task_cached].
  - intros _. destruct (source_name it) as [s|e] eqn:Hs.
    + destruct (_CACHE st !! url_of it) as [r|] eqn:Hc;
        cbn [task_cached fst snd]; rewrite ?Hs; eauto.
    + cbn [task_cached fst snd]. by rewrite Hs.
  - done.
  - intros Hs. cbn [task_cached fst snd _CACHE]. rewrite Hs. exists r.
    by rewrite lookup_insert_eq.
  - done.
Qed.

Lemma pool_cached_step p i :
  pool_cached items p → pool_cached items (pool_step items p i).
Proof.
  intros Hp. unfold pool_step.
  destruct (items !! i) as [it|] eqn:Hi; [|done].
  destruct (p.1 !! i) as [t|] eqn:Ht; [|done].
  pose proof (task_step_cached it t p.2 (Hp i it t Hi Ht)) as Hown.
  pose proof (task_step_cache it t p.2) as Hcache.
  destruct (task_step it t p.2) as [t' st']. cbn in *.
  intros j it' tj Hj Htj. cbn in *.
  destruct (decide (j = i)) as [->|Hne].
  - rewrite list_lookup_insert_eq in Htj by by eapply lookup_lt_Some.
    by simplify_eq.
  - rewrite list_lookup_insert_ne in Htj by done.
    pose proof (Hp j it' tj Hj Htj) as Hold.
    destruct tj as [|s n|s r|r]; cbn [task_cached] in *; try done.
    destruct (source_name it') as [s|e]; [|done].
    destruct Hold as (art & Hart & ->). exists art. split; [|done].
    destruct Hcache as [->|[r ->]]; [done|].
    rewrite lookup_insert_ne; [done|]. intros Heq. apply Hne.
    by eapply items_url_inj.
Qed.

Context (st0 : state).

Lemma requests_fresh_step p i :
  cache_grows items st0 p ∧ requests_fresh items st0 p →
  cache_grows items st0 (pool_step items p i) ∧
  requests_fresh items st0 (pool_step items p i).
Proof.
  intros [Hg Hr]. split; [by apply cache_grows_step|].
  destruct Hr as (new & Hreq & Hnd & Hnew). unfold pool_step.
  destruct (items !! i) as [it|] eqn:Hi; [|by exists new].
  destruct (p.1 !! i) as [t|] eqn:Ht; [|by exists new].
  pose proof (lookup_lt_Some _ _ _ Ht) as Hlen.
  assert (∀ t' u, t' ≠ Queued → u ∈ new →
            _CACHE st0 !! u = None ∧
            ∃ j it' tj, items !! j = Some it' ∧ url_of it' = u ∧
                        <[i := t']> p.1 !! j = Some tj ∧ tj ≠ Queued) as Hkeep.
  { intros t' u Hq Hu. destruct (Hnew u Hu) as (Hc & j & it' & tj & Hj & Hurl & Htj & Hne).
    split; [done|]. destruct (decide (j = i)) as [->|Hji].
    - exists i, it', t'. rewrite list_lookup_insert_eq by done.
      by split_and!.
    - exists j, it', tj. by rewrite list_lookup_insert_ne. }
  destruct t as [|s n|s r|r]; cbn [task_step].
  - destruct (source_name it) as [s|e].
    + destruct (_CACHE p.2 !! url_of it) as [r|] eqn:Hc.
      * exists new. split_and!; [done..|]. intros u. by apply Hkeep.
      * exists (new ++ [url_of it]). cbn. split_and!.
        -- by rewrite Hreq, app_assoc.
        -- apply NoDup_app. split_and!; [done| |apply NoDup_singleton].
           intros u Hu ->%list_elem_of_singleton.
           destruct (Hnew _ Hu) as (_ & j & it' & tj & Hj & Hurl & Htj & Hne).
           assert (j = i) as -> by by eapply items_url_inj.
           congruence.
        -- intros u [Hu| ->%list_elem_of_singleton]%elem_of_app.
           ++ by apply Hkeep.
           ++ split.
              ** eapply lookup_weaken_None; [done|apply Hg].
              ** exists i, it, (Requesting s (length (requests p.2))).
                 by rewrite list_lookup_insert_eq.
    + exists new. split_and!; [done..|]. intros u. by apply Hkeep.
  - exists new. split_and!; [done..|]. intros u. by apply Hkeep.
  - exists new. split_and!; [done..|]. intros u. by apply Hkeep.
  - exists new. split_and!; [done..|]. intros u. by apply Hkeep.
Qed.

Context (Hcached : ∀ it, it ∈ items → is_Some (_CACHE st0 !! url_of it)).

Lemma pool_idle_step p i :
  pool_idle st0 p → pool_idle st0 (pool_step items p i).
Proof.
  intros [Hst Hall]. unfold pool_step.
  destruct (items !! i) as [it|] eqn:Hi; [|done].
  destruct (p.1 !! i) as [t|] eqn:Ht; [|done].
  pose proof (Forall_lookup_1 _ _ _ _ Hall Ht) as Hfl.
  destruct (Hcached it (list_elem_of_lookup_2 _ _ _ Hi)) as [r Hr].
  rewrite <-Hst in Hr.
  destruct t as [|s n|s r'|r']; cbn [task_step]; try done.
  - destruct (source_name it) as [s|e]; [rewrite Hr|];
      (split; [done|]; cbn; by apply Forall_insert).
  - split; [done|]. cbn. by apply Forall_insert.
Qed.
End pool_invariants.

(** ** The articles and the requests of a run *)

Lemma or_default_nonempty d x : d ≠ "" → or_default d x ≠ "".
Proof. intros Hd. by destruct x as [[|c s]|]. Qed.

Lemma source_name_nonempty it s : source_name it = Ok s → s ≠ "".
Proof.
  unfold source_name. destruct (i_source it) as [[name|[|c t]]|]; try done.
  - intros [= <-]. by apply or_default_nonempty.
  - by intros [= <-].
  - by intros [= <-].
Qed.

Section articles.
Context `{Library} `{Network}.

Lemma enriched_fields it s art :
  let a := enriched it s art in
  let text := or_default
                (or_default (or_default "No Title" (i_title it))
                            (Some (or_default "" (i_description it))))
                (Some (fr_text art)) in
  a_url a = url_of it ∧ a_title a = or_default "No Title" (i_title it) ∧
  a_source a = s ∧ a_text a = Some text ∧ text ≠ "" ∧
  a_summary a = summarizeText text 3 ∧
  a_sentiment a = analyze_sentiment (Some text).
Proof.
  cbn zeta. split_and!; try reflexivity.
  apply or_default_nonempty, or_default_nonempty. by apply or_default_nonempty.
Qed.

Lemma pool_map_nil sched max_workers st :
  0 < max_workers → pool_map sched max_workers [] st = (Ok [], st).
Proof.
  intros Hw. unfold pool_map. rewrite decide_False by lia.
  assert (∀ p : pool, foldl (pool_step []) p sched = p) as ->; [|done].
  induction sched as [|i sched IH]; intros p; [done|]. cbn. apply IH.
Qed.

Lemma getNews_no_headlines sched api_key categories per_category fetch_full
    parallel_workers country st :
  0 < parallel_workers →
  collect_headlines api_key categories per_category country = [] →
  getNews sched api_key categories per_category fetch_full parallel_workers
    country st = (Ok [], st).
Proof.
  intros Hw Hh. rewrite getNews_eq. cbn zeta. rewrite Hh.
  by rewrite pool_map_nil.
Qed.

Lemma offered_nil api_key categories per_category country :
  Forall (λ cat, match gnews_get api_key cat per_category
                         (match country with Some "" => None | c => c end) with
                 | Ok r => api_status r ≠ 200
                 | Raise _ => True
                 end) categories →
  offered api_key categories per_category country = [].
Proof.
  unfold offered. induction 1 as [|cat cats Hcat _ IH]; [done|].
  cbn. rewrite IH, app_nil_r. unfold _gnews_request.
  destruct (gnews_get _ _ _ _) as [r|e]; cbn; [|done].
  by rewrite decide_True.
Qed.
End articles.

Section getNews_more.
Context `{Library} `{Network}.

Lemma headlines_NoDup api_key categories per_category country :
  NoDup (url_of <$> collect_headlines api_key categories per_category country).
Proof. rewrite collect_headlines_fresh. apply fresh_NoDup. Qed.

(** When the block ends well it gives one article for each item, made of
    the item and of the entry the cache holds for its address when the
    block is left. *)
Lemma pool_map_articles sched max_workers items st out :
  NoDup (url_of <$> items) →
  (pool_map sched max_workers items st).1 = Ok out →
  Forall2 (λ it a, ∃ s art,
             source_name it = Ok s ∧
             _CACHE (pool_map sched max_workers items st).2 !! url_of it = Some art ∧
             a = enriched it s art)
          items out.
Proof.
  intros Hnd Hout.
  destruct (pool_map_final items (pool_cached items)
              (pool_cached_step items Hnd) sched max_workers st out)
    as (ts & Hp & Hts & ->); [|done|].
  { intros i it t _ Ht. by apply lookup_replicate in Ht as [-> _]. }
  set (st' := (pool_map sched max_workers items st).2) in *.
  assert (Forall2 (λ it t, task_cached it t st' ∧ ∃ r, t = Finished (Ok r))
                  items ts) as Hall.
  { apply Forall2_same_length_lookup_2; [by eapply Forall2_length|].
    intros i it t Hi Ht. split; [by apply (Hp i it t)|].
    by eapply (Forall2_lookup_lr _ _ _ _ _ _ Hts). }
  revert Hall. generalize st'. clear. intros st' Hall.
  induction Hall as [|it t l ts' [Hc [r ->]] _ IH]; [constructor|].
  cbn [task_cached] in Hc. destruct (source_name it) as [s|e] eqn:Hs; [|done].
  destruct Hc as (art & Hart & [= ->]). cbn [omap list_omap article_of].
  constructor; [eauto|exact IH].
Qed.

Lemma finish_sorted out0 headlines fetch_full :
  length out0 = length headlines →
  finish out0 headlines fetch_full = Ok (sort_articles out0).
Proof.
  intros Hlen. unfold finish, fall_back.
  by destruct out0, headlines.
Qed.

Lemma getNews_articles sched api_key categories per_category fetch_full
    parallel_workers country st out :
  (getNews sched api_key categories per_category fetch_full parallel_workers
     country st).1 = Ok out →
  ∃ arts, out = sort_articles arts ∧
    Forall2 (λ it a, ∃ s art,
               source_name it = Ok s ∧
               _CACHE (getNews sched api_key categories per_category fetch_full
                        parallel_workers country st).2 !! url_of it = Some art ∧
               a = enriched it s art)
            (collect_headlines api_key categories per_category country) arts.
Proof.
  rewrite getNews_eq. cbn zeta.
  set (headlines := collect_headlines _ _ _ _).
  pose proof (pool_map_articles sched parallel_workers headlines st) as Hp.
  destruct (pool_map sched parallel_workers headlines st) as [[out0|e] st'];
    cbn in *; [|done].
  specialize (Hp out0 (headlines_NoDup _ _ _ _) eq_refl).
  rewrite finish_sorted by (symmetry; by eapply Forall2_length).
  intros [= <-]. by exists out0.
Qed.

(** The requests of a run. *)
Lemma getNews_requests sched api_key categories per_category fetch_full
    parallel_workers country st :
  ∃ new,
    requests (getNews sched api_key categories per_category fetch_full
                parallel_workers country st).2 = requests st ++ new ∧
    NoDup new ∧
    ∀ u, u ∈ new →
      _CACHE st !! u = None ∧
      u ∈ url_of <$> collect_headlines api_key categories per_category country.
Proof.
  rewrite getNews_eq. cbn zeta.
  set (headlines := collect_headlines _ _ _ _).
  destruct (pool_map_keeps headlines
              (λ p, cache_grows headlines st p ∧ requests_fresh headlines st p)
              (requests_fresh_step headlines (headlines_NoDup _ _ _ _) st)
              sched parallel_workers st) as (ts & _ & new & Hreq & Hnd & Hnew).
  { split.
    - split; [done|]. cbn. intros i it t _ Ht.
      by apply lookup_replicate in Ht as [-> _].
    - exists []. split_and!; [by rewrite app_nil_r|constructor|].
      by intros u ?%elem_of_nil. }
  exists new. cbn in Hreq.
  assert (requests (pool_map sched parallel_workers headlines st).2
          = requests st ++ new) as Hreq' by done.
  split_and!.
  - by destruct (pool_map _ _ _ st) as [[out|e] st'].
  - done.
  - intros u Hu. destruct (Hnew u Hu) as (Hc & i & it & t & Hi & <- & _).
    split; [done|]. apply list_elem_of_fmap_2. by eapply list_elem_of_lookup_2.
Qed.

(** With every headline in the cache a run leaves the state as it is. *)
Lemma getNews_warm sched api_key categories per_category fetch_full
    parallel_workers country st :
  (∀ it, it ∈ collect_headlines api_key categories per_category country →
         is_Some (_CACHE st !! url_of it)) →
  (getNews sched api_key categories per_category fetch_full parallel_workers
     country st).2 = st.
Proof.
  intros Hall. rewrite getNews_eq. cbn zeta.
  set (headlines := collect_headlines _ _ _ _) in *.
  destruct (pool_map_keeps headlines (pool_idle st)
              (pool_idle_step headlines st Hall)
              sched parallel_workers st) as (ts & Hst & _).
  { split; [done|]. cbn. apply Forall_replicate. done. }
  cbn in Hst. by destruct (pool_map _ _ _ st) as [[out|e] st'].
Qed.
End getNews_more.

(** ** Time zones *)

Section zone_facts.
Context `{TimeZones}.

Lemma digit_plain (c : ascii) :
  Re.is_digit c = true →
  Text.is_space c = false ∧ Text.lower_char c = c ∧ 0 ≤ Re.digit c ≤ 9.
Proof. destruct c as [[] [] [] [] [] [] [] []]; vm_compute; intuition congruence. Qed.

Lemma offset_text_plain sg h1 h2 m1 m2 :
  sg = "+"%char ∨ sg = "-"%char →
  Re.is_digit h1 = true → Re.is_digit h2 = true →
  Re.is_digit m1 = true → Re.is_digit m2 = true →
  let t := offset_text sg h1 h2 m1 m2 in
  Text.lower (Text.strip t) = t ∧ Py.dict_get t _ALIAS = None ∧
  Re.match_offset t = Some (sg, Re.int2 h1 h2, Re.int2 m1 m2).
Proof.
  intros Hsg D1 D2 D3 D4.
  destruct (digit_plain h1 D1) as (S1 & L1 & _).
  destruct (digit_plain h2 D2) as (S2 & L2 & _).
  destruct (digit_plain m1 D3) as (S3 & L3 & _).
  destruct (digit_plain m2 D4) as (S4 & L4 & _).
  cbn zeta. unfold offset_text. split_and!.
  - assert (Text.is_space sg = false) as S0 by (destruct Hsg as [-> | ->]; done).
    assert (Text.lower_char sg = sg) as L0 by (destruct Hsg as [-> | ->]; done).
    unfold Text.strip. cbn [Text.lstrip]. rewrite S0.
    rewrite !rstrip_cons. cbn [Text.rstrip]. rewrite S4.
    cbn [Text.lower]. by rewrite L0, L1, L2, L3, L4.
  - destruct Hsg as [-> | ->]; reflexivity.
  - unfold Re.match_offset. rewrite D1, D2, D3, D4.
    destruct Hsg as [-> | ->]; reflexivity.
Qed.

Lemma timezone_spec (minutes : Z) :
  (-1440 < minutes < 1440 → timezone minutes = Ok (FixedOffset minutes)) ∧
  (¬ (-1440 < minutes < 1440) →
   timezone minutes = Raise (ValueError (timezone_error minutes))).
Proof. unfold timezone. split; intros Hm; [by rewrite decide_True|by rewrite decide_False]. Qed.

(** A text [±hh:mm] that is no key of a zone is read as an offset. *)
Lemma resolve_timezone_offset sg h1 h2 m1 m2 :
  sg = "+"%char ∨ sg = "-"%char →
  Re.is_digit h1 = true → Re.is_digit h2 = true →
  Re.is_digit m1 = true → Re.is_digit m2 = true →
  (∀ zone_info, ZoneInfo = Some zone_info →
     ∃ e, zone_info (offset_text sg h1 h2 m1 m2) = Raise e) →
  resolve_timezone (Some (offset_text sg h1 h2 m1 m2)) =
    timezone ((if Ascii.eqb sg "+" then 1 else -1)
              * (60 * Re.int2 h1 h2 + Re.int2 m1 m2)).
Proof.
  intros Hsg D1 D2 D3 D4 Hz.
  destruct (offset_text_plain sg h1 h2 m1 m2 Hsg D1 D2 D3 D4) as (Hl & Ha & Hm).
  unfold resolve_timezone. cbn zeta in *. rewrite Hl, Ha. cbn [default].
  change (from_option id ?d None) with d. rewrite Hm.
  assert (offset_text sg h1 h2 m1 m2 ≠ "") as Hne by done.
  destruct (offset_text sg h1 h2 m1 m2) as [|c t] eqn:Ht; [done|].
  destruct ZoneInfo as [zone_info|]; [|done].
  destruct (Hz zone_info eq_refl) as [e ->]. done.
Qed.

(** When the data base, if there is one, knows ["UTC"] and
    ["Asia/Singapore"], the only exception is that of an offset of 24
    hours or more. *)
Lemma resolve_timezone_raises tz_pref e :
  (∀ zone_info, ZoneInfo = Some zone_info →
     (∃ tz, zone_info "UTC" = Ok tz) ∧ (∃ tz, zone_info "Asia/Singapore" = Ok tz)) →
  resolve_timezone tz_pref = Raise e →
  ∃ sg hh mm rest,
    tz_pref = Some rest ∧
    Re.match_offset (default rest (Py.dict_get (Text.lower (Text.strip rest)) _ALIAS))
      = Some (sg, hh, mm) ∧
    1440 ≤ 60 * hh + mm ∧
    e = ValueError (timezone_error
                      ((if Ascii.eqb sg "+" then 1 else -1) * (60 * hh + mm))).
Proof.
  intros Hz. unfold resolve_timezone.
  assert (match ZoneInfo with
          | Some zone_info => zone_info "Asia/Singapore"
          | None => timezone (8 * 60)
          end ≠ Raise e) as Hsgp.
  { destruct ZoneInfo as [zone_info|]; [|done].
    destruct (Hz zone_info eq_refl) as [_ [tz ->]]. done. }
  assert (match ZoneInfo with
          | Some zone_info => zone_info "UTC"
          | None => Ok (FixedOffset 0)
          end ≠ Raise e) as Hutc.
  { destruct ZoneInfo as [zone_info|]; [|done].
    destruct (Hz zone_info eq_refl) as [[tz ->] _]. done. }
  destruct tz_pref as [ [|c t]|]; [done| |done].
  cbn zeta. set (s := default _ _).
  assert (match Re.match_offset s with
          | Some (sg, hh, mm) =>
              timezone ((if Ascii.eqb sg "+" then 1 else -1) * (60 * hh + mm))
          | None =>
              match ZoneInfo with
              | Some zone_info => zone_info "UTC"
              | None => Ok (FixedOffset 0)
              end
          end = Raise e →
          ∃ sg hh mm rest,
            Some (String c t) = Some rest ∧
            Re.match_offset
              (default rest (Py.dict_get (Text.lower (Text.strip rest)) _ALIAS))
              = Some (sg, hh, mm) ∧
            1440 ≤ 60 * hh + mm ∧
            e = ValueError (timezone_error
                   ((if Ascii.eqb sg "+" then 1 else -1) * (60 * hh + mm)))) as Hoff.
  { destruct (Re.match_offset s) as [[[sg hh] mm]|] eqn:Hm; [|done].
    unfold timezone. case_decide as Hr; [done|]. intros [= <-].
    exists sg, hh, mm, (String c t). split_and!; [done..| |done].
    apply dec_stable. intros Hlt. apply Hr.
    assert (0 ≤ 60 * hh + mm).
    { revert Hm. unfold Re.match_offset.
      destruct s as [|a0 [|h1 [|h2 [|a1 [|m1 [|m2 rest]]]]]]; try done.
      destruct (Ascii.eqb a0 "+" || Ascii.eqb a0 "-"); [|done].
      destruct (Re.is_digit h1) eqn:D1; [|done].
      destruct (Re.is_digit h2) eqn:D2; [|done].
      destruct (Ascii.eqb a1 ":"); [|done].
      destruct (Re.is_digit m1) eqn:D3; [|done].
      destruct (Re.is_digit m2) eqn:D4; [|done].
      destruct (_ || _); [|done]. intros [= _ <- <-].
      destruct (digit_plain h1 D1) as (_ & _ & ?).
      destruct (digit_plain h2 D2) as (_ & _ & ?).
      destruct (digit_plain m1 D3) as (_ & _ & ?).
      destruct (digit_plain m2 D4) as (_ & _ & ?).
      unfold Re.int2. lia. }
    destruct (Ascii.eqb sg "+"); lia. }
  destruct ZoneInfo as [zone_info|]; [|done].
  by destruct (zone_info s).
Qed.
End zone_facts.

(** ** The mail *)

Section esc_facts.
Import Fmt.

Lemma replace_char_app old new a b :
  replace_char old new (a +:+ b) = replace_char old new a +:+ replace_char old new b.
Proof.
  induction a as [|c a IH]; [done|]. rewrite string_app_cons. cbn.
  rewrite IH. destruct (Ascii.eqb c old); [|done]. by rewrite string_app_assoc.
Qed.

Lemma esc_cons c s : esc (String c s) = esc_char c +:+ esc s.
Proof.
  unfold esc, esc_char. cbn [replace_char].
  destruct (Ascii.eqb c "&") eqn:Ha.
  { by rewrite !replace_char_app. }
  cbn [replace_char]. destruct (Ascii.eqb c "<") eqn:Hl.
  { by rewrite !replace_char_app. }
  cbn [replace_char]. by destruct (Ascii.eqb c ">").
Qed.

Lemma esc_char_cases c :
  (c = "&"%char ∧ esc_char c = "&amp;") ∨ (c = "<"%char ∧ esc_char c = "&lt;") ∨
  (c = ">"%char ∧ esc_char c = "&gt;") ∨
  (c ≠ "&"%char ∧ c ≠ "<"%char ∧ c ≠ ">"%char ∧ esc_char c = String c "").
Proof.
  unfold esc_char.
  destruct (Ascii.eqb_spec c "&") as [->|?]; [by left|].
  destruct (Ascii.eqb_spec c "<") as [->|?]; [by right; left|].
  destruct (Ascii.eqb_spec c ">") as [->|?]; [by right; right; left|].
  by right; right; right.
Qed.

Lemma esc_no_angle s :
  Text.has_char "<" (esc s) = false ∧ Text.has_char ">" (esc s) = false.
Proof.
  induction s as [|c s [IH1 IH2]]; [done|]. rewrite esc_cons, !has_char_app, IH1, IH2.
  destruct (esc_char_cases c) as [[-> ->]|[[-> ->]|[[-> ->]|(_ & Hl & Hg & ->)]]];
    try done.
  cbn. rewrite !orb_false_r. split; by apply Ascii.eqb_neq.
Qed.

Lemma esc_inj s1 s2 : esc s1 = esc s2 → s1 = s2.
Proof.
  revert s2. induction s1 as [|c1 s1 IH]; intros [|c2 s2].
  - done.
  - rewrite esc_cons.
    by destruct (esc_char_cases c2) as [[_ ->]|[[_ ->]|[[_ ->]|(_ & _ & _ & ->)]]].
  - rewrite esc_cons.
    by destruct (esc_char_cases c1) as [[_ ->]|[[_ ->]|[[_ ->]|(_ & _ & _ & ->)]]].
  - rewrite !esc_cons.
    destruct (esc_char_cases c1) as [[-> ->]|[[-> ->]|[[-> ->]|(A1 & L1 & G1 & ->)]]];
    destruct (esc_char_cases c2) as [[-> ->]|[[-> ->]|[[-> ->]|(A2 & L2 & G2 & ->)]]];
      cbn; intros Heq; simplify_eq; f_equal; by apply IH.
Qed.

Lemma esc_plain s :
  Text.has_char "&" s = false → Text.has_char "<" s = false →
  Text.has_char ">" s = false → esc s = s.
Proof.
  induction s as [|c s IH]; [done|]. cbn [Text.has_char].
  intros [Ha ?]%orb_false_iff [Hl ?]%orb_false_iff [Hg ?]%orb_false_iff.
  rewrite esc_cons, IH by done. unfold esc_char. by rewrite Ha, Hl, Hg.
Qed.
End esc_facts.

Section rstrip_facts.
Lemma rstrip_blank (ws : string) : blank ws → Text.rstrip ws = "".
Proof.
  unfold blank. induction ws as [|c ws IH]; [done|]. cbn [chars list_ascii_of_string].
  intros [Hc Hws]%Forall_cons. rewrite rstrip_cons, IH by done. by rewrite Hc.
Qed.

Lemma rstrip_app_blank (s ws : string) :
  blank ws → Text.rstrip (s +:+ ws) = Text.rstrip s.
Proof.
  intros Hws. induction s as [|c s IH].
  - by apply rstrip_blank.
  - by rewrite string_app_cons, !rstrip_cons, IH.
Qed.
End rstrip_facts.

Section mail_facts.
Context `{Library} `{Network} `{TimeZones} `{Mail}.
Import Fmt.

Lemma parse_params_categories params : (parse_params params).2 ≠ [].
Proof.
  unfold parse_params. destruct (default [] params) as [|c rest]; [done|].
  destruct (decide _); cbn; [|done]. by destruct rest.
Qed.

Lemma parse_params_country params c :
  (parse_params params).1 = Some c →
  String.length c = 2%nat ∧ Text.lower c = c ∧
  ∃ x rest, params = Some (x :: rest) ∧ c = Text.lower x.
Proof.
  unfold parse_params. destruct params as [[|x rest]|]; cbn; try done.
  destruct (decide _) as [Hlen|]; cbn; [|done]. intros [= <-].
  destruct x as [|a [|b [|? ?]]]; try done. split_and!; [done| |eauto].
  cbn. f_equal; [|f_equal].
  - clear. by destruct a as [[] [] [] [] [] [] [] []].
  - clear. by destruct b as [[] [] [] [] [] [] [] []].
Qed.

Lemma smtp_session_spec n msg :
  (smtp_session n msg).1 = session_reaches_send n ∧
  returned (smtp_session n msg).2 = session_succeeds n msg.
Proof.
  unfold smtp_session, session_succeeds, session_reaches_send.
  destruct (smtp_connect n) as [[]|e1]; [|done].
  destruct (smtp_login n) as [[]|e2]; cbn.
  - destruct (smtp_quit n) as [[]|e4]; [|by rewrite andb_false_r].
    by rewrite andb_true_r.
  - by destruct (smtp_quit n).
Qed.

(** What [sendMailSingle] does when the headers are taken. *)
Lemma sendMailSingle_spec
    (recipient name subject body : string) (html : option string) (w : world)
    (Hto : set_header "To" recipient = Ok ())
    (Hsubject : set_header "Subject" subject = Ok ()) :
  let r := sendMailSingle recipient name subject body html w in
  let n := smtp_sessions w in
  ∃ msg,
    m_to msg = recipient ∧ m_subject msg = subject ∧
    m_text msg = "Hello " +:+ name +:+ "," +:+ Fmt.nl +:+ Fmt.nl +:+
                 Text.rstrip body +:+ Fmt.nl +:+ Fmt.nl +:+
                 "This email was sent by Slider Bot." ∧
    (m_html msg = None ↔ html = None ∨ html = Some "") ∧
    process r.2 = process w ∧ clock_reads r.2 = clock_reads w ∧
    smtp_sessions r.2 = S n ∧
    smtp_log r.2 = (if session_reaches_send n then smtp_log w ++ [msg]
                    else smtp_log w) ∧
    r.1 = Ok (session_succeeds n msg) ∧
    (session_succeeds n msg = true → stdout r.2 = stdout w) ∧
    (session_succeeds n msg = false →
     ∃ e, stdout r.2 = stdout w ++ ["Failed to send email to " +:+ recipient
                                    +:+ ": " +:+ exn_str e]) ∧
    (∀ ws, blank ws →
       sendMailSingle recipient name subject (body +:+ ws) html w = r).
Proof.
  cbn zeta. unfold sendMailSingle. rewrite Hto. cbn [mbind outcome_bind].
  rewrite Hsubject. cbn zeta.
  match goal with
  | |- context [smtp_session _ ?m] => set (msg := m)
  end.
  exists msg. destruct (smtp_session_spec (smtp_sessions w) msg) as [Hcalled Hres].
  destruct (smtp_session (smtp_sessions w) msg) as [called res] eqn:Hs.
  cbn [fst snd] in Hcalled, Hres. subst called.
  split_and!.
  - done.
  - done.
  - unfold msg, Fmt.fstring. cbn [m_text foldr]. by rewrite !string_app_nil_r.
  - unfold msg. cbn [m_html]. destruct html as [[|c h]|]; naive_solver.
  - by destruct res.
  - by destruct res.
  - by destruct res.
  - by destruct res.
  - rewrite <-Hres. by destruct res as [[]|e].
  - rewrite <-Hres. by destruct res as [[]|e].
  - rewrite <-Hres. destruct res as [[]|e]; [done|]. intros _. exists e.
    cbn [snd stdout]. unfold Fmt.fstring. cbn [foldr].
    by rewrite string_app_nil_r.
  - intros ws Hws. rewrite rstrip_app_blank by done. fold msg. by rewrite Hs.
Qed.

End mail_facts.

(** ** The parts of a mail *)

Section extract_facts.

Lemma first_body_cons ctype part parts :
  first_body ctype (part :: parts) =
    if decide (body_part ctype part ∧ content_of part ≠ "")
    then content_of part else first_body ctype parts.
Proof.
  unfold first_body. rewrite filter_cons.
  destruct (decide (body_part ctype part)) as [Hb|Hb].
  - rewrite fmap_cons, filter_cons. destruct (decide (content_of part ≠ "")).
    + by rewrite decide_True.
    + rewrite decide_False; [done|tauto].
  - rewrite decide_False; [done|tauto].
Qed.

Lemma disposition_spec part :
  disposition part =
    match content_disposition part with
    | Some HeaderObject =>
        Raise (AttributeError "'Header' object has no attribute 'lower'")
    | _ => Ok (disposition_text part)
    end.
Proof.
  unfold disposition, disposition_text. by destruct (content_disposition part) as [[s|]|].
Qed.

Lemma extract_part_spec t h part :
  extract_part (t, h) part =
    if decide (header_disposition part)
    then Raise (AttributeError "'Header' object has no attribute 'lower'")
    else Ok (if decide (t = "" ∧ body_part "text/plain" part)
             then content_of part else t,
             if decide (h = "" ∧ body_part "text/html" part)
             then content_of part else h).
Proof.
  unfold extract_part.
  destruct (decide (content_maintype part = "multipart")) as [Hm|Hm].
  { rewrite (decide_False (P := header_disposition part))
      by (unfold header_disposition; tauto).
    rewrite !decide_False; [done|..]; by intros [_ (? & _)]. }
  rewrite disposition_spec.
  destruct (decide (content_disposition part = Some HeaderObject)) as [Hd|Hd].
  { rewrite Hd. by rewrite (decide_True (P := header_disposition part)). }
  rewrite (decide_False (P := header_disposition part))
    by (unfold header_disposition; tauto).
  assert (match content_disposition part with
          | Some HeaderObject =>
              Raise (AttributeError "'Header' object has no attribute 'lower'")
          | _ => Ok (disposition_text part)
          end = Ok (disposition_text part)) as ->.
  { by destruct (content_disposition part) as [[s|]|]. }
  cbn [mbind outcome_bind].
  destruct (Text.contains "attachment" (disposition_text part)) eqn:Ha.
  { rewrite !decide_False; [done|..]; intros [_ (_ & Hc & _)]; congruence. }
  destruct (decide (content_type part = "text/plain" ∧ t = "")) as [[Hp ->]|Hp].
  { rewrite decide_True by done. rewrite decide_False; [done|].
    intros [_ (_ & _ & Hc)]. congruence. }
  rewrite (decide_False (P := t = "" ∧ _)) by (intros [? (_ & _ & ?)]; tauto).
  destruct (decide (content_type part = "text/html" ∧ h = "")) as [[Hh ->]|Hh].
  { by rewrite decide_True. }
  rewrite decide_False; [done|]. intros [? (_ & _ & ?)]. tauto.
Qed.

Lemma first_body_step ctype t part parts :
  (if decide ((if decide (t = "" ∧ body_part ctype part)
               then content_of part else t) = "")
   then first_body ctype parts
   else if decide (t = "" ∧ body_part ctype part) then content_of part else t)
  = if decide (t = "") then first_body ctype (part :: parts) else t.
Proof.
  rewrite first_body_cons.
  destruct (decide (t = "")) as [->|Ht].
  - destruct (decide (body_part ctype part)) as [Hb|Hb].
    + rewrite (decide_True (P := "" = "" ∧ _)) by done.
      destruct (decide (content_of part = "")) as [Hc|Hc].
      * rewrite decide_False; [done|tauto].
      * by rewrite decide_True.
    + rewrite (decide_False (P := "" = "" ∧ _)) by tauto.
      rewrite decide_True by done. rewrite decide_False; [done|tauto].
  - rewrite (decide_False (P := t = "" ∧ _)) by tauto.
    by rewrite decide_False.
Qed.

(** Without a [Header] among the dispositions the loop returns the first
    bodies. *)
Lemma extract_parts t h parts :
  Forall (λ part, ¬ header_disposition part) parts →
  for_each extract_part (t, h) parts =
    Ok (if decide (t = "") then first_body "text/plain" parts else t,
        if decide (h = "") then first_body "text/html" parts else h).
Proof.
  intros Hparts. revert t h.
  induction Hparts as [|part parts Hpart _ IH]; intros t h; cbn [for_each].
  - unfold first_body. cbn. by repeat case_decide; subst.
  - rewrite extract_part_spec, decide_False by done. rewrite IH.
    by rewrite !first_body_step.
Qed.

(** With one the loop raises, whatever it has found before. *)
Lemma extract_parts_raise t h parts :
  Exists header_disposition parts →
  for_each extract_part (t, h) parts =
    Raise (AttributeError "'Header' object has no attribute 'lower'").
Proof.
  intros Hparts. revert t h.
  induction parts as [|part parts IH]; intros t h; [by apply Exists_nil in Hparts|].
  cbn [for_each]. rewrite extract_part_spec.
  destruct (decide (header_disposition part)) as [Hd|Hd]; [done|].
  apply Exists_cons in Hparts as [?|Hparts]; [done|]. by apply IH.
Qed.

End extract_facts.

(** ** The text of a page *)

Section squeeze_facts.
Import Html.










(** *** No tag is left *)

Lemma loose_cons c t :
  loose (String c t) ↔
  (c = "<"%char →
   Text.starts_with (Ascii.eqb ">") t = true ∨ Text.has_char ">" t = false) ∧
  loose t.
Proof. done. Qed.









End squeeze_facts.

(** * The properties of the specification *)

(** C1, as stated, fails on a text with a tag: the sentence of the summary
    has lost the tag and is no stretch of the text. *)
Lemma summarizeText_markup_counterexample :
  ¬ verbatim_summary "I <b>really</b> like cats." 3.
Proof.
  intros (sel & Hjoin & _ & Hsub & Hall).
  assert (_fast_sentences "I <b>really</b> like cats." = ["I really like cats."])
    as Hs by (by vm_compute).
  assert (summarizeText "I <b>really</b> like cats." 3 = "I really like cats.")
    as Ht by (by vm_compute).
  rewrite Hs in Hsub. rewrite Ht in Hjoin.
  apply sublist_cons_r in Hsub as [->%sublist_nil_r|(l & -> & ->%sublist_nil_r)].
  - discriminate Hjoin.
  - apply Forall_cons in Hall as [Hc _]. vm_compute in Hc. discriminate Hc.
Qed.

(** C1.  For [n ≥ 0] the summary is the join, with single spaces, of at
    most [n] sentences of the list into which the text is split; they come
    in the order of that list; each is a stretch of the text once its tags
    are taken out and its entities unescaped, hence of the text itself when
    it has neither [<] nor [&]; and of two scored sentences, the one that
    comes first and has no lower score is in the summary when the other
    is. *)
Theorem summarizeText_extractive `{Library} (text : string) (n : Z)
    (Hn : 0 ≤ n) :
  let sel := summary_sentences text n in
  summarizeText text n = Py.join " " sel ∧
  (length sel ≤ Z.to_nat n)%nat ∧
  sel `sublist_of` _fast_sentences text ∧
  Forall (λ s, infix_of s (html_unescape (Text.strip_tags text))) sel ∧
  (Text.has_char "<" text = false → Text.has_char "&" text = false →
   Forall (λ s, Text.contains s text = true) sel) ∧
  (∀ s1 s2 x1 x2 i j,
     Py.dict_get s1 (text_scores text) = Some x1 →
     Py.dict_get s2 (text_scores text) = Some x2 →
     Py.index s1 (_fast_sentences text) = Some i →
     Py.index s2 (_fast_sentences text) = Some j →
     (i < j)%nat → f_lt x1 x2 = false →
     s2 ∈ sel → s1 ∈ sel).
Proof.
  cbn zeta. pose proof (summary_sublist text n) as Hsub.
  split_and!.
  - done.
  - by apply summary_length.
  - done.
  - eapply Forall_forall. intros s Hs.
    pose proof (fast_sentences_infix text) as Hall.
    eapply Forall_forall in Hall; [done|]. by eapply elem_of_sublist.
  - intros Hlt Hamp. eapply Forall_forall. intros s Hs.
    pose proof (fast_sentences_plain text Hlt Hamp) as Hall.
    eapply Forall_forall in Hall; [done|]. by eapply elem_of_sublist.
  - intros s1 s2 x1 x2 i j. apply summary_ties.
Qed.

(** Two sentences tie; with room for one, the first is taken. *)
Lemma summarizeText_extractive_witness :
  summary_sentences "red cat ran. red dog ran. blue bird sat." 1
    `sublist_of` _fast_sentences "red cat ran. red dog ran. blue bird sat." ∧
  summarizeText "red cat ran. red dog ran. blue bird sat." 1 = "red cat ran.".
Proof.
  split.
  - exact (proj1 (proj2 (proj2
      (summarizeText_extractive "red cat ran. red dog ran. blue bird sat." 1
         ltac:(lia))))).
  - by vm_compute.
Defined.



(** C3. The result of a call of [fetchArticle] is in the cache when the
    call returns; every later call for the same address, whatever calls
    come in between, returns that result and leaves the state as it is, so
    it sends no request and writes nothing; an entry of the cache is never
    changed by later calls, nor by a run of [getNews] under any schedule
    of its pool; and from an empty cache no address is ever requested
    twice. *)
Theorem fetchArticle_cached `{Library} `{Network} (url : string) (st : state) :
  ∃ r, fetchArticle url st = (Ok r, (fetchArticle url st).2) ∧
    _CACHE (fetchArticle url st).2 !! url = Some r ∧
    (∀ later,
       let st2 := fetch_each later (fetchArticle url st).2 in
       fetchArticle url st2 = (Ok r, st2)) ∧
    (∀ later u v,
       _CACHE st !! u = Some v → _CACHE (fetch_each later st) !! u = Some v) ∧
    (∀ sched api_key categories per_category fetch_full parallel_workers
       country u v,
       _CACHE st !! u = Some v →
       _CACHE (getNews sched api_key categories per_category fetch_full
                parallel_workers country st).2 !! u = Some v) ∧
    (∀ urls, NoDup (requests (fetch_each urls (State ∅ [])))).
Proof.
  destruct (fetchArticle_stores url st) as (r & Hr & Hc).
  exists r. split_and!; [done..| | | |].
  - intros later st2. apply fetchArticle_hit. by apply fetch_each_keeps.
  - intros later u v. apply fetch_each_keeps.
  - intros sched api_key categories per_category fetch_full parallel_workers
      country u v Hu.
    eapply lookup_weaken; [done|]. apply getNews_cache_grows.
  - intros urls. apply fetch_each_requests; cbn; [|constructor].
    by intros u ?%elem_of_nil.
Qed.

(** A second call is served from the cache and sends no request. *)
Example fetchArticle_second_call :
  let st1 := (fetchArticle "http://a" (State ∅ [])).2 in
  fetchArticle "http://a" st1 = (Ok (FetchResult "Red cat ran home." None), st1) ∧
  requests st1 = ["http://a"] ∧
  (fetchArticle "http://b" st1).1 = Ok empty_result ∧
  (fetchArticle "http://nowhere" st1).1 = Ok empty_result.
Proof. vm_compute. done. Qed.


(** Two categories share an address, a third fails: each address comes
    once, in the order met. *)
Example collect_headlines_example :
  url_of <$> collect_headlines "key" ["general"; "sports"; "business"] 8 None
  = ["http://a"; "http://b"; "http://c"].
Proof. by vm_compute. Qed.

(** C5. The label of [analyze_sentiment] is ["positive"] exactly when the
    compound score is at least 0.05, ["negative"] exactly when it is at most
    -0.05 and ["neutral"] exactly when it is neither; the scores 0.05, -0.05
    and 0.0 give positive, negative and neutral; and a text that is absent
    or empty, or an analyzer that is absent, gives exactly
    [{"compound": 0.0, "label": "neutral"}]. *)
Theorem analyze_sentiment_labels `{Library} :
  (∀ text, text = None ∨ text = Some "" ∨ _VADER_SIA = None →
     analyze_sentiment text = neutral) ∧
  (∀ t polarity_scores, t ≠ "" → _VADER_SIA = Some polarity_scores →
     let comp :=
       default f_zero (polarity_scores (substring 0 5000 t) !! "compound") in
     let label := analyze_sentiment (Some t) !! "label" in
     (label = Some (SLabel "positive") ↔ f_le f_pos_005 comp = true) ∧
     (label = Some (SLabel "negative") ↔ f_le comp f_neg_005 = true) ∧
     (label = Some (SLabel "neutral") ↔
        f_le f_pos_005 comp = false ∧ f_le comp f_neg_005 = false)) ∧
  label_of f_pos_005 = "positive" ∧
  label_of f_neg_005 = "negative" ∧
  label_of f_zero = "neutral".
Proof.
  split_and!.
  - intros text Htext. unfold analyze_sentiment.
    destruct text as [ [ | c t] | ]; try done.
    destruct Htext as [?|[?|Hv]]; [done..|by rewrite Hv].
  - intros t ps Ht Hv. cbn zeta.
    rewrite (analyze_sentiment_scored t ps Ht Hv), lookup_insert_eq.
    rewrite <-label_of_positive, <-label_of_negative, <-label_of_neutral.
    split_and!; (split; [by intros [= ->] | by intros ->]).
  - apply label_of_positive, f_le_refl.
  - apply label_of_negative, f_le_refl.
  - apply label_of_neutral. split; [apply f_zero_lt_pos | apply f_neg_lt_zero].
Qed.

(** With the analyzer of the examples, a long text is positive and a
    short one negative. *)
Example analyze_sentiment_runs :
  @analyze_sentiment _ example_library_vader (Some "a fine and sunny day") !! "label"
    = Some (SLabel "positive") ∧
  @analyze_sentiment _ example_library_vader (Some "bad") !! "label"
    = Some (SLabel "negative") ∧
  @analyze_sentiment _ example_library_vader (Some "") = neutral.
Proof. split_and!; vm_compute; reflexivity. Qed.

(** C6.  Step 4 of [getNews], the fall-back to the headlines, is never
    taken: whatever list the pool returns, step 4 leaves it as it is,
    since the pool gives one article for each headline or raises.  So a
    list that [getNews] returns holds one article for each headline,
    however many there are, and each is the record of a task of the pool,
    with a text that is not empty and the summary and the sentiment of
    this text: no record is made from the headline alone.  And when the
    task of a headline fails, [getNews] returns nothing: it raises, under
    every schedule.  So on one headline whose source is a bare string,
    where headlines exist and no task gives a result, [getNews] raises
    [AttributeError] under every schedule and from every state, and the
    record of the headline is not returned. *)
Theorem getNews_fall_back_unreachable :
  (∀ `{Library} `{Network} (sched : list nat) (api_key : string)
     (categories : list string) (per_category fetch_full parallel_workers : Z)
     (country : option string) (st : state),
     let headlines := collect_headlines api_key categories per_category country in
     let r := (getNews sched api_key categories per_category fetch_full
                 parallel_workers country st).1 in
     (∀ out0, (pool_map sched parallel_workers headlines st).1 = Ok out0 →
        length out0 = length headlines ∧
        fall_back out0 headlines fetch_full = Ok out0) ∧
     (∀ out, r = Ok out →
        length out = length headlines ∧
        Forall (λ a, ∃ text, a_text a = Some text ∧ text ≠ "" ∧
                             a_summary a = summarizeText text 3 ∧
                             a_sentiment a = analyze_sentiment (Some text))
               out) ∧
     ((∃ it e, it ∈ headlines ∧ source_name it = Raise e) → ∃ e, r = Raise e)) ∧
  (∀ (sched : list nat) (st : state),
     @collect_headlines lone_bare_source_network "key" ["general"] 8 None
       = [example_item "http://b" "Dogs" (SourceText "BBC")] ∧
     (@getNews _ example_library lone_bare_source_network
        sched "key" ["general"] 8 12 12 None st).1
       = Raise (AttributeError "'str' object has no attribute 'get'")).
Proof.
  split.
  - intros F L N sched api_key categories per_category fetch_full
      parallel_workers country st. cbn zeta. split_and!.
    + intros out0 Hout0.
      assert (0 < parallel_workers) as Hw.
      { destruct (decide (parallel_workers ≤ 0)) as [Hle|]; [|lia].
        unfold pool_map in Hout0. by rewrite decide_True in Hout0. }
      pose proof (pool_map_length _ _ _ _ _ Hw Hout0) as Hlen.
      split; [done|]. unfold fall_back.
      destruct out0 as [|a out0]; [|done].
      by destruct (collect_headlines _ _ _ _).
    + intros out Hout.
      destruct (getNews_articles _ _ _ _ _ _ _ _ _ Hout) as (arts & -> & Hall).
      rewrite sort_articles_perm. split.
      * symmetry. by eapply Forall2_length.
      * apply Forall_forall. intros a [i Ha]%list_elem_of_lookup_1.
        destruct (Forall2_lookup_r _ _ _ _ _ Hall Ha)
          as (it & _ & s & art & _ & _ & ->).
        destruct (enriched_fields it s art) as (_ & _ & _ & Ht & Hne & Hsum & Hsen).
        eauto.
    + intros (it & e & [i Hit]%list_elem_of_lookup_1 & He).
      destruct (getNews _ _ _ _ _ _ _ st).1 as [out|e'] eqn:Hout; [|by eexists].
      destruct (getNews_articles _ _ _ _ _ _ _ _ _ Hout) as (arts & _ & Hall).
      destruct (Forall2_lookup_l _ _ _ _ _ Hall Hit) as (a & _ & s & _ & Hs & _).
      congruence.
  - intros sched st. split; [by vm_compute|].
    eapply (@getNews_raises _ example_library lone_bare_source_network)
      with (l1 := []); [done|by vm_compute|constructor|done].
Qed.

(** C7. [fetchArticle] returns a result, it raises nothing: when the
    request raises, when its final response has a status other than 200 and
    when the extraction from the page raises, the result is
    [{"text": "", "image": None}]. *)
Theorem fetchArticle_never_raises `{Network} (url : string) (st : state) :
  ∃ r, (fetchArticle url st).1 = Ok r ∧
    (_CACHE st !! url = None →
     let answer := session_get (length (requests st)) url in
     (∀ e, answer = Raise e → r = empty_result) ∧
     (∀ resp, answer = Ok resp → status_code resp ≠ 200 → r = empty_result) ∧
     (∀ resp e, answer = Ok resp →
        _extract_article_text (response_text resp) = Raise e → r = empty_result)).
Proof.
  destruct (_CACHE st !! url) as [r|] eqn:Hc.
  - exists r. by rewrite (fetchArticle_hit _ _ _ Hc).
  - rewrite (fetchArticle_miss _ _ Hc). eexists. split; [done|].
    intros _. cbn zeta. split_and!.
    + by intros e ->.
    + intros resp -> Hs. cbn. by rewrite decide_True.
    + intros resp e -> He. cbn. rewrite He. by case_decide.
Qed.

(** C8.  On three headlines of which the second has a bare string as its
    source, the task of the second raises [AttributeError], and [getNews]
    raises it in its turn, under every schedule and from every state: the
    articles of the two other headlines are lost with it. *)
Theorem getNews_task_exception_propagates (sched : list nat) (st : state) :
  (@getNews _ example_library bare_source_network
     sched "key" ["general"] 8 12 12 None st).1
  = Raise (AttributeError "'str' object has no attribute 'get'").
Proof.
  eapply (@getNews_raises _ example_library bare_source_network)
    with (l1 := [example_item "http://a" "Cats" (SourceObject (Some "Zoo"))]);
    [done|by vm_compute|..|done].
  repeat constructor. by eexists.
Qed.

(** C9.  A request with the six required fields is answered with the
    status 500 and the message of a [TypeError], whatever the body of
    [fetch_and_email_news] would do: the call of [send_news] names
    parameters the function does not have. *)
Theorem send_news_complete_request_fails
    (body : list (string * string) → outcome bool) :
  App.send_news body complete_request =
    App.JsonError 500
      "fetch_and_email_news() got an unexpected keyword argument 'email'".
Proof.
  apply send_news_all_fields. intros k Hk.
  unfold App.required_keys in Hk.
  repeat (apply elem_of_cons in Hk as [->|Hk]; [by vm_compute; eexists|]).
  by apply elem_of_nil in Hk.
Qed.

(** A request that lacks a field is answered with the status 400. *)
Example send_news_incomplete_request
    (body : list (string * string) → outcome bool) :
  App.send_news body (delete "api_key" complete_request) =
    App.JsonError 400 "Missing required fields".
Proof. apply (send_news_missing body _ "api_key"); [set_solver|done]. Qed.

(** C10, as stated, fails on a text whose sentences have fewer than three
    content words: no sentence is scored and the first sentences are
    returned as they are, the repeated one twice. *)
Lemma summarizeText_duplicate_counterexample :
  summarizeText "the big cat. the big cat." 3 = "the big cat. the big cat." ∧
  ¬ NoDup (summary_sentences "the big cat. the big cat." 3).
Proof.
  split; [by vm_compute|].
  assert (summary_sentences "the big cat. the big cat." 3
          = ["the big cat."; "the big cat."]) as -> by (by vm_compute).
  intros [Hd _]%NoDup_cons. apply Hd. left.
Qed.

(** C10.  When the text has a content word and a sentence of three
    content words or more, so that the sentences are ranked by their
    scores, no sentence comes twice in the summary. *)
Theorem summarizeText_no_duplicates `{Library} (text : string) (n : Z)
    (Hwords : _fast_words text ≠ [])
    (Hscored : text_scores text ≠ []) :
  NoDup (summary_sentences text n) ∧
  summarizeText text n = Py.join " " (summary_sentences text n).
Proof. split; [by apply summary_NoDup|done]. Qed.

(** A sentence that comes twice in the text comes once in the summary. *)
Lemma summarizeText_no_duplicates_witness :
  NoDup (summary_sentences "red cat ran. blue bird sat. red cat ran." 3) ∧
  summarizeText "red cat ran. blue bird sat. red cat ran." 3
    = "red cat ran. blue bird sat.".
Proof.
  split.
  - refine (proj1 (summarizeText_no_duplicates
                     "red cat ran. blue bird sat. red cat ran." 3 _ _));
      by vm_compute.
  - by vm_compute.
Defined.

(** * Further properties of the code *)

(** ** Words and sentences *)

(** X1.  Every word of [_fast_words] is a non-empty run of lower-case
    letters, digits and apostrophes, and none is a stop word. *)
Theorem fast_words_tokens (text : string) :
  Forall (λ w, w ≠ "" ∧ (w ∉ _STOPWORDS) ∧
               Forall (λ c, is_lower_word_char c = true) (chars w))
         (_fast_words text).
Proof. apply fast_words_chars. Qed.

Example fast_words_runs :
  _fast_words "The CAT'S 2 toys -- and the dog." = ["cat's"; "2"; "toys"; "dog"].
Proof. by vm_compute. Qed.

(** X2.  Every sentence of [_fast_sentences] is stripped of the white
    space around it, has three words or more, and holds no end of a
    sentence ([.], [!] or [?] followed by white space) inside it; an empty
    text has no sentence. *)
Theorem fast_sentences_trimmed `{Library} (text : string) :
  Forall (λ s, Text.strip s = s ∧ (3 ≤ length (Text.split_ws s))%nat ∧
               has_break s = false)
         (_fast_sentences text) ∧
  _fast_sentences "" = [].
Proof. split; [apply fast_sentences_clean|apply fast_sentences_empty]. Qed.

Example fast_sentences_runs :
  _fast_sentences "  It rained all day.  We stayed in! Why?  No idea at all. "
  = ["It rained all day."; "We stayed in!"; "No idea at all."].
Proof. by vm_compute. Qed.

(** X3.  Once the tags are stripped no tag is left: the text holds no
    [<], then one character or more other than [>], then [>]; stripping
    again changes nothing; and when the text has no [&], no sentence of
    [_fast_sentences] holds a tag. *)
Theorem strip_tags_complete `{Library} (text : string) :
  ¬ tagged (Text.strip_tags text) ∧
  Text.strip_tags (Text.strip_tags text) = Text.strip_tags text ∧
  (Text.has_char "&" text = false →
   Forall (λ s, ¬ tagged s) (_fast_sentences text)).
Proof.
  split_and!.
  - apply strip_tags_untagged.
  - apply strip_tags_idemp.
  - apply fast_sentences_untagged.
Qed.

Example strip_tags_runs :
  Text.strip_tags "a <b>bold</b> <> x < y <<i>> z" = "a bold <> x > z".
Proof. by vm_compute. Qed.

(** ** The summary *)

(** X4.  When the order of the floats is a strict weak order and the
    text has a content word, the summary takes the sentences of the
    highest scores: a scored sentence is in the summary whenever a
    sentence of a strictly lower score is. *)
Theorem summarizeText_top_scores `{Library} (text : string) (n : Z)
    (s1 s2 : string) (x1 x2 : float)
    (Hasym : ∀ x y, f_lt x y = true → f_lt y x = false)
    (Hneg : ∀ x y z, f_lt x y = false → f_lt y z = false → f_lt x z = false)
    (Hwords : _fast_words text ≠ [])
    (H1 : Py.dict_get s1 (text_scores text) = Some x1)
    (H2 : Py.dict_get s2 (text_scores text) = Some x2)
    (Hlt : f_lt x2 x1 = true)
    (Hin : s2 ∈ summary_sentences text n) :
  s1 ∈ summary_sentences text n.
Proof. by eapply summary_top. Qed.

(** With room for two sentences, the last one, of the highest score, is
    taken with the second. *)
Lemma summarizeText_top_scores_witness :
  "red dog ran red." ∈
    summary_sentences "blue bird sat. red cat ran. red dog ran red." 2 ∧
  summarizeText "blue bird sat. red cat ran. red dog ran red." 2
    = "red cat ran. red dog ran red.".
Proof.
  split.
  - apply (@summarizeText_top_scores Q_float example_library
             "blue bird sat. red cat ran. red dog ran red." 2
             "red dog ran red." "red cat ran." (243 # 81)%Q (54 # 27)%Q
             Q_lt_asym Q_lt_negtrans);
      [by vm_compute..|].
    vm_compute. set_solver.
  - by vm_compute.
Defined.

(** X5.  A text of at most [n] sentences, all different and each with
    three content words or more, is its own summary: the sentences come
    back in their order, joined by single spaces. *)
Theorem summarizeText_short_text `{Library} (text : string) (n : Z)
    (Hn : 0 ≤ n)
    (Hlen : (length (_fast_sentences text) ≤ Z.to_nat n)%nat)
    (Hnodup : NoDup (_fast_sentences text))
    (Hscored : Forall scored (_fast_sentences text)) :
  summarizeText text n = Py.join " " (_fast_sentences text).
Proof. unfold summarizeText. by rewrite summary_whole. Qed.

Lemma summarizeText_short_text_witness :
  summarizeText "red cat ran.   blue bird sat." 3 = "red cat ran. blue bird sat.".
Proof.
  refine (summarizeText_short_text "red cat ran.   blue bird sat." 3 _ _ _ _).
  - lia.
  - vm_compute. lia.
  - assert (_fast_sentences "red cat ran.   blue bird sat."
            = ["red cat ran."; "blue bird sat."]) as -> by (by vm_compute).
    apply NoDup_cons. split; [set_solver|apply NoDup_singleton].
  - assert (_fast_sentences "red cat ran.   blue bird sat."
            = ["red cat ran."; "blue bird sat."]) as -> by (by vm_compute).
    repeat constructor; vm_compute; lia.
Defined.

(** X6.  The summary is never longer than the text it is made from, once
    the tags of the text are stripped and its entities unescaped; so it is
    not longer than the text itself when the text has no [&]. *)
Theorem summarizeText_not_longer `{Library} (text : string) (n : Z) :
  (String.length (summarizeText text n)
   ≤ String.length (html_unescape (Text.strip_tags text)))%nat ∧
  (Text.has_char "&" text = false →
   (String.length (summarizeText text n) ≤ String.length text)%nat).
Proof.
  split; [apply summary_short|]. intros Hamp.
  pose proof (summary_short text n) as Hs.
  rewrite (html_unescape_plain _ (strip_tags_chars _ _ Hamp)) in Hs.
  pose proof (tag_sub_length None text) as Ht. unfold Text.strip_tags in Hs.
  change (String.length (default "" None)) with 0%nat in Ht. lia.
Qed.

(** X7.  The dict of [analyze_sentiment] always carries a label, one of
    ["positive"], ["negative"] and ["neutral"]; and the result depends on
    the first 5000 characters of the text only. *)
Theorem analyze_sentiment_total `{Library} :
  (∀ text, ∃ l, analyze_sentiment text !! "label" = Some (SLabel l) ∧
                l ∈ ["positive"; "negative"; "neutral"]) ∧
  (∀ t t', substring 0 5000 t = substring 0 5000 t' →
           analyze_sentiment (Some t) = analyze_sentiment (Some t')).
Proof. split; [apply analyze_sentiment_label|apply analyze_sentiment_cap]. Qed.

(** ** Runs of [getNews] *)

(** X8.  When [getNews] returns a list, the list holds one article for
    each headline, and no other: the article has the address of the
    headline, its title or ["No Title"], the name of its source or
    ["Unknown"]; its text is the text the cache holds for the address when
    the run ends, or else the description, or else the title, and is never
    empty; its summary and its sentiment are those of this text.  The
    addresses of the list are pairwise different, and none is empty. *)
Theorem getNews_one_article_per_headline `{Library} `{Network}
    (sched : list nat) (api_key : string) (categories : list string)
    (per_category fetch_full parallel_workers : Z) (country : option string)
    (st : state) (out : list article)
    (Hout : (getNews sched api_key categories per_category fetch_full
               parallel_workers country st).1 = Ok out) :
  let headlines := collect_headlines api_key categories per_category country in
  let st' := (getNews sched api_key categories per_category fetch_full
                parallel_workers country st).2 in
  (∃ arts, out ≡ₚ arts ∧
     Forall2 (λ it a, ∃ art text,
                _CACHE st' !! url_of it = Some art ∧
                a_url a = url_of it ∧
                a_title a = or_default "No Title" (i_title it) ∧
                source_name it = Ok (a_source a) ∧
                a_text a = Some text ∧ text ≠ "" ∧
                text = or_default
                         (or_default (a_title a)
                                     (Some (or_default "" (i_description it))))
                         (Some (fr_text art)) ∧
                a_summary a = summarizeText text 3 ∧
                a_sentiment a = analyze_sentiment (Some text))
             headlines arts) ∧
  length out = length headlines ∧
  NoDup (a_url <$> out) ∧
  Forall (λ a, a_url a ≠ "" ∧ a_title a ≠ "" ∧ a_source a ≠ "") out.
Proof.
  cbn zeta. destruct (getNews_articles _ _ _ _ _ _ _ _ _ Hout) as (arts & -> & Hall).
  set (st' := (getNews _ _ _ _ _ _ _ st).2) in *.
  set (headlines := collect_headlines _ _ _ _) in *.
  assert (Forall2 (λ it a, a_url a = url_of it ∧ a_title a ≠ "" ∧ a_source a ≠ "")
                  headlines arts) as Hfields.
  { eapply Forall2_impl; [exact Hall|]. cbn beta.
    intros it a (s & art & Hs & _ & ->).
    destruct (enriched_fields it s art) as (Hu & Ht & Hsrc & _).
    rewrite Hu, Ht, Hsrc. split_and!; [done|by apply or_default_nonempty|].
    by eapply source_name_nonempty. }
  assert (a_url <$> arts = url_of <$> headlines) as Hurls.
  { clear -Hfields. induction Hfields as [|it a l k (Hu & _) _ IH]; [done|].
    rewrite !fmap_cons. by rewrite Hu, IH. }
  split_and!.
  - exists arts. split; [apply sort_articles_perm|].
    eapply Forall2_impl; [exact Hall|]. cbn beta.
    intros it a (s & art & Hs & Hart & ->).
    destruct (enriched_fields it s art) as (Hu & Ht & Hsrc & Htx & Hne & Hsum & Hsen).
    exists art. eexists. rewrite Hsrc, Ht. by split_and!.
  - rewrite sort_articles_perm. symmetry. by eapply Forall2_length.
  - rewrite sort_articles_perm, Hurls. apply headlines_NoDup.
  - rewrite sort_articles_perm.
    assert (Forall (λ it, url_of it ≠ "") headlines) as Hne.
    { apply Forall_forall. intros it Hit. unfold headlines in Hit.
      rewrite collect_headlines_fresh in Hit. by apply fresh_url in Hit as [? _]. }
    clear -Hfields Hne.
    induction Hfields as [|it a l k (Hu & Ht & Hs) _ IH]; [constructor|].
    apply Forall_cons in Hne as [Hit Hne]. constructor; [|by apply IH].
    by rewrite Hu.
Qed.

(** One run on the network of the examples. *)
Lemma getNews_one_article_per_headline_witness :
  ∃ out,
    (getNews [1; 0; 1]%nat "key" ["general"; "business"] 8 12 12 None
       (State ∅ [])).1 = Ok out ∧
    length out = 3%nat ∧ NoDup (a_url <$> out).
Proof.
  remember (getNews [1; 0; 1]%nat "key" ["general"; "business"] 8 12 12 None
              (State ∅ [])).1 as r eqn:Hr.
  assert (returned r = true) as Hret by (rewrite Hr; vm_compute; reflexivity).
  destruct r as [out|e]; [|discriminate Hret]. symmetry in Hr.
  exists out. split; [reflexivity|].
  destruct (getNews_one_article_per_headline _ _ _ _ _ _ _ _ _ Hr)
    as (_ & Hlen & Hnd & _).
  split; [|exact Hnd]. rewrite Hlen. vm_compute. reflexivity.
Defined.

(** X9.  The article requests of a run of [getNews], under any schedule
    of its pool and whether it returns or raises: each is for the address
    of a headline that the cache did not hold when the run began, no
    address is requested twice, and there are no more requests than
    headlines. *)
Theorem getNews_requests_once `{Library} `{Network}
    (sched : list nat) (api_key : string) (categories : list string)
    (per_category fetch_full parallel_workers : Z) (country : option string)
    (st : state) :
  let headlines := collect_headlines api_key categories per_category country in
  ∃ new,
    requests (getNews sched api_key categories per_category fetch_full
                parallel_workers country st).2 = requests st ++ new ∧
    NoDup new ∧
    (∀ u, u ∈ new → _CACHE st !! u = None ∧ u ∈ url_of <$> headlines) ∧
    (length new ≤ length headlines)%nat.
Proof.
  cbn zeta.
  destruct (getNews_requests sched api_key categories per_category fetch_full
              parallel_workers country st) as (new & Hreq & Hnd & Hnew).
  exists new. split_and!; [done..|].
  rewrite <-(length_fmap url_of). apply submseteq_length, NoDup_submseteq; [done|].
  intros u Hu. by apply Hnew.
Qed.

Example getNews_requests_runs :
  requests (getNews [1; 0; 1]%nat "key" ["general"; "business"] 8 12 12 None
              (State {[ "http://b" := FetchResult "Old dog sat still." None ]}
                     ["http://b"])).2
  = ["http://b"; "http://a"; "http://c"].
Proof. by vm_compute. Qed.

(** X10.  When the cache holds an entry for the address of every
    headline, a run of [getNews] leaves the state of the process as it is,
    under any schedule: it sends no article request and writes nothing to
    the cache. *)
Theorem getNews_warm_cache `{Library} `{Network}
    (sched : list nat) (api_key : string) (categories : list string)
    (per_category fetch_full parallel_workers : Z) (country : option string)
    (st : state)
    (Hcached : ∀ it,
       it ∈ collect_headlines api_key categories per_category country →
       is_Some (_CACHE st !! url_of it)) :
  (getNews sched api_key categories per_category fetch_full parallel_workers
     country st).2 = st.
Proof. by apply getNews_warm. Qed.

Lemma getNews_warm_cache_witness :
  let st := State {[ "http://a" := FetchResult "Red cat ran home." None;
                     "http://b" := FetchResult "" None ]} ["http://a"] in
  (getNews [1; 0]%nat "key" ["general"] 8 12 12 None st).2 = st.
Proof.
  cbn zeta. apply getNews_warm_cache. intros it Hit.
  assert (url_of it ∈ ["http://a"; "http://b"]) as Hu.
  { apply (list_elem_of_fmap_2 url_of) in Hit. by vm_compute in Hit. }
  apply elem_of_cons in Hu as [->|Hu]; [by vm_compute; eexists|].
  apply elem_of_cons in Hu as [->|Hu]; [by vm_compute; eexists|].
  by apply elem_of_nil in Hu.
Defined.

(** X11.  When a run of [getNews] has returned a list, the cache holds an
    entry for the address of every headline, and a second run with the
    same arguments, under any schedule, leaves the state as the first run
    left it. *)
Theorem getNews_fills_cache `{Library} `{Network}
    (sched : list nat) (api_key : string) (categories : list string)
    (per_category fetch_full parallel_workers : Z) (country : option string)
    (st : state) (out : list article)
    (Hout : (getNews sched api_key categories per_category fetch_full
               parallel_workers country st).1 = Ok out) :
  let st' := (getNews sched api_key categories per_category fetch_full
                parallel_workers country st).2 in
  (∀ it, it ∈ collect_headlines api_key categories per_category country →
         is_Some (_CACHE st' !! url_of it)) ∧
  (∀ sched2, (getNews sched2 api_key categories per_category fetch_full
                parallel_workers country st').2 = st').
Proof.
  cbn zeta. destruct (getNews_articles _ _ _ _ _ _ _ _ _ Hout) as (arts & _ & Hall).
  assert (∀ it, it ∈ collect_headlines api_key categories per_category country →
            is_Some (_CACHE (getNews sched api_key categories per_category
                               fetch_full parallel_workers country st).2
                     !! url_of it)) as Hc.
  { intros it [i Hi]%list_elem_of_lookup_1.
    destruct (Forall2_lookup_l _ _ _ _ _ Hall Hi) as (a & _ & s & art & _ & Hart & _).
    by exists art. }
  split; [done|]. intros sched2. by apply getNews_warm.
Qed.

Lemma getNews_fills_cache_witness :
  let st' := (getNews [1; 0; 1]%nat "key" ["general"; "business"] 8 12 12 None
                (State ∅ [])).2 in
  (getNews [2; 0]%nat "key" ["general"; "business"] 8 12 12 None st').2 = st'.
Proof.
  cbn zeta.
  remember (getNews [1; 0; 1]%nat "key" ["general"; "business"] 8 12 12 None
              (State ∅ [])).1 as r eqn:Hr.
  assert (returned r = true) as Hret by (rewrite Hr; vm_compute; reflexivity).
  destruct r as [out|e]; [|discriminate Hret]. symmetry in Hr.
  apply (proj2 (getNews_fills_cache _ _ _ _ _ _ _ _ _ Hr)).
Defined.

(** X12.  The default of the parameter [categories] of [getNews] is the
    text ["general"], not a tuple: the loop over the categories goes
    through its letters.  So a call that leaves the categories out asks
    the headline API for the topics [g], [e], [n], [e], [r], [a], [l]; when
    the API has no headlines for a topic of one letter, the call returns
    the empty list and leaves the state as it is. *)
Theorem getNews_default_categories `{Library} `{Network}
    (sched : list nat) (api_key : string)
    (per_category fetch_full parallel_workers : Z) (country : option string)
    (st : state)
    (Hworkers : 0 < parallel_workers)
    (Htopics : ∀ token topic max_items country,
       String.length topic = 1%nat →
       match gnews_get token topic max_items country with
       | Ok r => api_status r ≠ 200
       | Raise _ => True
       end) :
  iter_str DEFAULT_CATEGORIES = ["g"; "e"; "n"; "e"; "r"; "a"; "l"] ∧
  getNews sched api_key (iter_str DEFAULT_CATEGORIES) per_category fetch_full
    parallel_workers country st = (Ok [], st).
Proof.
  split; [done|]. apply getNews_no_headlines; [done|].
  rewrite collect_headlines_fresh, offered_nil; [done|].
  repeat constructor; by apply Htopics.
Qed.

Lemma getNews_default_categories_witness :
  getNews [0; 1]%nat "key" (iter_str DEFAULT_CATEGORIES) 8 12 12 None (State ∅ [])
    = (Ok [], State ∅ []) ∧
  length (returned_list
            (getNews [0; 1]%nat "key" ["general"] 8 12 12 None (State ∅ [])).1)
    = 2%nat.
Proof.
  split; [|vm_compute; reflexivity].
  apply getNews_default_categories; [lia|].
  intros token topic max_items country Hlen.
  destruct topic as [|c [|? ?]]; [discriminate Hlen| |discriminate Hlen].
  cbn [gnews_get example_network].
  rewrite decide_False by discriminate. rewrite decide_False by discriminate.
  cbn. discriminate.
Defined.

(** ** The endpoint *)

(** X13.  Whatever JSON object a request carries, [send_news] answers it
    with the status 400, when one of the six fields is missing, or with
    the status 500 and the message of the [TypeError] of its call: the
    success text is never returned and the body of [fetch_and_email_news]
    never runs. *)
Theorem send_news_never_succeeds {V : Type}
    (body : list (string * V) → outcome bool) (data : gmap string V) :
  ((∃ k, k ∈ App.required_keys ∧ data !! k = None) ∧
   App.send_news body data = App.JsonError 400 "Missing required fields") ∨
  ((∀ k, k ∈ App.required_keys → is_Some (data !! k)) ∧
   App.send_news body data =
     App.JsonError 500
       "fetch_and_email_news() got an unexpected keyword argument 'email'").
Proof.
  destruct (decide (Forall (λ k, is_Some (data !! k)) App.required_keys))
    as [Hall|Hex].
  - right. rewrite Forall_forall in Hall. split; [done|].
    by apply send_news_all_fields.
  - left. apply not_Forall_Exists in Hex; [|apply _].
    apply Exists_exists in Hex as (k & Hk & Hnone).
    apply eq_None_not_Some in Hnone. split; [eauto|].
    by eapply send_news_missing.
Qed.

(** ** Time zones *)

(** X14.  A preference [±hh:mm], of a sign and four digits, that the
    zone data base does not know as a key, is read as an offset: it gives
    the fixed offset of [hh] hours and [mm] minutes, east for [+] and west
    for [-], when this is less than 24 hours, and else the [ValueError]
    of [timezone] leaves [resolve_timezone]. *)
Theorem resolve_timezone_offsets `{TimeZones} (sg h1 h2 m1 m2 : ascii)
    (Hsign : sg = "+"%char ∨ sg = "-"%char)
    (Hh1 : Re.is_digit h1 = true) (Hh2 : Re.is_digit h2 = true)
    (Hm1 : Re.is_digit m1 = true) (Hm2 : Re.is_digit m2 = true)
    (Hzone : ∀ zone_info, ZoneInfo = Some zone_info →
               ∃ e, zone_info (offset_text sg h1 h2 m1 m2) = Raise e) :
  let minutes := 60 * Re.int2 h1 h2 + Re.int2 m1 m2 in
  let offset := if Ascii.eqb sg "+" then minutes else - minutes in
  0 ≤ Re.int2 h1 h2 ≤ 99 ∧ 0 ≤ Re.int2 m1 m2 ≤ 99 ∧
  (minutes < 1440 →
   resolve_timezone (Some (offset_text sg h1 h2 m1 m2)) = Ok (FixedOffset offset)) ∧
  (1440 ≤ minutes →
   resolve_timezone (Some (offset_text sg h1 h2 m1 m2))
     = Raise (ValueError (timezone_error offset))).
Proof.
  cbn zeta. rewrite (resolve_timezone_offset sg h1 h2 m1 m2) by done.
  destruct (digit_plain h1 Hh1) as (_ & _ & ?).
  destruct (digit_plain h2 Hh2) as (_ & _ & ?).
  destruct (digit_plain m1 Hm1) as (_ & _ & ?).
  destruct (digit_plain m2 Hm2) as (_ & _ & ?).
  unfold Re.int2.
  assert (∀ m, (if Ascii.eqb sg "+" then 1 else -1) * m
               = if Ascii.eqb sg "+" then m else - m) as ->
    by (intros m; destruct (Ascii.eqb sg "+"); lia).
  split_and!; [lia..| |].
  - intros Hlt. apply timezone_spec. destruct (Ascii.eqb sg "+"); lia.
  - intros Hge. apply timezone_spec. destruct (Ascii.eqb sg "+"); lia.
Qed.

Lemma resolve_timezone_offsets_witness :
  @resolve_timezone example_zones (Some "-05:30") = Ok (FixedOffset (-330)) ∧
  @resolve_timezone example_zones (Some "+24:00")
    = Raise (ValueError (@timezone_error example_zones 1440)).
Proof.
  split.
  - destruct (@resolve_timezone_offsets example_zones "-" "0" "5" "3" "0"
                (or_intror eq_refl) eq_refl eq_refl eq_refl eq_refl)
      as (_ & _ & Hok & _).
    + intros zone_info [= <-]. by eexists.
    + apply Hok. by vm_compute.
  - destruct (@resolve_timezone_offsets example_zones "+" "2" "4" "0" "0"
                (or_introl eq_refl) eq_refl eq_refl eq_refl eq_refl)
      as (_ & _ & _ & Hraise).
    + intros zone_info [= <-]. by eexists.
    + apply Hraise. by vm_compute.
Defined.

(** X15.  When the zone data base, if there is one, knows the keys
    ["UTC"] and ["Asia/Singapore"], [resolve_timezone] raises only for a
    preference that is read as an offset of 24 hours or more, and then the
    [ValueError] of [timezone]; any other preference gives a time zone. *)
Theorem resolve_timezone_failures `{TimeZones} (tz_pref : option string)
    (Hknown : ∀ zone_info, ZoneInfo = Some zone_info →
                (∃ tz, zone_info "UTC" = Ok tz) ∧
                (∃ tz, zone_info "Asia/Singapore" = Ok tz)) :
  (∃ tz, resolve_timezone tz_pref = Ok tz) ∨
  (∃ sg hh mm rest,
     tz_pref = Some rest ∧
     Re.match_offset
       (default rest (Py.dict_get (Text.lower (Text.strip rest)) _ALIAS))
       = Some (sg, hh, mm) ∧
     1440 ≤ 60 * hh + mm ∧
     resolve_timezone tz_pref =
       Raise (ValueError (timezone_error
                ((if Ascii.eqb sg "+" then 1 else -1) * (60 * hh + mm))))).
Proof.
  destruct (resolve_timezone tz_pref) as [tz|e] eqn:Hr; [by left; eauto|].
  right. destruct (resolve_timezone_raises tz_pref e Hknown Hr)
    as (sg & hh & mm & rest & ? & ? & ? & ->).
  by exists sg, hh, mm, rest.
Qed.

Lemma resolve_timezone_failures_witness :
  ∃ tz, @resolve_timezone example_zones (Some "  UK ") = Ok tz.
Proof.
  destruct (@resolve_timezone_failures example_zones (Some "  UK "))
    as [Htz|(sg & hh & mm & rest & _ & _ & _ & Hr)].
  - intros zone_info [= <-]. split; by eexists.
  - done.
  - by vm_compute in Hr.
Defined.

(** An alias is found whatever its case and the white space around it; a
    name that is no alias goes to the data base as it was given, so an
    offset with a space in front is not read as an offset. *)
Example resolve_timezone_runs :
  @resolve_timezone example_zones (Some "  UK ") = Ok (Zone "Europe/London") ∧
  @resolve_timezone example_zones (Some "Mars/Base") = Ok (Zone "UTC") ∧
  @resolve_timezone example_zones None = Ok (Zone "Asia/Singapore") ∧
  @resolve_timezone example_zones (Some " +05:30") = Ok (Zone "UTC").
Proof. split_and!; by vm_compute. Qed.

(** ** The mail *)

(** X16.  [esc] leaves no [<] and no [>] in a text; it gives different
    texts for different texts, so what it has escaped can be read back;
    and a text without [&], [<] and [>] is left as it is. *)
Theorem esc_escapes :
  (∀ s, Text.has_char "<" (esc s) = false ∧ Text.has_char ">" (esc s) = false) ∧
  (∀ s1 s2, esc s1 = esc s2 → s1 = s2) ∧
  (∀ s, Text.has_char "&" s = false → Text.has_char "<" s = false →
        Text.has_char ">" s = false → esc s = s).
Proof. split_and!; [apply esc_no_angle|apply esc_inj|apply esc_plain]. Qed.

Example esc_runs : esc "a<b && b>c &lt;" = "a&lt;b &amp;&amp; b&gt;c &amp;lt;".
Proof. by vm_compute. Qed.

(** X17.  When the mail library takes the two headers, [sendMailSingle]
    raises nothing and begins one SMTP session.  [send_message] is called
    with the message when the connection is made and the login taken, and
    not otherwise.  The result is [True] when the connection, the login,
    [send_message] and the end of the session all succeed; else it is
    [False] and one line is printed.  The text of the message ends with
    the footer, after the body without the white space at its end, so
    white space at the end of the body changes nothing; the HTML part is
    there unless [html] is [None] or empty. *)
Theorem sendMailSingle_outcome `{Mail}
    (recipient name subject body : string) (html : option string) (w : world)
    (Hto : set_header "To" recipient = Ok ())
    (Hsubject : set_header "Subject" subject = Ok ()) :
  let r := sendMailSingle recipient name subject body html w in
  let n := smtp_sessions w in
  ∃ msg,
    m_to msg = recipient ∧ m_subject msg = subject ∧
    m_text msg = "Hello " +:+ name +:+ "," +:+ Fmt.nl +:+ Fmt.nl +:+
                 Text.rstrip body +:+ Fmt.nl +:+ Fmt.nl +:+
                 "This email was sent by Slider Bot." ∧
    (m_html msg = None ↔ html = None ∨ html = Some "") ∧
    process r.2 = process w ∧ clock_reads r.2 = clock_reads w ∧
    smtp_sessions r.2 = S n ∧
    smtp_log r.2 = (if session_reaches_send n then smtp_log w ++ [msg]
                    else smtp_log w) ∧
    r.1 = Ok (session_succeeds n msg) ∧
    (session_succeeds n msg = true → stdout r.2 = stdout w) ∧
    (session_succeeds n msg = false →
     ∃ e, stdout r.2 = stdout w ++ ["Failed to send email to " +:+ recipient
                                    +:+ ": " +:+ exn_str e]) ∧
    (∀ ws, blank ws →
       sendMailSingle recipient name subject (body +:+ ws) html w = r).
Proof. by apply sendMailSingle_spec. Qed.

(** The first session of the examples succeeds; the connection of the
    second is refused, and its message is not sent. *)
Lemma sendMailSingle_outcome_witness :
  let w := World (State ∅ []) [] [] 0 0 in
  let r1 := @sendMailSingle example_mail "ann@example.com" "Ann" "News" "Hi.  "
              (Some "<p>Hi.</p>") w in
  let r2 := @sendMailSingle example_mail "bob@example.com" "Bob" "News" "Hi."
              None r1.2 in
  r1.1 = Ok true ∧ length (smtp_log r1.2) = 1%nat ∧
  r2.1 = Ok false ∧ smtp_log r2.2 = smtp_log r1.2 ∧
  stdout r2.2 = ["Failed to send email to bob@example.com: Connection refused"].
Proof.
  cbn zeta.
  destruct (@sendMailSingle_outcome example_mail "ann@example.com" "Ann" "News"
              "Hi.  " (Some "<p>Hi.</p>") (World (State ∅ []) [] [] 0 0)
              eq_refl eq_refl)
    as (msg & _ & _ & _ & _ & _ & _ & _ & Hlog & Hres & _).
  split_and!; [exact Hres|by rewrite Hlog|by vm_compute..].
Defined.

(** A login that is refused sends nothing; a session that sends the
    message and fails at its end gives [False] all the same. *)
Example sendMailSingle_runs :
  let r3 := @sendMailSingle example_mail "cat@example.com" "Cat" "News" "Hi."
              None (World (State ∅ []) [] [] 0 2) in
  let r4 := @sendMailSingle example_mail "dan@example.com" "Dan" "News" "Hi."
              None r3.2 in
  r3.1 = Ok false ∧ smtp_log r3.2 = [] ∧
  stdout r3.2 = ["Failed to send email to cat@example.com: Username and Password not accepted"] ∧
  r4.1 = Ok false ∧ m_to <$> smtp_log r4.2 = ["dan@example.com"] ∧
  smtp_sessions r4.2 = 4%nat.
Proof. by vm_compute. Qed.

(** X18.  [fetch_and_email_news] asks [getNews] for categories that are
    never empty.  An exception of [getNews] or of [resolve_timezone] leaves
    the function: no SMTP session is begun and nothing is printed.  Else,
    when the mail library takes the headers, one session is begun, for a
    message to the recipient with the time in its subject; [send_message]
    is called with it when the connection is made and the login taken,
    and not otherwise; the function returns whether the whole session has
    succeeded; and a list without articles gives the text that says so. *)
Theorem fetch_and_email_news_outcome `{Library} `{Network} `{TimeZones} `{Mail}
    (sched : list nat) (recipient name : string) (params : option (list string))
    (api_key : string) (per_category fetch_full parallel_workers : Z)
    (timezone_pref : option string) (w : world) :
  let args := parse_params params in
  let news := getNews sched api_key args.2 per_category fetch_full
                parallel_workers args.1 (process w) in
  let r := fetch_and_email_news sched recipient name params api_key
             per_category fetch_full parallel_workers timezone_pref w in
  let n := smtp_sessions w in
  args.2 ≠ [] ∧
  (∀ e, news.1 = Raise e →
     r.1 = Raise e ∧ smtp_sessions r.2 = n ∧ smtp_log r.2 = smtp_log w ∧
     stdout r.2 = stdout w) ∧
  (∀ items e, news.1 = Ok items → resolve_timezone timezone_pref = Raise e →
     r.1 = Raise e ∧ smtp_sessions r.2 = n ∧ smtp_log r.2 = smtp_log w ∧
     stdout r.2 = stdout w) ∧
  (∀ items tz, news.1 = Ok items → resolve_timezone timezone_pref = Ok tz →
     (∀ header value, set_header header value = Ok ()) →
     ∃ msg,
       m_to msg = recipient ∧
       m_subject msg = "News Summary by Slider Bot at: "
                       +:+ strftime_now (clock_reads w) tz ∧
       smtp_sessions r.2 = S n ∧
       smtp_log r.2 = (if session_reaches_send n then smtp_log w ++ [msg]
                       else smtp_log w) ∧
       r.1 = Ok (session_succeeds n msg) ∧
       (items = [] →
        m_text msg = "Hello " +:+ name +:+ "," +:+ Fmt.nl +:+ Fmt.nl +:+
                     "No news items were returned for your request." +:+
                     Fmt.nl +:+ Fmt.nl +:+ "This email was sent by Slider Bot.")) ∧
  process r.2 = news.2.
Proof.
  cbn zeta. unfold fetch_and_email_news.
  pose proof (parse_params_categories params) as Hcats.
  destruct (parse_params params) as [country categories]. cbn [fst snd] in *.
  destruct (getNews _ _ _ _ _ _ _ _) as [[items|e] st]; cbn [fst snd].
  - split_and!; [done|done| | |].
    + intros items' e' _ ->. done.
    + intros items' tz [= <-] -> Hhdr. cbn zeta.
      assert (∀ plain html,
        let r := sendMailSingle recipient name
                   (Fmt.fstring ["News Summary by Slider Bot at: ";
                                 strftime_now (clock_reads w) tz])
                   plain (Some html)
                   (World st (smtp_log w) (stdout w) (S (clock_reads w))
                          (smtp_sessions w)) in
        ∃ msg, m_to msg = recipient ∧
          m_subject msg = "News Summary by Slider Bot at: "
                          +:+ strftime_now (clock_reads w) tz ∧
          smtp_sessions r.2 = S (smtp_sessions w) ∧
          smtp_log r.2 = (if session_reaches_send (smtp_sessions w)
                          then smtp_log w ++ [msg] else smtp_log w) ∧
          r.1 = Ok (session_succeeds (smtp_sessions w) msg) ∧
          m_text msg = "Hello " +:+ name +:+ "," +:+ Fmt.nl +:+ Fmt.nl +:+
                       Text.rstrip plain +:+ Fmt.nl +:+ Fmt.nl +:+
                       "This email was sent by Slider Bot.") as Hsend.
      { intros plain html.
        destruct (sendMailSingle_spec recipient name
                    (Fmt.fstring ["News Summary by Slider Bot at: ";
                                  strftime_now (clock_reads w) tz])
                    plain (Some html)
                    (World st (smtp_log w) (stdout w) (S (clock_reads w))
                           (smtp_sessions w))
                    (Hhdr _ _) (Hhdr _ _))
          as (msg & Hto & Hsub & Htext & _ & _ & _ & Hn & Hlog & Hres & _).
        cbn zeta. exists msg. split_and!; [done| |done..].
        rewrite Hsub. unfold Fmt.fstring. cbn [foldr].
        by rewrite string_app_nil_r. }
      destruct items as [|a items].
      * destruct (Hsend "No news items were returned for your request."
                    "<p>No news items were returned for your request.</p>")
          as (msg & ? & ? & ? & ? & ? & ?).
        exists msg. by split_and!.
      * destruct (Hsend (plain_body country categories (a :: items))
                    (html_body country categories (a :: items)))
          as (msg & ? & ? & ? & ? & ? & ?).
        exists msg. by split_and!.
    + destruct (resolve_timezone timezone_pref); [|done].
      destruct items; unfold sendMailSingle;
        destruct (set_header "To" recipient) as [[]|]; cbn; try done;
        destruct (set_header "Subject" _) as [[]|]; cbn; try done;
        by destruct (smtp_session _ _) as [called [[]|e]].
  - split_and!; [done| |done..]. by intros e' [= <-].
Qed.

(** One run on the network and the mail of the examples: two articles,
    one session, one message. *)
Example fetch_and_email_news_runs :
  let r := @fetch_and_email_news _ example_library example_network example_zones
             example_mail [0; 1]%nat "ann@example.com" "Ann"
             (Some ["us"; "general"]) "key" 8 12 12 (Some "sg")
             (World (State ∅ []) [] [] 0 0) in
  r.1 = Ok true ∧ m_to <$> smtp_log r.2 = ["ann@example.com"] ∧
  m_subject <$> smtp_log r.2
    = ["News Summary by Slider Bot at: 2025-01-01 08:00 +08"] ∧
  requests (process r.2) = ["http://a"; "http://b"].
Proof. by vm_compute. Qed.

(** ** Reading a mail *)

(** X19.  For a multipart message [_extract_body] goes through the parts
    in the order of [walk()].  When a part that is no container has an
    [email.header.Header] as its [Content-Disposition], as the default
    policy gives for a header with bytes that are not ASCII, the function
    raises [AttributeError]: the disposition is lowered outside the [try].
    In every other case it returns: the text body is the text of the first
    part of type [text/plain] that is no container and no attachment and
    whose text is not empty, and the HTML body is that of the first such
    part of type [text/html]; a part that cannot be decoded counts as
    empty.  A message that is not multipart always gives its own text, and
    an empty HTML body. *)
Theorem extract_body_first_parts (msg : email_message) :
  (is_multipart msg = true →
   Forall (λ part, ¬ header_disposition part) (walk msg) →
   _extract_body msg = Ok (first_body "text/plain" (walk msg),
                           first_body "text/html" (walk msg))) ∧
  (is_multipart msg = true →
   Exists header_disposition (walk msg) →
   _extract_body msg =
     Raise (AttributeError "'Header' object has no attribute 'lower'")) ∧
  (is_multipart msg = false →
   _extract_body msg = Ok (content_of (root_part msg), "")).
Proof.
  unfold _extract_body. split_and!; intros ->; [| |done].
  - intros Hparts. by rewrite extract_parts.
  - apply extract_parts_raise.
Qed.

Example extract_body_runs :
  let root := MimePart "multipart" "multipart/mixed" (Some HeaderObject) (Ok "") in
  let file := MimePart "text" "text/plain"
                       (Some (HeaderText "Attachment; filename=a.txt"))
                       (Ok "attached") in
  let bad := MimePart "text" "text/plain" None (Raise (ValueError "unknown encoding")) in
  let text := MimePart "text" "text/plain" (Some (HeaderText "inline")) (Ok "Hello") in
  let page := MimePart "text" "text/html" None (Ok "<p>Hello</p>") in
  let last := MimePart "text" "text/plain" None (Ok "Bye") in
  let odd := MimePart "image" "image/png" (Some HeaderObject) (Ok "") in
  _extract_body (EmailMessage true [root; file; bad; page; text; last] root)
    = Ok ("Hello", "<p>Hello</p>") ∧
  _extract_body (EmailMessage true [root; text; odd; page] root)
    = Raise (AttributeError "'Header' object has no attribute 'lower'") ∧
  _extract_body (EmailMessage false [odd] odd) = Ok ("", "").
Proof. by vm_compute. Qed.


Example html_to_text_runs :
  _html_to_text
    ("<p>Hi   <b>there</b></p><SCRIPT type=x>var a = 1 > 0;</Script>" +:+
     Fmt.nl +:+ " <style>p{}</style>you  <br/>  all < now")
  = "Hi there you all < now".
Proof. by vm_compute. Qed.
